(** * ts-generator-builder: import-usage detection, import rendering,
      section assembly and statement builders.

    A shallow embedding of the TypeScript sources
      - utils/type-usage-tracker.ts   (modules [Regex] and [Tracker])
      - builders/imports-builder.ts   (module [Imports])
      - section.ts and generator.ts   (modules [SectionM] and [GeneratorM])
      - builders/if-statement-builder.ts, loop-builder.ts and the loop builders
        (module [Statements])
    followed by the properties established about them.

    Strings are Rocq strings, read as sequences of code units below 256.
    The TypeScript compiler API (node factory and printer) is an external
    collaborator; the few facts used about it are written out where they are
    used. *)

From Stdlib Require Import List String Ascii Bool Arith ZArith Lia Permutation
  Sorted QArith Lqa.
Close Scope Q_scope.
Import ListNotations.
Open Scope string_scope.
Set Warnings "-register-all".
Open Scope list_scope.

(** String concatenation (the [+] of the source on strings). *)
Infix "+++" := String.append (right associativity, at level 60).

(** The double-quote character, as a string. *)
Definition dq : string := String (ascii_of_nat 34) EmptyString.

(** The line feed, as a string. *)
Definition nl : string := String (ascii_of_nat 10) EmptyString.

(** The backslash, as a string. *)
Definition bs : string := String (ascii_of_nat 92) EmptyString.

(** [parts.join(sep)] *)
Fixpoint join (sep : string) (parts : list string) : string :=
  match parts with
  | [] => EmptyString
  | [x] => x
  | x :: rest => x +++ sep +++ join sep rest
  end.

(** JavaScript truthiness of a string: every string but the empty one. *)
Definition truthy (s : string) : bool :=
  match s with EmptyString => false | _ => true end.

(** Truthiness of [string | undefined]. *)
Definition truthyOpt (o : option string) : bool :=
  match o with Some s => truthy s | None => false end.

(* ================================================================== *)
(** ** Numbers *)
(* ================================================================== *)

Module Js.

(** A JavaScript number: [NaN], an infinity, or a finite double, kept as
    the rational that it denotes. *)
Inductive Number : Type :=
| NaN
| Infinity (negative : bool)
| Finite (value : Q).

(** [a - b].  The difference of two finite doubles is rounded; the rounded
    difference is zero only when the two are equal and has the sign of the
    exact difference otherwise, and the exact difference stands for it
    here.  The difference of an infinity and itself is [NaN]. *)
Definition minus (a b : Number) : Number :=
  match a, b with
  | NaN, _ => NaN
  | _, NaN => NaN
  | Infinity s, Infinity s' => if Bool.eqb s s' then NaN else Infinity s
  | Infinity s, Finite _ => Infinity s
  | Finite _, Infinity s => Infinity (negb s)
  | Finite p, Finite q => Finite (p - q)%Q
  end.

(** [v > 0], false of [NaN]. *)
Definition isPositive (v : Number) : bool :=
  match v with
  | NaN => false
  | Infinity negative => negb negative
  | Finite q => negb (Qle_bool q 0)
  end.

End Js.

(* ================================================================== *)
(** ** Regular expressions of the usage tracker *)
(* ================================================================== *)

Module Regex.

(** Character classes, as predicates on one code unit. *)
Definition code (c : ascii) : nat := nat_of_ascii c.

Definition inRange (lo hi : nat) (c : ascii) : bool :=
  Nat.leb lo (code c) && Nat.leb (code c) hi.

Definition isUpper : ascii -> bool := inRange 65 90.     (* [A-Z] *)
Definition isLower : ascii -> bool := inRange 97 122.    (* [a-z] *)
Definition isDigit : ascii -> bool := inRange 48 57.     (* [0-9] *)
Definition isUnderscore (c : ascii) : bool := Nat.eqb (code c) 95.

(** [[a-zA-Z_]] and [[A-Za-z_]] *)
Definition isIdentStart (c : ascii) : bool :=
  isLower c || isUpper c || isUnderscore c.

(** [[a-zA-Z0-9_]], which is also the class [\w] used by [\b] *)
Definition isIdentPart (c : ascii) : bool :=
  isLower c || isUpper c || isDigit c || isUnderscore c.

(** [\s] restricted to code units below 256: TAB, LF, VT, FF, CR, space
    and the no-break space. *)
Definition isSpace (c : ascii) : bool :=
  inRange 9 13 c || Nat.eqb (code c) 32 || Nat.eqb (code c) 160.

(** The class of the three quote characters: double quote, single quote
    and backquote. *)
Definition isQuote (c : ascii) : bool :=
  Nat.eqb (code c) 34 || Nat.eqb (code c) 39 || Nat.eqb (code c) 96.

Definition isChar (d : ascii) (c : ascii) : bool := Ascii.eqb d c.

(** The fragment of the regular expression syntax that the tracker uses:
    a sequence of atoms with one capture group. *)
Inductive atom : Type :=
| AChar (p : ascii -> bool)      (* one code unit of the class *)
| AStar (p : ascii -> bool)      (* class*   (greedy) *)
| ALazyStar (p : ascii -> bool)  (* class*?  (lazy)   *)
| AWordB                         (* \b *)
| AOpen                          (* (  of group 1 *)
| AClose.                        (* )  of group 1 *)

Definition regex := list atom.

(** class+ is class class* *)
Definition plus (p : ascii -> bool) : regex := [AChar p; AStar p].

(** a literal word *)
Definition lit (s : string) : regex :=
  map (fun d => AChar (isChar d)) (list_ascii_of_string s).

(** [\b] holds between a word character and a non-word character (or an
    end of the input). *)
Definition isWordAt (o : option ascii) : bool :=
  match o with Some c => isIdentPart c | None => false end.

Definition wordBoundary (prev : option ascii) (rest : list ascii) : bool :=
  xorb (isWordAt prev) (isWordAt (hd_error rest)).

(** The backtracking matcher, anchored at the current position.  [prev] is
    the code unit before the position, [pos] the number of code units
    consumed so far, [go] and [gc] the offsets where group 1 opened and
    closed.  The result is the match length and the group offsets. *)
Fixpoint matchHere (r : regex) (prev : option ascii) (rest : list ascii)
         (pos go gc : nat) {struct r} : option (nat * nat * nat) :=
  match r with
  | [] => Some (pos, go, gc)
  | a :: r' =>
    match a with
    | AChar p =>
        match rest with
        | c :: rest' =>
            if p c then matchHere r' (Some c) rest' (S pos) go gc else None
        | [] => None
        end
    | AWordB =>
        if wordBoundary prev rest then matchHere r' prev rest pos go gc
        else None
    | AOpen => matchHere r' prev rest pos pos gc
    | AClose => matchHere r' prev rest pos go pos
    | AStar p =>
        (fix star (prev : option ascii) (rest : list ascii) (pos : nat)
             {struct rest} : option (nat * nat * nat) :=
           match rest with
           | c :: rest' =>
               if p c then
                 match star (Some c) rest' (S pos) with
                 | Some m => Some m
                 | None => matchHere r' prev rest pos go gc
                 end
               else matchHere r' prev rest pos go gc
           | [] => matchHere r' prev rest pos go gc
           end) prev rest pos
    | ALazyStar p =>
        (fix lazy (prev : option ascii) (rest : list ascii) (pos : nat)
             {struct rest} : option (nat * nat * nat) :=
           match matchHere r' prev rest pos go gc with
           | Some m => Some m
           | None =>
               match rest with
               | c :: rest' =>
                   if p c then lazy (Some c) rest' (S pos) else None
               | [] => None
               end
           end) prev rest pos
    end
  end.

(** Text of group 1 of a match that starts at [rest]. *)
Definition captured (rest : list ascii) (go gc : nat) : string :=
  string_of_list_ascii (firstn (gc - go) (skipn go rest)).

(** The loop [while ((m = re.exec(code)) !== null) { ... m[1] ... }] of a
    regular expression with the [g] flag: the successive values of [m[1]].
    Every start position from [lastIndex] on is tried in turn; after a
    match [lastIndex] is the end of the match.  [skip] counts the code
    units still to pass before [lastIndex] is reached.  (No pattern of the
    tracker matches the empty string; an empty match is stepped over.) *)
Fixpoint execLoop (r : regex) (prev : option ascii) (rest : list ascii)
         (skip : nat) {struct rest} : list string :=
  match skip with
  | S k =>
      match rest with
      | [] => []
      | c :: rest' => execLoop r (Some c) rest' k
      end
  | O =>
      match matchHere r prev rest 0 0 0 with
      | Some (len, go, gc) =>
          captured rest go gc ::
          match rest with
          | [] => []
          | c :: rest' => execLoop r (Some c) rest' (len - 1)
          end
      | None =>
          match rest with
          | [] => []
          | c :: rest' => execLoop r (Some c) rest' 0
          end
      end
  end.

Definition execAll (r : regex) (s : string) : list string :=
  execLoop r None (list_ascii_of_string s) 0.

End Regex.

(* ================================================================== *)
(** ** utils/type-usage-tracker.ts *)
(* ================================================================== *)

Module Tracker.
Import Regex.

(** [usedIdentifiers : Set<string>], kept in insertion order. *)
Definition TypeUsageTracker := list string.

Definition empty : TypeUsageTracker := [].

Definition has (x : string) (t : TypeUsageTracker) : bool :=
  existsb (String.eqb x) t.

Definition add (x : string) (t : TypeUsageTracker) : TypeUsageTracker :=
  if has x t then t else t ++ [x].

(** [isUsed(identifier)] *)
Definition isUsed (t : TypeUsageTracker) (identifier : string) : bool :=
  has identifier t.

(** [/Q([^Q]*?)Q/g], where [Q] is the class of the three quote
    characters. *)
Definition stringLiteralRegex : regex :=
  [AChar isQuote; AOpen; ALazyStar (fun c => negb (isQuote c)); AClose;
   AChar isQuote].

(** [/\b(U W* )\b/g] with [U] = [[A-Z]] and [W] = [[a-zA-Z0-9_]] *)
Definition typeReferenceRegex : regex :=
  [AWordB; AOpen; AChar isUpper; AStar isIdentPart; AClose; AWordB].

(** The group [(I W* )] with [I] = [[A-Za-z_]] and [W] = [[A-Za-z0-9_]] *)
Definition identGroup : regex :=
  [AOpen; AChar isIdentStart; AStar isIdentPart; AClose].

(** The five "common TypeScript patterns". *)
Definition patterns : list regex :=
  [ [AChar (isChar ":"); AStar isSpace] ++ identGroup;   (* colon, \s*, group *)
    lit "extends" ++ plus isSpace ++ identGroup;         (* /extends\s+(...)/g *)
    lit "implements" ++ plus isSpace ++ identGroup;      (* /implements\s+(...)/g *)
    lit "typeof" ++ plus isSpace ++ identGroup;          (* /typeof\s+(...)/g *)
    lit "keyof" ++ plus isSpace ++ identGroup ].         (* /keyof\s+(...)/g *)

(** [/\b(I W* )\s*\(/g] *)
Definition functionCallRegex : regex :=
  [AWordB] ++ identGroup ++ [AStar isSpace; AChar (isChar "(")].

(** [/\b(I W* )\b/g] *)
Definition identifierRegex : regex :=
  [AWordB] ++ identGroup ++ [AWordB].

(** The keyword list of [scanStringContent]. *)
Definition keywords : list string :=
  ["const"; "let"; "var"; "function"; "return"; "if"; "else"; "for";
   "while"; "do"; "switch"; "case"; "break"; "continue"; "true"; "false";
   "null"; "undefined"].

Definition isKeyword (s : string) : bool := existsb (String.eqb s) keywords.

Definition isEmpty (s : string) : bool :=
  match s with EmptyString => true | _ => false end.

(** A loop whose body is [if (!m[1]) continue; this.usedIdentifiers.add(m[1])]. *)
Definition addMatches (ms : list string) (t : TypeUsageTracker)
  : TypeUsageTracker :=
  fold_left (fun t m => if isEmpty m then t else add m t) ms t.

(** The second loop of [scanStringContent]: an empty capture returns from
    the method, a keyword is skipped, anything else is added. *)
Fixpoint addIdentifiers (ms : list string) (t : TypeUsageTracker)
  : TypeUsageTracker :=
  match ms with
  | [] => t
  | keyword :: ms' =>
      if isEmpty keyword then t
      else if negb (isKeyword keyword) then addIdentifiers ms' (add keyword t)
      else addIdentifiers ms' t
  end.

(** [scanStringContent(content)] *)
Definition scanStringContent (content : string) (t : TypeUsageTracker)
  : TypeUsageTracker :=
  let t1 := addMatches (execAll functionCallRegex content) t in
  addIdentifiers (execAll identifierRegex content) t1.

(** [scanString(code)] *)
Definition scanString (code : string) (t : TypeUsageTracker)
  : TypeUsageTracker :=
  (* content of string literals *)
  let t1 :=
    fold_left
      (fun t stringContent =>
         if isEmpty stringContent then t
         else scanStringContent stringContent t)
      (execAll stringLiteralRegex code) t in
  (* capitalised identifiers *)
  let t2 := addMatches (execAll typeReferenceRegex code) t1 in
  (* common patterns *)
  fold_left (fun t pattern => addMatches (execAll pattern code) t)
            patterns t2.

End Tracker.

(* ================================================================== *)
(** ** builders/imports-builder.ts *)
(* ================================================================== *)

Module Imports.
Import Tracker.

(** [interface NamedImportDefinition { name; alias?; used }] *)
Record NamedImportDefinition : Type := mkNamed {
  name : string;
  alias : option string;
  used : bool
}.

(** [{ name: string; used: boolean }], the shape of the default and of the
    namespace import. *)
Record SingleImport : Type := mkSingle {
  sname : string;
  sused : bool
}.

Record ImportOptions : Type := mkOptions {
  includeUnused : bool;
  typeOnly : bool
}.

(** The fields of [class ImportsBuilderImpl]. *)
Record ImportsBuilderImpl : Type := mkBuilder {
  moduleSpecifier : string;
  namedImports : list NamedImportDefinition;
  defaultImport : option SingleImport;
  namespaceImport : option SingleImport;
  options : ImportOptions
}.

(** [{ includeUnused: false, typeOnly: false, ...options }] with no option
    given. *)
Definition defaultOptions : ImportOptions := mkOptions false false.

(** [new ImportsBuilderImpl(moduleSpecifier, options)] *)
Definition new (moduleSpecifier : string) (opts : ImportOptions)
  : ImportsBuilderImpl :=
  mkBuilder moduleSpecifier [] None None opts.

Definition optEqb (a b : option string) : bool :=
  match a, b with
  | Some x, Some y => String.eqb x y
  | None, None => true
  | _, _ => false
  end.

(** [named(name, alias?)] *)
Definition named (name0 : string) (alias0 : option string)
           (b : ImportsBuilderImpl) : ImportsBuilderImpl :=
  let existingImport :=
    find (fun imp => String.eqb (name imp) name0 && optEqb (alias imp) alias0)
         (namedImports b) in
  match existingImport with
  | Some _ => b
  | None =>
      mkBuilder (moduleSpecifier b)
                (namedImports b ++ [mkNamed name0 alias0 false])
                (defaultImport b) (namespaceImport b) (options b)
  end.

(** [namedMultiple(names)] *)
Definition namedMultiple (names : list string) (b : ImportsBuilderImpl)
  : ImportsBuilderImpl :=
  fold_left (fun b n => named n None b) names b.

(** [default(name)] *)
Definition default (name0 : string) (b : ImportsBuilderImpl)
  : ImportsBuilderImpl :=
  mkBuilder (moduleSpecifier b) (namedImports b)
            (Some (mkSingle name0 false)) (namespaceImport b) (options b).

(** [namespace(name)] *)
Definition namespace (name0 : string) (b : ImportsBuilderImpl)
  : ImportsBuilderImpl :=
  mkBuilder (moduleSpecifier b) (namedImports b)
            (defaultImport b) (Some (mkSingle name0 false)) (options b).

Definition setUsed (imp : NamedImportDefinition) : NamedImportDefinition :=
  mkNamed (name imp) (alias imp) true.

Definition setSingleUsed (d : SingleImport) : SingleImport :=
  mkSingle (sname d) true.

(** [importToMark = namedImports.find(imp => imp.name === name);
     if (importToMark) importToMark.used = true]
    on the array: the first entry with that name is updated in place. *)
Fixpoint markFirst (name0 : string) (l : list NamedImportDefinition)
  : list NamedImportDefinition :=
  match l with
  | [] => []
  | imp :: l' =>
      if String.eqb (name imp) name0 then setUsed imp :: l'
      else imp :: markFirst name0 l'
  end.

(** [markUsed(name)] *)
Definition markUsed (name0 : string) (b : ImportsBuilderImpl)
  : ImportsBuilderImpl :=
  mkBuilder (moduleSpecifier b) (markFirst name0 (namedImports b))
            (defaultImport b) (namespaceImport b) (options b).

(** [markDefaultUsed()] *)
Definition markDefaultUsed (b : ImportsBuilderImpl) : ImportsBuilderImpl :=
  mkBuilder (moduleSpecifier b) (namedImports b)
            (option_map setSingleUsed (defaultImport b))
            (namespaceImport b) (options b).

(** [markNamespaceUsed()] *)
Definition markNamespaceUsed (b : ImportsBuilderImpl) : ImportsBuilderImpl :=
  mkBuilder (moduleSpecifier b) (namedImports b) (defaultImport b)
            (option_map setSingleUsed (namespaceImport b)) (options b).

(** The body of the [forEach] of [markUsedFromTracker]. *)
Definition reconcileNamed (t : TypeUsageTracker)
           (namedImport : NamedImportDefinition) : NamedImportDefinition :=
  if isUsed t (name namedImport) then setUsed namedImport else namedImport.

Definition reconcileSingle (t : TypeUsageTracker) (o : option SingleImport)
  : option SingleImport :=
  match o with
  | Some d => if isUsed t (sname d) then Some (setSingleUsed d) else Some d
  | None => None
  end.

(** [markUsedFromTracker(usageTracker)] *)
Definition markUsedFromTracker (t : TypeUsageTracker)
           (b : ImportsBuilderImpl) : ImportsBuilderImpl :=
  mkBuilder (moduleSpecifier b)
            (map (reconcileNamed t) (namedImports b))
            (reconcileSingle t (defaultImport b))
            (reconcileSingle t (namespaceImport b))
            (options b).

(** *** The syntax tree of an import declaration *)

(** [ts.ImportSpecifier]: [propertyName as name], or [name] alone. *)
Record ImportSpecifier : Type := mkSpecifier {
  propertyName : option string;
  specName : string
}.

(** [ts.NamedImportBindings] *)
Inductive NamedImportBindings : Type :=
| NamespaceImport (nsName : string)
| NamedImports (elements : list ImportSpecifier).

(** [ts.ImportClause] *)
Record ImportClause : Type := mkClause {
  isTypeOnly : bool;
  clauseName : option string;
  namedBindings : option NamedImportBindings
}.

(** [ts.ImportDeclaration] *)
Record ImportDeclaration : Type := mkDecl {
  importClause : option ImportClause;
  declModule : string
}.

(** The element built for one named import in [createImportClause]. *)
Definition specifierOf (imp : NamedImportDefinition) : ImportSpecifier :=
  mkSpecifier
    (if truthyOpt (alias imp) then Some (name imp) else None)
    (if truthyOpt (alias imp)
     then match alias imp with Some a => a | None => name imp end
     else name imp).

(** [createImportClause(defaultImportName?, namespaceImportName?, namedImports)] *)
Definition createImportClause (typeOnly0 : bool)
           (defaultImportName namespaceImportName : option string)
           (nameds : list NamedImportDefinition) : option ImportClause :=
  let name0 :=
    if truthyOpt defaultImportName then defaultImportName else None in
  let namedBindings0 :=
    if truthyOpt namespaceImportName then
      match namespaceImportName with
      | Some n => Some (NamespaceImport n)
      | None => None
      end
    else if Nat.ltb 0 (List.length nameds) then
      Some (NamedImports (map specifierOf nameds))
    else None in
  match name0, namedBindings0 with
  | None, None => None
  | _, _ => Some (mkClause typeOnly0 name0 namedBindings0)
  end.

(** [filteredNamedImports] of [generate] *)
Definition filteredNamedImports (b : ImportsBuilderImpl)
  : list NamedImportDefinition :=
  if includeUnused (options b) then namedImports b
  else filter used (namedImports b).

(** [includeDefault] and [includeNamespace] of [generate], as truth values *)
Definition includeSingle (b : ImportsBuilderImpl) (o : option SingleImport)
  : bool :=
  match o with
  | Some d => includeUnused (options b) || sused d
  | None => false
  end.

Definition includeDefault (b : ImportsBuilderImpl) : bool :=
  includeSingle b (defaultImport b).

Definition includeNamespace (b : ImportsBuilderImpl) : bool :=
  includeSingle b (namespaceImport b).

(** The declaration that [generate] hands to the printer; [None] when it
    returns the empty string instead. *)
Definition generateDecl (b : ImportsBuilderImpl) : option ImportDeclaration :=
  if Nat.eqb (List.length (filteredNamedImports b)) 0
     && negb (includeDefault b) && negb (includeNamespace b)
  then None
  else
    let clause :=
      createImportClause (typeOnly (options b))
        (if includeDefault b then option_map sname (defaultImport b) else None)
        (if includeNamespace b then option_map sname (namespaceImport b)
         else None)
        (filteredNamedImports b) in
    match clause with
    | None => Some (mkDecl None (moduleSpecifier b))
    | Some c =>
        Some (mkDecl
                (Some (mkClause (typeOnly (options b)) (clauseName c)
                                (namedBindings c)))
                (moduleSpecifier b))
    end.

(** *** The printer on import declarations

    What [printer.printNode] writes for an import declaration built by the
    factory: the keyword, the clause (the [type] modifier, the default
    name, a comma when both a name and bindings follow, then the
    bindings), [from], the module specifier as a string literal, and a
    semicolon. *)
Definition printSpecifier (e : ImportSpecifier) : string :=
  match propertyName e with
  | Some p => p +++ " as " +++ specName e
  | None => specName e
  end.

Definition printBindings (nb : NamedImportBindings) : string :=
  match nb with
  | NamespaceImport n => "* as " +++ n
  | NamedImports [] => "{}"
  | NamedImports es => "{ " +++ join ", " (map printSpecifier es) +++ " }"
  end.

Definition printClause (c : ImportClause) : string :=
  (if isTypeOnly c then "type " else "") +++
  match clauseName c, namedBindings c with
  | Some n, Some nb => n +++ ", " +++ printBindings nb
  | Some n, None => n
  | None, Some nb => printBindings nb
  | None, None => ""
  end.

(** The printer on a string literal made by
    [ts.factory.createStringLiteral(text)]: the text between double quotes.
    The backslash, the double quote and the control characters are escaped
    (the null character as a hexadecimal escape when a digit follows it),
    and, the printer not being asked otherwise, every code unit above 127 is
    written as an escape of four upper-case hexadecimal digits (the code
    units are below 256 here, so that the first two digits are zeros).  The
    delete character is written as it is. *)
Definition hexDigit (n : nat) : ascii :=
  nth n (list_ascii_of_string "0123456789ABCDEF") "0"%char.

Definition encodeUtf16EscapeSequence (c : ascii) : string :=
  bs +++ "u00" +++
  String (hexDigit (Regex.code c / 16))
         (String (hexDigit (Regex.code c mod 16)) "").

Definition getReplacement (c : ascii) (lookAhead : option ascii) : string :=
  let n := Regex.code c in
  if Nat.eqb n 0 then
    match lookAhead with
    | Some d => if Regex.isDigit d then bs +++ "x00" else bs +++ "0"
    | None => bs +++ "0"
    end
  else if Nat.eqb n 9 then bs +++ "t"
  else if Nat.eqb n 11 then bs +++ "v"
  else if Nat.eqb n 12 then bs +++ "f"
  else if Nat.eqb n 8 then bs +++ "b"
  else if Nat.eqb n 13 then bs +++ "r"
  else if Nat.eqb n 10 then bs +++ "n"
  else if Nat.eqb n 92 then bs +++ bs
  else if Nat.eqb n 34 then bs +++ dq
  else encodeUtf16EscapeSequence c.

Fixpoint escapeNonAsciiString (s : string) : string :=
  match s with
  | EmptyString => ""
  | String c rest =>
      (if Nat.ltb (Regex.code c) 32 || Nat.eqb (Regex.code c) 92
          || Nat.eqb (Regex.code c) 34 || Nat.leb 128 (Regex.code c)
       then getReplacement c (match rest with
                              | String d _ => Some d
                              | EmptyString => None
                              end)
       else String c "") +++ escapeNonAsciiString rest
  end.

Definition printStringLiteral (text : string) : string :=
  dq +++ escapeNonAsciiString text +++ dq.

Definition printImport (d : ImportDeclaration) : string :=
  match importClause d with
  | Some c =>
      "import " +++ printClause c +++ " from " +++
      printStringLiteral (declModule d) +++ ";"
  | None => "import " +++ printStringLiteral (declModule d) +++ ";"
  end.

(** [generate()] *)
Definition generate (b : ImportsBuilderImpl) : string :=
  match generateDecl b with
  | None => ""
  | Some d => printImport d
  end.

End Imports.

(* ================================================================== *)
(** ** section.ts *)
(* ================================================================== *)

Module SectionM.

(** [CodeItem["type"]] *)
Inductive ItemType : Type :=
| TInterface | TType | TEnum | TObject | TImport
| TIf | TSwitch | TFor | TWhile | TDoWhile.

(** A comment attached to a node with [ts.addSyntheticLeadingComment]. *)
Inductive CommentKind : Type := SingleLineCommentTrivia | MultiLineCommentTrivia.

Record SynthesizedComment : Type := mkComment {
  kind : CommentKind;
  text : string;
  hasTrailingNewLine : bool
}.

(** A [ts.Node] held by an item, as far as the section looks at it:
    - [scanText] is what a printer with [removeComments: true] writes for it,
    - [ownText] is what a printer that keeps comments writes for the node
      itself, after its synthesized leading comments,
    - [leadingComments] are its synthesized leading comments, a mutable
      part of the node that [ts.addSyntheticLeadingComment] appends to. *)
Record Node : Type := mkNode {
  scanText : string;
  ownText : string;
  leadingComments : list SynthesizedComment
}.

(** [node: ts.Node | string] *)
Inductive NodeOrString : Type :=
| NString (s : string)
| NNode (n : Node).

(** [interface CodeItem] *)
Record CodeItem : Type := mkItem {
  type : ItemType;
  name : string;
  node : NodeOrString;
  importsBuilder : option Imports.ImportsBuilderImpl
}.

(** [description?: string | string[]] *)
Inductive Description : Type :=
| DescUndefined
| DescString (s : string)
| DescLines (lines : list string).

(** The options that [generate] reads.  A metadata value is [None] when it
    is [undefined] and otherwise its text under string interpolation. *)
Record SectionOptions : Type := mkSectionOptions {
  description : Description;
  metadata : option (list (string * option string));
  sortItems : bool;
  order : option Js.Number
}.

(** The fields of [class SectionImpl]. *)
Record SectionImpl : Type := mkSection {
  sectionName : string;
  options : SectionOptions;
  items : list CodeItem
}.

(** [addImports(moduleSpecifier, callback)]: the callback configures a new
    builder, the item keeps the builder and an empty placeholder. *)
Definition addImports (moduleSpecifier : string)
           (callback : Imports.ImportsBuilderImpl -> Imports.ImportsBuilderImpl)
           (s : SectionImpl) : SectionImpl :=
  let builder := callback (Imports.new moduleSpecifier Imports.defaultOptions) in
  mkSection (sectionName s) (options s)
            (items s ++ [mkItem TImport moduleSpecifier (NString "") (Some builder)]).

(** The other [add...] methods push an item that holds either a node or,
    for objects, the generated text. *)
Definition addItem (ty : ItemType) (name0 : string) (n : NodeOrString)
           (s : SectionImpl) : SectionImpl :=
  mkSection (sectionName s) (options s)
            (items s ++ [mkItem ty name0 n None]).

Definition isImport (it : CodeItem) : bool :=
  match type it with TImport => true | _ => false end.

(** [s.trim()]: white space and line terminators removed at both ends. *)
Fixpoint trimStart (l : list ascii) : list ascii :=
  match l with
  | c :: l' => if Regex.isSpace c then trimStart l' else l
  | [] => []
  end.

Definition trim (s : string) : string :=
  string_of_list_ascii
    (rev (trimStart (rev (trimStart (list_ascii_of_string s))))).

(** [typeof item.node === "string" && item.node.trim() !== ""] *)
Definition hasText (it : CodeItem) : bool :=
  match node it with
  | NString s => truthy (trim s)
  | NNode _ => false
  end.

(** The text scanned for a non-import item: a string node as it is, a
    syntax node as printed with comments removed. *)
Definition generatedCodeOf (it : CodeItem) : string :=
  match node it with
  | NString s => s
  | NNode n => scanText n
  end.

(** The body of [importItems.forEach] in [generate]. *)
Definition processImport (usageTracker : Tracker.TypeUsageTracker)
           (item : CodeItem) : CodeItem :=
  match importsBuilder item with
  | Some b =>
      let b' := Imports.markUsedFromTracker usageTracker b in
      let generatedCode := Imports.generate b' in
      mkItem (type item) (name item)
             (NString (if truthy (trim generatedCode) then generatedCode
                       else ""))
             (Some b')
  | None => item
  end.

Definition stringOf (it : CodeItem) : list string :=
  match node it with NString s => [s] | NNode _ => [] end.

(** The header comment written by the branch for string-only sections. *)
Definition descriptionLines (d : Description) : string :=
  match d with
  | DescLines lines =>
      fold_left (fun result line => result +++ " * " +++ line +++ nl) lines ""
  | DescString s => if truthy s then " * " +++ s +++ nl else ""
  | DescUndefined => ""
  end.

Definition descriptionTruthy (d : Description) : bool :=
  match d with
  | DescLines _ => true
  | DescString s => truthy s
  | DescUndefined => false
  end.

Definition metadataLines (d : Description)
           (m : option (list (string * option string))) : string :=
  match m with
  | Some entries =>
      (if descriptionTruthy d then " *" +++ nl else "") +++
      fold_left
        (fun result kv =>
           match snd kv with
           | Some value => result +++ " * @" +++ fst kv +++ " " +++ value +++ nl
           | None => result
           end) entries ""
  | None => ""
  end.

(** [createJSDocComment([name, ...description], metadata).comment]: the
    comment lines joined by line feeds. *)
Definition sectionCommentText (name0 : string) (d : Description) : string :=
  join nl (name0 ::
           match d with
           | DescLines lines => lines
           | DescString s => if truthy s then [s] else []
           | DescUndefined => []
           end).

Section Host.

(** The sign of [a.localeCompare(b)], a matter of the host's locale. *)
Variable localeCompare : string -> string -> comparison.

(** What the printer writes for one synthesized leading comment,
    line break included. *)
Variable printComment : SynthesizedComment -> string.

(** [printNode(node)] of ast-utils on a node: a printer that keeps
    comments writes the synthesized leading comments, then the node. *)
Definition printNode (n : Node) : string :=
  fold_right (fun c acc => printComment c +++ acc) (ownText n)
             (leadingComments n).

(** [printNodes(nodes)] *)
Definition printNodes (nodes : list Node) : string :=
  join (nl +++ nl) (map printNode nodes).

(** [[...l].sort((a, b) => a.name.localeCompare(b.name))], a stable
    sort; the items travel with their index in [this.items]. *)
Fixpoint insertByName (x : nat * CodeItem) (l : list (nat * CodeItem))
  : list (nat * CodeItem) :=
  match l with
  | [] => [x]
  | y :: l' =>
      match localeCompare (name (snd x)) (name (snd y)) with
      | Gt => y :: insertByName x l'
      | _ => x :: y :: l'
      end
  end.

Definition sortByName (l : list (nat * CodeItem)) : list (nat * CodeItem) :=
  fold_right insertByName [] l.

(** Every item with its index in [this.items]. *)
Definition indexed (l : list CodeItem) : list (nat * CodeItem) :=
  combine (seq 0 (List.length l)) l.

(** [sortedNonImportItems] *)
Definition sortedNonImportItems (s : SectionImpl) : list (nat * CodeItem) :=
  let nonImportItems :=
    filter (fun p => negb (isImport (snd p))) (indexed (items s)) in
  if sortItems (options s) then sortByName nonImportItems
  else nonImportItems.

(** The tracker after the first [forEach] of [generate]: every non-import
    item scanned, into a tracker created by this call. *)
Definition scanAll (its : list (nat * CodeItem)) : Tracker.TypeUsageTracker :=
  fold_left (fun t p => Tracker.scanString (generatedCodeOf (snd p)) t)
            its Tracker.empty.

Definition usageTracker (s : SectionImpl) : Tracker.TypeUsageTracker :=
  scanAll (sortedNonImportItems s).

(** [importItems] after the second [forEach]. *)
Definition processedImportItems (s : SectionImpl) : list CodeItem :=
  map (processImport (usageTracker s)) (filter isImport (items s)).

(** [importStrings] *)
Definition importStrings (s : SectionImpl) : list string :=
  flat_map stringOf (filter hasText (processedImportItems s)).

(** [stringNodes] and [astNodes] (with the index of the item of each) *)
Definition stringNodes (s : SectionImpl) : list string :=
  flat_map (fun p => match node (snd p) with
                     | NString _ => [generatedCodeOf (snd p)]
                     | NNode _ => []
                     end) (sortedNonImportItems s).

Definition astNodes (s : SectionImpl) : list (nat * Node) :=
  flat_map (fun p => match node (snd p) with
                     | NString _ => []
                     | NNode n => [(fst p, n)]
                     end) (sortedNonImportItems s).

Definition addSyntheticLeadingComment (n : Node) (c : SynthesizedComment)
  : Node :=
  mkNode (scanText n) (ownText n) (leadingComments n ++ [c]).

(** The comment put on the first node by the branch for syntax nodes. *)
Definition sectionComment (s : SectionImpl) : SynthesizedComment :=
  mkComment MultiLineCommentTrivia
            ("* " +++ sectionCommentText (sectionName s)
                                         (description (options s)) +++ " ")
            true.

(** The not-emitted statement that carries the end comment. *)
Definition endComment (s : SectionImpl) : Node :=
  mkNode "" ""
         [mkComment SingleLineCommentTrivia (" End " +++ sectionName s) true].

(** The text returned by [generate()]. *)
Definition generateText (s : SectionImpl) : string :=
  let importStrings0 := importStrings s in
  let stringNodes0 := stringNodes s in
  let astNodes0 := map snd (astNodes s) in
  if Nat.eqb (List.length astNodes0) 0
     && (Nat.ltb 0 (List.length stringNodes0)
         || Nat.ltb 0 (List.length importStrings0))
  then
    (* only string nodes *)
    "/**" +++ nl +++ " * " +++ sectionName s +++ nl +++
    descriptionLines (description (options s)) +++
    metadataLines (description (options s)) (metadata (options s)) +++
    " */" +++ nl +++
    (if Nat.ltb 0 (List.length importStrings0)
     then join nl importStrings0 +++
          (if Nat.ltb 0 (List.length stringNodes0) then nl +++ nl else "")
     else "") +++
    (if Nat.ltb 0 (List.length stringNodes0)
     then join (nl +++ nl) stringNodes0 else "") +++
    nl +++ "// End " +++ sectionName s
  else
    (* syntax nodes, alone or mixed *)
    let nodes := astNodes0 ++ [endComment s] in
    let nodes' :=
      match nodes with
      | first :: others =>
          addSyntheticLeadingComment first (sectionComment s) :: others
      | [] => []
      end in
    let astCode := printNodes nodes' in
    let result1 :=
      if Nat.ltb 0 (List.length importStrings0)
      then join nl importStrings0 else "" in
    let result2 :=
      if Nat.ltb 0 (List.length stringNodes0)
      then (if truthy result1 then result1 +++ nl +++ nl else result1)
           +++ join (nl +++ nl) stringNodes0
      else result1 in
    if truthy astCode
    then (if truthy result2 then result2 +++ nl +++ nl else result2)
         +++ astCode
    else result2.

(** The items after [generate()]: an import item holds its reconciled
    builder and its final text; in the branch for syntax nodes the first
    syntax node of the section holds one more leading comment. *)
Definition commentedIndex (s : SectionImpl) : option nat :=
  match astNodes s with
  | (i, _) :: _ => Some i
  | [] => None
  end.

Definition itemAfter (s : SectionImpl) (p : nat * CodeItem) : CodeItem :=
  let it := snd p in
  if isImport it then processImport (usageTracker s) it
  else
    match node it, commentedIndex s with
    | NNode n, Some i =>
        if Nat.eqb i (fst p)
        then mkItem (type it) (name it)
                    (NNode (addSyntheticLeadingComment n (sectionComment s)))
                    (importsBuilder it)
        else it
    | _, _ => it
    end.

Definition stateAfter (s : SectionImpl) : SectionImpl :=
  mkSection (sectionName s) (options s)
            (map (itemAfter s) (indexed (items s))).

(** [generate()]: the text returned and the section as the call leaves it. *)
Definition generate (s : SectionImpl) : string * SectionImpl :=
  (generateText s, stateAfter s).

End Host.

End SectionM.

(* ================================================================== *)
(** ** generator.ts *)
(* ================================================================== *)

Module GeneratorM.
Import SectionM.

(** The fields of [class GeneratorImpl]; [sectionDefaults] are merged into
    the options of a section when it is created. *)
Record GeneratorImpl : Type := mkGenerator {
  sections : list SectionImpl;
  globalMetadata : list (string * option string)
}.

(** [section(name, options, callback)], the options already merged with
    the defaults. *)
Definition section (name0 : string) (mergedOptions : SectionOptions)
           (sectionCallback : SectionImpl -> SectionImpl)
           (g : GeneratorImpl) : GeneratorImpl :=
  mkGenerator
    (sections g ++ [sectionCallback (mkSection name0 mergedOptions [])])
    (globalMetadata g).

(** [Number.MAX_SAFE_INTEGER] *)
Definition MAX_SAFE_INTEGER : Js.Number :=
  Js.Finite (inject_Z 9007199254740991).

(** [a.getOptions().order ?? Number.MAX_SAFE_INTEGER] *)
Definition orderOf (s : SectionImpl) : Js.Number :=
  match order (options s) with
  | Some o => o
  | None => MAX_SAFE_INTEGER
  end.

(** The comparator of the sort, [orderA - orderB], on two sections. *)
Definition compareOrder (a b : SectionImpl) : Js.Number :=
  Js.minus (orderOf a) (orderOf b).

(** [[...this.sections].sort((a, b) => orderA - orderB)], a stable sort:
    an element stays behind those that the comparator does not put after
    it.  When no order is [NaN] the comparator is consistent and the result
    of a stable sort is determined; with an order [NaN] the result is left
    to the engine, and is here that of an insertion from the right. *)
Fixpoint insertByOrder (x : SectionImpl) (l : list SectionImpl)
  : list SectionImpl :=
  match l with
  | [] => [x]
  | y :: l' =>
      if Js.isPositive (compareOrder x y) then y :: insertByOrder x l'
      else x :: y :: l'
  end.

Definition sortedSections (g : GeneratorImpl) : list SectionImpl :=
  fold_right insertByOrder [] (sections g).

(** The header comment: [createJSDocComment("Generated TypeScript code",
    globalMetadata).comment] between [* ] and a space, when the metadata
    has at least one key. *)
Definition headerComment (g : GeneratorImpl) : option SynthesizedComment :=
  if Nat.ltb 0 (List.length (globalMetadata g))
  then Some (mkComment MultiLineCommentTrivia
                       ("* " +++ "Generated TypeScript code" +++ " ") true)
  else None.

Section Host.
Variable localeCompare : string -> string -> comparison.
Variable printComment : SynthesizedComment -> string.

(** The last step of [generate()]: the combined code is parsed into a
    source file, the header comment (if any) is put on its first
    statement (if any), and the file is printed with comments kept. *)
Variable printFile : string -> option SynthesizedComment -> string.

(** [sectionCodes] *)
Definition sectionCodes (g : GeneratorImpl) : list string :=
  map (generateText localeCompare printComment) (sortedSections g).

(** [combinedCode] *)
Definition combinedCode (g : GeneratorImpl) : string :=
  join (nl +++ nl) (sectionCodes g).

(** [generate()]: the text returned and the generator as the call
    leaves it (every section was asked for its code once). *)
Definition generate (g : GeneratorImpl) : string * GeneratorImpl :=
  (printFile (combinedCode g) (headerComment g),
   mkGenerator (map (stateAfter localeCompare) (sections g))
               (globalMetadata g)).

End Host.

End GeneratorM.

(* ================================================================== *)
(** ** builders: block, if statement and loops *)
(* ================================================================== *)

Module Statements.

(** A call that returns a value or throws [new Error(message)]. *)
Inductive outcome (A : Type) : Type :=
| Return (a : A)
| Throw (message : string).
Arguments Return {A} a.
Arguments Throw {A} message.

(** [comments: string | string[] | undefined] *)
Inductive Comments : Type :=
| NoComments
| CommentString (s : string)
| CommentLines (lines : list string).

(** [this.comments ? createJSDocComment(this.comments) : undefined], as
    the comment text of the JSDoc node. *)
Definition createJSDoc (c : Comments) : option string :=
  match c with
  | NoComments => None
  | CommentString s => if truthy s then Some s else None
  | CommentLines lines => Some (join nl lines)
  end.

(** The statement nodes that the builders create; an expression parsed
    from a string is an identifier with that text. *)
Inductive Statement : Type :=
| Block (statements : list Statement) (jsDoc : option string)
| IfStatement (condition : string) (thenStatement : Statement)
              (elseStatement : option Statement) (jsDoc : option string)
| ForStatement (initializer condition incrementor : option string)
               (statement : Statement) (jsDoc : option string)
| WhileStatement (condition : string) (statement : Statement)
                 (jsDoc : option string)
| DoStatement (statement : Statement) (condition : string)
              (jsDoc : option string)
| ExpressionStatement (expression : string)
| ReturnStatement (expression : option string).

(** [class BlockBuilderImpl] *)
Record BlockBuilderImpl : Type := mkBlock {
  statements : list Statement;
  blockComments : Comments
}.

Definition newBlock : BlockBuilderImpl := mkBlock [] NoComments.

(** [addStatement(statement)] *)
Definition addStatement (statement : string) (b : BlockBuilderImpl)
  : BlockBuilderImpl :=
  mkBlock (statements b ++ [ExpressionStatement statement]) (blockComments b).

(** [addReturn(expression?)] *)
Definition addReturn (expression : option string) (b : BlockBuilderImpl)
  : BlockBuilderImpl :=
  mkBlock (statements b ++ [ReturnStatement expression]) (blockComments b).

(** [BlockBuilderImpl.generateNode()] *)
Definition blockNode (b : BlockBuilderImpl) : Statement :=
  Block (statements b) (createJSDoc (blockComments b)).

(** [class IfStatementBuilderImpl] *)
Record IfStatementBuilderImpl : Type := mkIf {
  conditionExpr : option string;
  thenBlock : option BlockBuilderImpl;
  elseIfClauses : list (string * BlockBuilderImpl);
  elseBlock : option BlockBuilderImpl;
  ifComments : Comments
}.

Definition newIf : IfStatementBuilderImpl := mkIf None None [] None NoComments.

Definition condition (c : string) (b : IfStatementBuilderImpl) :=
  mkIf (Some c) (thenBlock b) (elseIfClauses b) (elseBlock b) (ifComments b).

Definition then_ (callback : BlockBuilderImpl -> BlockBuilderImpl)
           (b : IfStatementBuilderImpl) :=
  mkIf (conditionExpr b) (Some (callback newBlock)) (elseIfClauses b)
       (elseBlock b) (ifComments b).

Definition elseIf (c : string) (callback : BlockBuilderImpl -> BlockBuilderImpl)
           (b : IfStatementBuilderImpl) :=
  mkIf (conditionExpr b) (thenBlock b)
       (elseIfClauses b ++ [(c, callback newBlock)]) (elseBlock b)
       (ifComments b).

Definition else_ (callback : BlockBuilderImpl -> BlockBuilderImpl)
           (b : IfStatementBuilderImpl) :=
  mkIf (conditionExpr b) (thenBlock b) (elseIfClauses b)
       (Some (callback newBlock)) (ifComments b).

(** [IfStatementBuilderImpl.generateNode()] *)
Definition ifGenerateNode (b : IfStatementBuilderImpl) : outcome Statement :=
  if negb (truthyOpt (conditionExpr b)) then
    Throw "Condition is required for if statement"
  else
    match conditionExpr b, thenBlock b with
    | _, None => Throw "Then block is required for if statement"
    | None, _ => Throw "Condition is required for if statement"
    | Some cond, Some thenB =>
        let thenStatement := blockNode thenB in
        let elseStatement :=
          match elseIfClauses b with
          | _ :: _ =>
              (* the chain is built from the last clause to the first *)
              fold_right
                (fun clause currentElse =>
                   Some (IfStatement (fst clause) (blockNode (snd clause))
                                     currentElse None))
                (option_map blockNode (elseBlock b))
                (elseIfClauses b)
          | [] => option_map blockNode (elseBlock b)
          end in
        Return (IfStatement cond thenStatement elseStatement
                            (createJSDoc (ifComments b)))
    end.

(** [abstract class LoopBuilderImpl]: the body shared by the loops. *)
Definition getBodyNode (bodyBlock : option BlockBuilderImpl)
  : outcome Statement :=
  match bodyBlock with
  | None => Throw "Body is required for loop statement"
  | Some b => Return (blockNode b)
  end.

(** [class ForLoopBuilderImpl] *)
Record ForLoopBuilderImpl : Type := mkFor {
  forBody : option BlockBuilderImpl;
  initExpr : option string;
  forConditionExpr : option string;
  incrementExpr : option string;
  forComments : Comments
}.

(** [ForLoopBuilderImpl.generateNode()] *)
Definition forGenerateNode (b : ForLoopBuilderImpl) : outcome Statement :=
  match getBodyNode (forBody b) with
  | Throw m => Throw m
  | Return bodyBlock =>
      Return (ForStatement (initExpr b) (forConditionExpr b) (incrementExpr b)
                           bodyBlock (createJSDoc (forComments b)))
  end.

(** [class WhileLoopBuilderImpl] *)
Record WhileLoopBuilderImpl : Type := mkWhile {
  whileBody : option BlockBuilderImpl;
  whileConditionExpr : option string;
  whileComments : Comments
}.

(** [WhileLoopBuilderImpl.generateNode()] *)
Definition whileGenerateNode (b : WhileLoopBuilderImpl) : outcome Statement :=
  match whileConditionExpr b with
  | Some cond =>
      if truthy cond then
        match getBodyNode (whileBody b) with
        | Throw m => Throw m
        | Return bodyBlock =>
            Return (WhileStatement cond bodyBlock
                                   (createJSDoc (whileComments b)))
        end
      else Throw "Condition is required for while statement"
  | None => Throw "Condition is required for while statement"
  end.

(** [class DoWhileLoopBuilderImpl] *)
Record DoWhileLoopBuilderImpl : Type := mkDoWhile {
  doBody : option BlockBuilderImpl;
  doConditionExpr : option string;
  doComments : Comments
}.

(** [DoWhileLoopBuilderImpl.generateNode()] *)
Definition doWhileGenerateNode (b : DoWhileLoopBuilderImpl)
  : outcome Statement :=
  match doConditionExpr b with
  | Some cond =>
      if truthy cond then
        match getBodyNode (doBody b) with
        | Throw m => Throw m
        | Return bodyBlock =>
            Return (DoStatement bodyBlock cond (createJSDoc (doComments b)))
        end
      else Throw "Condition is required for do-while statement"
  | None => Throw "Condition is required for do-while statement"
  end.

End Statements.

(* ================================================================== *)
(** ** Vocabulary of the statements and the inputs of the examples *)
(* ================================================================== *)

Module Vocabulary.
Import Imports.

(** The name in scope after the import: the alias of a named binding when
    one was declared, its source name otherwise. *)
Definition localName (imp : NamedImportDefinition) : string :=
  match alias imp with
  | Some a => a
  | None => name imp
  end.

(** The default name that reaches the import clause. *)
Definition shownDefault (b : ImportsBuilderImpl) : option string :=
  match defaultImport b with
  | Some d =>
      if (includeUnused (options b) || sused d) && truthy (sname d)
      then Some (sname d) else None
  | None => None
  end.

(** The namespace name that reaches the import clause. *)
Definition shownNamespace (b : ImportsBuilderImpl) : option string :=
  match namespaceImport b with
  | Some d =>
      if (includeUnused (options b) || sused d) && truthy (sname d)
      then Some (sname d) else None
  | None => None
  end.

(** The bindings part of the import clause: the namespace binding when
    one is shown, otherwise the group of the named bindings kept. *)
Definition shownBindings (b : ImportsBuilderImpl)
  : option NamedImportBindings :=
  match shownNamespace b with
  | Some ns => Some (NamespaceImport ns)
  | None =>
      match filteredNamedImports b with
      | [] => None
      | l => Some (NamedImports (map specifierOf l))
      end
  end.

(** No binding of the registry is marked used. *)
Definition noneUsed (b : ImportsBuilderImpl) : Prop :=
  (forall imp, In imp (namedImports b) -> used imp = false) /\
  (forall d, defaultImport b = Some d -> sused d = false) /\
  (forall d, namespaceImport b = Some d -> sused d = false).

(** The registry declares a binding that reconciliation looks up under
    the name [n] and that brings [n] into scope: a named binding without
    alias, the default binding or the namespace binding. *)
Definition declares (b : ImportsBuilderImpl) (n : string) : Prop :=
  (exists imp, In imp (namedImports b) /\ alias imp = None /\ name imp = n) \/
  (exists d, defaultImport b = Some d /\ sname d = n) \/
  (exists d, namespaceImport b = Some d /\ sname d = n).

(** [needle] occurs in [hay] as a run of consecutive code units. *)
Fixpoint occursIn (needle hay : string) : bool :=
  String.prefix needle hay ||
  match hay with
  | EmptyString => false
  | String _ hay' => occursIn needle hay'
  end.


(** *** The tracker *)

(** The pattern holds an atom that consumes a code unit. *)
Definition consuming (r : Regex.regex) : bool :=
  existsb (fun a => match a with Regex.AChar _ => true | _ => false end) r.

(** [f] adds exactly the identifiers of [l] to any tracker. *)
Definition Adds (f : Tracker.TypeUsageTracker -> Tracker.TypeUsageTracker)
           (l : list string) : Prop :=
  forall t x, Tracker.has x (f t) = Tracker.has x t || Tracker.has x l.

(** The captures that the first kind of loop adds. *)
Definition nonEmpty (ms : list string) : list string :=
  flat_map (fun m => if Tracker.isEmpty m then [] else [m]) ms.

(** The captures that the identifier loop adds: up to the first empty
    capture, those that are no keyword. *)
Fixpoint identifiersAdded (ms : list string) : list string :=
  match ms with
  | [] => []
  | m :: ms' =>
      if Tracker.isEmpty m then []
      else if Tracker.isKeyword m then identifiersAdded ms'
           else m :: identifiersAdded ms'
  end.

(** What [scanStringContent] adds. *)
Definition contentIdentifiers (content : string) : list string :=
  nonEmpty (Regex.execAll Tracker.functionCallRegex content) ++
  identifiersAdded (Regex.execAll Tracker.identifierRegex content).

(** What [scanString] adds. *)
Definition codeIdentifiers (code : string) : list string :=
  (flat_map (fun c => if Tracker.isEmpty c then [] else contentIdentifiers c)
            (Regex.execAll Tracker.stringLiteralRegex code) ++
   nonEmpty (Regex.execAll Tracker.typeReferenceRegex code)) ++
  flat_map (fun pattern => nonEmpty (Regex.execAll pattern code))
           Tracker.patterns.


(** *** The section and the generator *)

(** The non-import items, in the order in which [generate] visits them. *)
Definition visited (localeCompare : string -> string -> comparison)
           (s : SectionM.SectionImpl) : list SectionM.CodeItem :=
  map snd (SectionM.sortedNonImportItems localeCompare s).

End Vocabulary.

Module Inputs.
Import Imports.

(** [new ImportsBuilderImpl("./types").named("Type", "Alias")] *)
Definition aliased : ImportsBuilderImpl :=
  named "Type" (Some "Alias") (new "./types" defaultOptions).





(** The registry of the styled-components scenario. *)
Definition styled : ImportsBuilderImpl :=
  markUsed "css" (markDefaultUsed
    (named "keyframes" None (named "css" None
      (default "styled" (new "styled-components" defaultOptions))))).

(** Named imports that nothing refers to. *)
Definition unusedModule : ImportsBuilderImpl :=
  namedMultiple ["UnusedComponent"; "UnusedFunction"]
                (new "unused-module" defaultOptions).

(** A host: code-unit order for [localeCompare], and the comment syntax
    for a synthesized comment followed by its line break. *)
Definition ordinalCompare : string -> string -> comparison := String.compare.

Definition writeComment (c : SectionM.SynthesizedComment) : string :=
  match SectionM.kind c with
  | SectionM.MultiLineCommentTrivia =>
      "/*" +++ SectionM.text c +++ "*/" +++
      (if SectionM.hasTrailingNewLine c then nl else " ")
  | SectionM.SingleLineCommentTrivia => "//" +++ SectionM.text c +++ nl
  end.

Definition plainOptions : SectionM.SectionOptions :=
  SectionM.mkSectionOptions SectionM.DescUndefined None false None.

(** A section with the import of [unused-module] and one object. *)
Definition withUnusedImport : SectionM.SectionImpl :=
  SectionM.addItem SectionM.TObject "config"
    (SectionM.NString ("const config = {" +++ nl +++ "  retries: 3" +++ nl +++ "};"))
    (SectionM.addImports "unused-module"
       (namedMultiple ["UnusedComponent"; "UnusedFunction"])
       (SectionM.mkSection "Config" plainOptions [])).

(** The if statement [if (isReady) { }], as the printer writes it. *)
Definition ifIsReady : SectionM.Node :=
  SectionM.mkNode ("if (isReady) {" +++ nl +++ "}")
                  ("if (isReady) {" +++ nl +++ "}") [].

(** A section that imports [isReady] and then uses it in an if statement. *)
Definition usesIsReady : SectionM.SectionImpl :=
  SectionM.addItem SectionM.TIf "if" (SectionM.NNode ifIsReady)
    (SectionM.addImports "./utils" (named "isReady" None)
       (SectionM.mkSection "Startup" plainOptions [])).

(** The import of [User] declared before the interface that refers to it. *)
Definition userProfile : SectionM.Node :=
  SectionM.mkNode ("interface UserProfile {" +++ nl +++ "    user: User;" +++ nl +++ "}")
                  ("interface UserProfile {" +++ nl +++ "    user: User;" +++ nl +++ "}")
                  [].

Definition importThenUse : SectionM.SectionImpl :=
  SectionM.addItem SectionM.TInterface "UserProfile" (SectionM.NNode userProfile)
    (SectionM.addImports "./types" (named "User" None)
       (SectionM.mkSection "Profile" plainOptions [])).

Definition useThenImport : SectionM.SectionImpl :=
  SectionM.addImports "./types" (named "User" None)
    (SectionM.addItem SectionM.TInterface "UserProfile"
       (SectionM.NNode userProfile)
       (SectionM.mkSection "Profile" plainOptions [])).

(** The scenario of the hooks: three named imports from [react] and an
    object whose property value is a snippet that calls two of them. *)
Definition reactSection : SectionM.SectionImpl :=
  SectionM.addItem SectionM.TObject "MyComponent"
    (SectionM.NString
       ("const MyComponent = {" +++ nl +++ "  setup: " +++ dq +++
        "function() { const [state, setState] = useState(0); useEffect(() => {}); }"
        +++ dq +++ nl +++ "};"))
    (SectionM.addImports "react"
       (namedMultiple ["useState"; "useEffect"; "useContext"])
       (SectionM.mkSection "React Component" plainOptions [])).

(** A generator with the one section [importThenUse]. *)
Definition defaultMetadata : list (string * option string) :=
  [("generator", Some "ts-generator-builder");
   ("generatedAt", Some "2025-01-01T00:00:00.000Z")].

Definition profileGenerator : GeneratorM.GeneratorImpl :=
  GeneratorM.mkGenerator [importThenUse] defaultMetadata.

(** Two sections that each import [User]; only the second refers to it. *)
Definition sectionA : SectionM.SectionImpl :=
  SectionM.addItem SectionM.TObject "limits"
    (SectionM.NString ("const limits = {" +++ nl +++ "  max: 10" +++ nl +++ "};"))
    (SectionM.addImports "./types" (named "User" None)
       (SectionM.mkSection "A" plainOptions [])).

Definition sectionB : SectionM.SectionImpl :=
  SectionM.addItem SectionM.TInterface "UserProfile" (SectionM.NNode userProfile)
    (SectionM.addImports "./types" (named "User" None)
       (SectionM.mkSection "B" plainOptions [])).

(** The second section with nothing that refers to [User]. *)
Definition sectionB' : SectionM.SectionImpl :=
  SectionM.addImports "./types" (named "User" None)
    (SectionM.mkSection "B" plainOptions []).

(** Builders with a required piece missing. *)
Definition ifWithoutCondition : Statements.IfStatementBuilderImpl :=
  Statements.then_ (Statements.addStatement "run()") Statements.newIf.

Definition ifWithoutThen : Statements.IfStatementBuilderImpl :=
  Statements.condition "ready" Statements.newIf.

Definition forWithoutBody : Statements.ForLoopBuilderImpl :=
  Statements.mkFor None (Some "let i = 0") (Some "i < n") (Some "i++")
                   Statements.NoComments.

Definition whileWithoutBody : Statements.WhileLoopBuilderImpl :=
  Statements.mkWhile None (Some "ready") Statements.NoComments.

Definition doWhileWithoutBody : Statements.DoWhileLoopBuilderImpl :=
  Statements.mkDoWhile None (Some "ready") Statements.NoComments.

End Inputs.

(* ================================================================== *)
(** ** More of the registry: sequences of builder calls *)
(* ================================================================== *)

Module ImportsOps.
Import Imports.

(** One call on an [ImportsBuilderImpl]. *)
Inductive Call : Type :=
| CNamed (name0 : string) (alias0 : option string)
| CNamedMultiple (names : list string)
| CDefault (name0 : string)
| CNamespace (name0 : string)
| CMarkUsed (name0 : string)
| CMarkDefaultUsed
| CMarkNamespaceUsed
| CMarkUsedFromTracker (t : Tracker.TypeUsageTracker).

Definition call (c : Call) (b : ImportsBuilderImpl) : ImportsBuilderImpl :=
  match c with
  | CNamed n a => named n a b
  | CNamedMultiple ns => namedMultiple ns b
  | CDefault n => default n b
  | CNamespace n => namespace n b
  | CMarkUsed n => markUsed n b
  | CMarkDefaultUsed => markDefaultUsed b
  | CMarkNamespaceUsed => markNamespaceUsed b
  | CMarkUsedFromTracker t => markUsedFromTracker t b
  end.

(** A chain of calls, first call first. *)
Definition chain (cs : list Call) (b : ImportsBuilderImpl) : ImportsBuilderImpl :=
  fold_left (fun b c => call c b) cs b.

(** The calls that mark and reconcile, as opposed to those that declare. *)
Definition marks (c : Call) : bool :=
  match c with
  | CMarkUsed _ | CMarkDefaultUsed | CMarkNamespaceUsed
  | CMarkUsedFromTracker _ => true
  | _ => false
  end.

(** What identifies a named binding: its source name and its alias. *)
Definition keyOf (imp : NamedImportDefinition) : string * option string :=
  (name imp, alias imp).

(** The same binding, the used flag at least as set. *)
Definition keptNamed (i i' : NamedImportDefinition) : Prop :=
  keyOf i = keyOf i' /\ (used i = true -> used i' = true).

Definition keptSingle (o o' : option SingleImport) : Prop :=
  match o, o' with
  | Some d, Some d' => sname d = sname d' /\ (sused d = true -> sused d' = true)
  | None, None => True
  | _, _ => False
  end.

End ImportsOps.

(* ================================================================== *)
(** ** More of the tracker: scanning a syntax tree *)
(* ================================================================== *)

Module TsAst.
Import Tracker.

(** The syntax nodes as [scanNode] tells them apart.  The children are those
    that [ts.forEachChild] visits, in its order; the right side of a
    qualified name is an identifier, kept as its text; any other kind of
    node is [Other] with its children. *)
Inductive TsNode : Type :=
| Identifier (text : string)
| QualifiedName (left : TsNode) (right : string)
| TypeReference (typeName : TsNode) (typeArguments : list TsNode)
| PropertyAccessExpression (expression : TsNode) (name : TsNode)
| CallExpression (expression : TsNode) (typeArguments : list TsNode)
                 (arguments : list TsNode)
| Other (children : list TsNode).

(** [scanQualifiedName(qualifiedName)] *)
Fixpoint scanQualifiedName (left : TsNode) (right : string)
         (t : TypeUsageTracker) : TypeUsageTracker :=
  let t1 :=
    match left with
    | Identifier text => add text t
    | QualifiedName l r => scanQualifiedName l r t
    | _ => t
    end in
  add right t1.

(** [if (ts.isIdentifier(e)) this.usedIdentifiers.add(e.text)] *)
Definition addIfIdentifier (e : TsNode) (t : TypeUsageTracker)
  : TypeUsageTracker :=
  match e with
  | Identifier text => add text t
  | _ => t
  end.

(** The [switch] of [visit]. *)
Definition visitSwitch (node : TsNode) (t : TypeUsageTracker)
  : TypeUsageTracker :=
  match node with
  | Identifier text => add text t
  | TypeReference typeName _ =>
      match typeName with
      | Identifier text => add text t
      | QualifiedName l r => scanQualifiedName l r t
      | _ => t
      end
  | QualifiedName l r => scanQualifiedName l r t
  | PropertyAccessExpression expression _ => addIfIdentifier expression t
  | CallExpression expression _ _ => addIfIdentifier expression t
  | Other _ => t
  end.

(** [visit(node)]: the switch, then [ts.forEachChild(node, visit)]. *)
Fixpoint visit (node : TsNode) (t : TypeUsageTracker) {struct node}
  : TypeUsageTracker :=
  let visitAll :=
    fix visitAll (l : list TsNode) (t : TypeUsageTracker) {struct l}
      : TypeUsageTracker :=
      match l with
      | [] => t
      | c :: l' => visitAll l' (visit c t)
      end in
  let t1 := visitSwitch node t in
  match node with
  | Identifier _ => t1
  | QualifiedName l r => add r (visit l t1)
  | TypeReference typeName typeArguments =>
      visitAll typeArguments (visit typeName t1)
  | PropertyAccessExpression expression name0 =>
      visit name0 (visit expression t1)
  | CallExpression expression typeArguments arguments =>
      visitAll arguments (visitAll typeArguments (visit expression t1))
  | Other children => visitAll children t1
  end.

(** [scanNode(node)] *)
Definition scanNode (node : TsNode) (t : TypeUsageTracker) : TypeUsageTracker :=
  visit node t.

(** The texts of all the identifiers of a tree. *)
Fixpoint identifiers (node : TsNode) : list string :=
  let all :=
    fix all (l : list TsNode) : list string :=
      match l with
      | [] => []
      | c :: l' => identifiers c ++ all l'
      end in
  match node with
  | Identifier text => [text]
  | QualifiedName l r => identifiers l ++ [r]
  | TypeReference typeName typeArguments =>
      identifiers typeName ++ all typeArguments
  | PropertyAccessExpression expression name0 =>
      identifiers expression ++ identifiers name0
  | CallExpression expression typeArguments arguments =>
      identifiers expression ++ all typeArguments ++ all arguments
  | Other children => all children
  end.

(** [ts.forEachChild] over a list of children. *)
Definition visitAll : list TsNode -> TypeUsageTracker -> TypeUsageTracker :=
  fix visitAll (l : list TsNode) (t : TypeUsageTracker) {struct l}
    : TypeUsageTracker :=
    match l with
    | [] => t
    | c :: l' => visitAll l' (visit c t)
    end.

Definition identifiersAll : list TsNode -> list string :=
  fix all (l : list TsNode) : list string :=
    match l with
    | [] => []
    | c :: l' => identifiers c ++ all l'
    end.

(** What the switch of [visit] adds on its own account. *)
Fixpoint qualifiedAdds (left : TsNode) (right : string) : list string :=
  match left with
  | Identifier text => [text]
  | QualifiedName l r => qualifiedAdds l r
  | _ => []
  end ++ [right].

Definition switchAdds (node : TsNode) : list string :=
  match node with
  | Identifier text => [text]
  | TypeReference typeName _ =>
      match typeName with
      | Identifier text => [text]
      | QualifiedName l r => qualifiedAdds l r
      | _ => []
      end
  | QualifiedName l r => qualifiedAdds l r
  | PropertyAccessExpression (Identifier text) _ => [text]
  | CallExpression (Identifier text) _ _ => [text]
  | _ => []
  end.

(** The type reference [Foo.Bar<Baz>]. *)
Definition fooBar : TsNode :=
  TypeReference (QualifiedName (Identifier "Foo") "Bar")
                [TypeReference (Identifier "Baz") []].

End TsAst.

(* ================================================================== *)
(** ** builders: switch statement *)
(* ================================================================== *)

Module SwitchM.
Import Statements.

(** The clauses of a case block. *)
Inductive CaseOrDefaultClause : Type :=
| CaseClause (expression : string) (statements : list Statement)
| DefaultClause (statements : list Statement).

(** The switch statement node. *)
Record SwitchStatement : Type := mkSwitchStatement {
  expression : string;
  caseBlock : list CaseOrDefaultClause;
  jsDoc : option string
}.

(** [class SwitchStatementBuilderImpl] *)
Record SwitchStatementBuilderImpl : Type := mkSwitch {
  expressionExpr : option string;
  caseClauses : list (string * BlockBuilderImpl);
  defaultClauseBlock : option BlockBuilderImpl;
  switchComments : Comments
}.

Definition newSwitch : SwitchStatementBuilderImpl :=
  mkSwitch None [] None NoComments.

(** [expression(expression)] *)
Definition setExpression (e : string) (b : SwitchStatementBuilderImpl) :=
  mkSwitch (Some e) (caseClauses b) (defaultClauseBlock b) (switchComments b).

(** [case(value, callback)] *)
Definition case (value : string)
           (callback : BlockBuilderImpl -> BlockBuilderImpl)
           (b : SwitchStatementBuilderImpl) :=
  mkSwitch (expressionExpr b) (caseClauses b ++ [(value, callback newBlock)])
           (defaultClauseBlock b) (switchComments b).

(** [default(callback)] *)
Definition default (callback : BlockBuilderImpl -> BlockBuilderImpl)
           (b : SwitchStatementBuilderImpl) :=
  mkSwitch (expressionExpr b) (caseClauses b) (Some (callback newBlock))
           (switchComments b).

(** [jsdoc(comment)] of [StatementBuilderImpl] *)
Definition jsdoc (comment : Comments) (b : SwitchStatementBuilderImpl) :=
  mkSwitch (expressionExpr b) (caseClauses b) (defaultClauseBlock b) comment.

(** [getStatementsFromBlock(block)]: [block.generateNode().statements] *)
Definition getStatementsFromBlock (block : BlockBuilderImpl)
  : list Statement :=
  match blockNode block with
  | Block sts _ => sts
  | _ => []
  end.

(** [SwitchStatementBuilderImpl.generateNode()] *)
Definition generateNode (b : SwitchStatementBuilderImpl)
  : outcome SwitchStatement :=
  match expressionExpr b with
  | Some e =>
      if truthy e then
        let clauses :=
          map (fun cl => CaseClause (fst cl) (getStatementsFromBlock (snd cl)))
              (caseClauses b) in
        let clauses' :=
          match defaultClauseBlock b with
          | Some d => clauses ++ [DefaultClause (getStatementsFromBlock d)]
          | None => clauses
          end in
        Return (mkSwitchStatement e clauses' (createJSDoc (switchComments b)))
      else Throw "Expression is required for switch statement"
  | None => Throw "Expression is required for switch statement"
  end.

(** One call on the builder, and a chain of calls, first call first. *)
Inductive Call : Type :=
| CExpression (e : string)
| CCase (value : string) (callback : BlockBuilderImpl -> BlockBuilderImpl)
| CDefault (callback : BlockBuilderImpl -> BlockBuilderImpl)
| CJsdoc (comment : Comments).

Definition call (c : Call) (b : SwitchStatementBuilderImpl)
  : SwitchStatementBuilderImpl :=
  match c with
  | CExpression e => setExpression e b
  | CCase v cb => case v cb b
  | CDefault cb => default cb b
  | CJsdoc c => jsdoc c b
  end.

Definition chain (cs : list Call) (b : SwitchStatementBuilderImpl)
  : SwitchStatementBuilderImpl :=
  fold_left (fun b c => call c b) cs b.

End SwitchM.

(* ================================================================== *)
(** ** The tracker objects of a run *)
(* ================================================================== *)

Module Heap.
Import Tracker SectionM GeneratorM.

(** The [TypeUsageTracker] objects created so far, each with its set of
    used identifiers, in the order of their creation; the address of an
    object is its rank. *)
Definition Heap : Type := list TypeUsageTracker.

(** [new TypeUsageTracker()]: the address of the new object and the heap
    that holds it, with an empty set. *)
Definition newTracker (h : Heap) : nat * Heap :=
  (List.length h, h ++ [empty]).

(** The set of the object at the address [a]. *)
Definition setOf (a : nat) (h : Heap) : TypeUsageTracker := nth a h empty.

(** A method that updates the set of the object at the address [a]. *)
Fixpoint update (a : nat) (f : TypeUsageTracker -> TypeUsageTracker)
         (h : Heap) : Heap :=
  match h with
  | [] => []
  | t :: h' =>
      match a with
      | 0 => f t :: h'
      | S a' => t :: update a' f h'
      end
  end.

Section Host.
Variable localeCompare : string -> string -> comparison.

(** [SectionImpl.generate()] as far as its import items: the tracker is
    created, every non-import item is scanned into it, then every import
    item is reconciled against it and rendered.  The result is the import
    items as that leaves them, and the heap. *)
Definition generateImports (s : SectionImpl) (h : Heap)
  : list CodeItem * Heap :=
  let (usageTracker, h1) := newTracker h in
  let h2 :=
    fold_left
      (fun h p => update usageTracker (scanString (generatedCodeOf (snd p))) h)
      (sortedNonImportItems localeCompare s) h1 in
  (map (processImport (setOf usageTracker h2)) (filter isImport (items s)),
   h2).

(** [sortedSections.map(section => section.generate())], as far as the
    import items: one section after the other, on the same heap. *)
Fixpoint generateAll (ss : list SectionImpl) (h : Heap)
  : list (list CodeItem) * Heap :=
  match ss with
  | [] => ([], h)
  | s :: ss' =>
      let (r, h1) := generateImports s h in
      let (rs, h2) := generateAll ss' h1 in
      (r :: rs, h2)
  end.

(** The top-level [generate()], as far as the import items of its
    sections, in the order of the output. *)
Definition generate (g : GeneratorImpl) (h : Heap)
  : list (list CodeItem) * Heap :=
  generateAll (sortedSections g) h.

End Host.

End Heap.

(* ================================================================== *)
(** ** More vocabulary and inputs *)
(* ================================================================== *)

Module MoreVocabulary.

(** The pattern holds an atom that only a code unit of the class [p]
    satisfies. *)
Definition needs (p : ascii -> bool) (r : Regex.regex) : Prop :=
  Exists (fun a => match a with
                   | Regex.AChar q => forall c, q c = true -> p c = true
                   | _ => False
                   end) r.

(** No code unit of the text is of the class [p]. *)
Definition without (p : ascii -> bool) (code : string) : Prop :=
  existsb p (list_ascii_of_string code) = false.


(** Some word of the text starts with a capital letter: a capital letter
    stands at the beginning of the text or after a code unit that is no
    letter, digit or underscore. *)
Fixpoint capitalisedWord (prev : option ascii) (rest : list ascii) : bool :=
  match rest with
  | [] => false
  | c :: rest' =>
      (negb (Regex.isWordAt prev) && Regex.isUpper c)
      || capitalisedWord (Some c) rest'
  end.


(** The line is an import statement as the printer writes one. *)
Definition isImportLine (line : string) : Prop :=
  exists rest, line = "import " +++ rest.

(** The type and the name of an item. *)
Definition label (it : SectionM.CodeItem) : SectionM.ItemType * string :=
  (SectionM.type it, SectionM.name it).

(** A section with two objects, added in the order [zeta], [alpha], to be
    sorted by name. *)
Definition sortedOptions : SectionM.SectionOptions :=
  SectionM.mkSectionOptions SectionM.DescUndefined None true None.

Definition twoObjects : SectionM.SectionImpl :=
  SectionM.addItem SectionM.TObject "alpha" (SectionM.NString "const alpha = {};")
    (SectionM.addItem SectionM.TObject "zeta" (SectionM.NString "const zeta = {};")
       (SectionM.mkSection "Objects" sortedOptions [])).

(** A section whose only item is an import that nothing uses. *)
Definition onlyUnusedImport : SectionM.SectionImpl :=
  SectionM.addImports "unused-module"
    (Imports.namedMultiple ["UnusedComponent"])
    (SectionM.mkSection "Empty" Inputs.plainOptions []).


(** The branches of an if statement read back from the node: the
    conditions with their statements, from the outer statement inwards along
    the else positions, and the statement in the last else position. *)
Fixpoint unchain (n : Statements.Statement)
  : list (string * Statements.Statement) * option Statements.Statement :=
  match n with
  | Statements.IfStatement c t e _ =>
      let rest := match e with
                  | Some e' => unchain e'
                  | None => ([], None)
                  end in
      ((c, t) :: fst rest, snd rest)
  | other => ([], Some other)
  end.

(** A clause of the builder as a branch of the node. *)
Definition branchOf (clause : string * Statements.BlockBuilderImpl)
  : string * Statements.Statement :=
  (fst clause, Statements.blockNode (snd clause)).

(** [if (a) { f(); } else if (b) { g(); } else if (c) { h(); } else
    { return; }], declared in this order. *)
Definition threeWay : Statements.IfStatementBuilderImpl :=
  Statements.else_ (Statements.addReturn None)
    (Statements.elseIf "c" (Statements.addStatement "h()")
       (Statements.elseIf "b" (Statements.addStatement "g()")
          (Statements.then_ (Statements.addStatement "f()")
             (Statements.condition "a" Statements.newIf)))).

(** A section without items, with the order [o]. *)
Definition ordered (name0 : string) (o : option Js.Number)
  : SectionM.SectionImpl :=
  SectionM.mkSection name0
    (SectionM.mkSectionOptions SectionM.DescUndefined None false o) [].

(** The comparator of the sort puts the order [x] after the order [y]. *)
Definition after (x y : Js.Number) : bool := Js.isPositive (Js.minus x y).

(** The comparator puts the order of the section neither after nor before
    the order [k]. *)
Definition tied (k : Js.Number) (s : SectionM.SectionImpl) : bool :=
  negb (after (GeneratorM.orderOf s) k) && negb (after k (GeneratorM.orderOf s)).

(** Six sections: two without order, and the orders 2, one half, plus
    infinity and 2 again. *)
Definition sixSections : GeneratorM.GeneratorImpl :=
  GeneratorM.mkGenerator
    [ordered "first" None;
     ordered "second" (Some (Js.Finite (inject_Z 2)));
     ordered "third" None;
     ordered "fourth" (Some (Js.Finite (1 # 2)));
     ordered "fifth" (Some (Js.Infinity false));
     ordered "sixth" (Some (Js.Finite (inject_Z 2)))]
    [].


(** The same section with other metadata and another order. *)
Definition withMetadata (m : option (list (string * option string)))
           (o : option Js.Number) (s : SectionM.SectionImpl)
  : SectionM.SectionImpl :=
  SectionM.mkSection (SectionM.sectionName s)
    (SectionM.mkSectionOptions (SectionM.description (SectionM.options s)) m
                               (SectionM.sortItems (SectionM.options s)) o)
    (SectionM.items s).

(** The case clauses that a chain of calls declares, in the order of the
    calls, each with the statements that its callback adds. *)
Definition casesDeclared (cs : list SwitchM.Call)
  : list SwitchM.CaseOrDefaultClause :=
  flat_map (fun c => match c with
                     | SwitchM.CCase v cb =>
                         [SwitchM.CaseClause
                            v (Statements.statements (cb Statements.newBlock))]
                     | _ => []
                     end) cs.

(** The default clauses that a chain of calls declares. *)
Definition defaultsDeclared (cs : list SwitchM.Call)
  : list SwitchM.CaseOrDefaultClause :=
  flat_map (fun c => match c with
                     | SwitchM.CDefault cb =>
                         [SwitchM.DefaultClause
                            (Statements.statements (cb Statements.newBlock))]
                     | _ => []
                     end) cs.

(** The last element of a list, as a list of at most one element. *)
Definition lastOf {A : Type} (l : list A) : list A :=
  match rev l with
  | [] => []
  | x :: _ => [x]
  end.

(** A switch whose default clause is declared first and then again. *)
Definition defaultFirst : list SwitchM.Call :=
  [SwitchM.CDefault (Statements.addStatement "none()");
   SwitchM.CCase "1" (Statements.addStatement "one()");
   SwitchM.CExpression "n";
   SwitchM.CDefault (Statements.addReturn None);
   SwitchM.CCase "2" (Statements.addStatement "two()")].


(** The clauses that [generateNode] makes of the fields of the builder. *)
Definition clauseOf (cl : string * Statements.BlockBuilderImpl)
  : SwitchM.CaseOrDefaultClause :=
  SwitchM.CaseClause (fst cl) (SwitchM.getStatementsFromBlock (snd cl)).

Definition defaultOf (b : SwitchM.SwitchStatementBuilderImpl)
  : list SwitchM.CaseOrDefaultClause :=
  match SwitchM.defaultClauseBlock b with
  | Some d => [SwitchM.DefaultClause (SwitchM.getStatementsFromBlock d)]
  | None => []
  end.


(** Two if statements between two for loops, to be sorted by name. *)
Definition statementNode (text : string) : SectionM.NodeOrString :=
  SectionM.NNode (SectionM.mkNode text text []).

Definition fourStatements : SectionM.SectionImpl :=
  SectionM.addItem SectionM.TFor "for" (statementNode "for (;;) { d; }")
    (SectionM.addItem SectionM.TIf "if" (statementNode "if (c) { c; }")
       (SectionM.addItem SectionM.TIf "if" (statementNode "if (b) { b; }")
          (SectionM.addItem SectionM.TFor "for" (statementNode "for (;;) { a; }")
             (SectionM.mkSection "Flow" sortedOptions [])))).







(** A registry that keeps everything and whose default binding has the
    empty name. *)
Definition emptyDefault : Imports.ImportsBuilderImpl :=
  Imports.default "" (Imports.new "m" (Imports.mkOptions true false)).

(** A module specifier with a double quote and a backslash in it. *)
Definition quotedModule : Imports.ImportsBuilderImpl :=
  Imports.markUsed "x"
    (Imports.named "x" None
       (Imports.new ("a" +++ dq +++ "b" +++ bs +++ "c") Imports.defaultOptions)).


(** The import declaration brings the name [n] into scope: its clause holds
    [n] as the default name, as the namespace name, or as a named binding
    without alias. *)
Definition bringsIn (d : Imports.ImportDeclaration) (n : string) : Prop :=
  exists c,
    Imports.importClause d = Some c /\
    (Imports.clauseName c = Some n \/
     Imports.namedBindings c = Some (Imports.NamespaceImport n) \/
     exists es, Imports.namedBindings c = Some (Imports.NamedImports es) /\
                In (Imports.mkSpecifier None n) es).

(** The name [n] is that of the default or of the namespace binding. *)
Definition declaresSingle (b : Imports.ImportsBuilderImpl) (n : string)
  : Prop :=
  (exists d, Imports.defaultImport b = Some d /\ Imports.sname d = n) \/
  (exists d, Imports.namespaceImport b = Some d /\ Imports.sname d = n).

(** A section whose import declares the namespace [NS] and the named
    binding [User], both referred to by the constant that follows. *)
Definition namespaceAndUser : SectionM.SectionImpl :=
  SectionM.addItem SectionM.TObject "u"
    (SectionM.NString "const u: User = NS.make();")
    (SectionM.addImports "m"
       (fun b => Imports.named "User" None (Imports.namespace "NS" b))
       (SectionM.mkSection "Users" Inputs.plainOptions [])).

End MoreVocabulary.

(* ================================================================== *)
(** ** Strings *)
(* ================================================================== *)

Module StringFacts.


Lemma append_nil_r (a : string) : a +++ "" = a.
Proof. induction a as [|x a IH]; cbn; [reflexivity | now rewrite IH]. Qed.

Lemma length_append (a b : string) :
  String.length (a +++ b) = String.length a + String.length b.
Proof. induction a as [|x a IH]; cbn; [reflexivity | now rewrite IH]. Qed.

Lemma join_length_le (sep : string) (l1 l2 : list string) :
  Forall2 (fun a b => String.length a <= String.length b) l1 l2 ->
  String.length (join sep l1) <= String.length (join sep l2).
Proof.
  intros H. induction H as [|a b l1 l2 Hab H IH]; [reflexivity|].
  destruct H as [|a' b' l1 l2 Hab' H]; [exact Hab|].
  change (String.length (a +++ sep +++ join sep (a' :: l1)) <=
          String.length (b +++ sep +++ join sep (b' :: l2))).
  rewrite !length_append. lia.
Qed.

Lemma join_length_head (sep a : string) (l : list string) :
  String.length a <= String.length (join sep (a :: l)).
Proof.
  destruct l as [|b l]; [reflexivity|].
  change (String.length a <= String.length (a +++ sep +++ join sep (b :: l))).
  rewrite length_append. lia.
Qed.

Lemma join_length_lt (sep a b : string) (l1 l2 : list string) :
  String.length a < String.length b ->
  Forall2 (fun a b => String.length a <= String.length b) l1 l2 ->
  String.length (join sep (a :: l1)) < String.length (join sep (b :: l2)).
Proof.
  intros Hab H. pose proof (join_length_le sep _ _ H) as Hle.
  destruct H as [|a' b' l1 l2 Hab' H]; [exact Hab|].
  change (String.length (a +++ sep +++ join sep (a' :: l1)) <
          String.length (b +++ sep +++ join sep (b' :: l2))).
  rewrite !length_append. lia.
Qed.

Lemma join_length_strict (sep : string) (l1 l2 : list string) :
  Forall2 (fun a b => String.length a <= String.length b) l1 l2 ->
  Exists (fun p => String.length (fst p) < String.length (snd p))
         (combine l1 l2) ->
  String.length (join sep l1) < String.length (join sep l2).
Proof.
  intros H. induction H as [|a b l1 l2 Hab H IH]; intros Hex.
  - inversion Hex.
  - cbn [combine] in Hex. inversion Hex as [p t Hlt|p t Hlt]; subst.
    + now apply join_length_lt.
    + specialize (IH Hlt).
      destruct H as [|a' b' l1 l2 Hab' H]; [inversion Hlt|].
      change (String.length (a +++ sep +++ join sep (a' :: l1)) <
              String.length (b +++ sep +++ join sep (b' :: l2))).
      rewrite !length_append. lia.
Qed.

Lemma truthy_length (a : string) :
  truthy a = true <-> 0 < String.length a.
Proof. destruct a; cbn; split; intros; try discriminate; lia. Qed.

End StringFacts.

(* ================================================================== *)
(** ** Properties of the import registry *)
(* ================================================================== *)

Module ImportsFacts.
Import Tracker Imports Vocabulary.

(** *** Reconciliation *)

Lemma reconcileNamed_used (t : TypeUsageTracker) (imp : NamedImportDefinition) :
  used (reconcileNamed t imp) = used imp || isUsed t (name imp).
Proof.
  unfold reconcileNamed.
  destruct (isUsed t (name imp)); cbn; [now rewrite orb_true_r | now rewrite orb_false_r].
Qed.

Lemma reconcileNamed_name (t : TypeUsageTracker) (imp : NamedImportDefinition) :
  name (reconcileNamed t imp) = name imp /\ alias (reconcileNamed t imp) = alias imp.
Proof. unfold reconcileNamed. destruct (isUsed t (name imp)); auto. Qed.

Lemma reconcileSingle_used (t : TypeUsageTracker) (d : SingleImport) :
  exists d', reconcileSingle t (Some d) = Some d' /\
             sname d' = sname d /\
             sused d' = sused d || isUsed t (sname d).
Proof.
  cbn. destruct (isUsed t (sname d)).
  - eexists; repeat split. cbn. now rewrite orb_true_r.
  - exists d; repeat split. now rewrite orb_false_r.
Qed.

(** *** Explicit marks *)

Lemma markFirst_absent (name0 : string) (l : list NamedImportDefinition) :
  (forall imp, In imp l -> name imp <> name0) -> markFirst name0 l = l.
Proof.
  induction l as [|imp l IH]; cbn; intros H; [reflexivity|].
  destruct (String.eqb_spec (name imp) name0) as [E|_].
  - exfalso. apply (H imp); auto.
  - f_equal. apply IH. intros i Hi. apply H. now right.
Qed.

Lemma builder_eta (b : ImportsBuilderImpl) :
  mkBuilder (moduleSpecifier b) (namedImports b) (defaultImport b)
            (namespaceImport b) (options b) = b.
Proof. now destruct b. Qed.

(** C10.  [markUsed(name)] leaves the registry as it is when no named
    binding has the source name [name], also when [name] is the alias of
    one; [markDefaultUsed()] and [markNamespaceUsed()] leave it as it is
    when no default, respectively no namespace, binding was declared.  No
    call raises an error: each returns the registry. *)
Theorem markUsed_unknown_is_noop (b : ImportsBuilderImpl) (name0 : string) :
  ((forall imp, In imp (namedImports b) -> name imp <> name0) ->
   markUsed name0 b = b) /\
  (defaultImport b = None -> markDefaultUsed b = b) /\
  (namespaceImport b = None -> markNamespaceUsed b = b).
Proof.
  split; [|split].
  - intros H. unfold markUsed. rewrite (markFirst_absent _ _ H).
    apply builder_eta.
  - intros H. unfold markDefaultUsed. rewrite H. cbn.
    rewrite <- H. apply builder_eta.
  - intros H. unfold markNamespaceUsed. rewrite H. cbn.
    rewrite <- H. apply builder_eta.
Qed.

(** The name given to [markUsed] is the alias of the only binding. *)
Lemma markUsed_unknown_is_noop_witness :
  markUsed "Alias" Inputs.aliased = Inputs.aliased /\
  markDefaultUsed Inputs.aliased = Inputs.aliased /\
  markNamespaceUsed Inputs.aliased = Inputs.aliased.
Proof.
  destruct (markUsed_unknown_is_noop Inputs.aliased "Alias") as (H1 & H2 & H3).
  split; [|split].
  - apply H1. intros imp [<-|[]]. cbn. discriminate.
  - apply H2. reflexivity.
  - apply H3. reflexivity.
Defined.

(** *** Rendering *)

(** The declaration handed to the printer, case by case. *)
Lemma generateDecl_spec (b : ImportsBuilderImpl) :
  generateDecl b =
    if Nat.eqb (List.length (filteredNamedImports b)) 0
       && negb (includeDefault b) && negb (includeNamespace b)
    then None
    else Some (mkDecl
                 match shownDefault b, shownBindings b with
                 | None, None => None
                 | n, nb => Some (mkClause (typeOnly (options b)) n nb)
                 end
                 (moduleSpecifier b)).
Proof.
  unfold generateDecl, createImportClause, shownBindings, shownDefault,
    shownNamespace, includeDefault, includeNamespace, includeSingle.
  destruct (filteredNamedImports b) as [|i l] eqn:Ef;
    destruct (defaultImport b) as [[dn du]|];
    destruct (namespaceImport b) as [[nn nu]|];
    destruct (includeUnused (options b)); cbn;
    try destruct du; try destruct nu; cbn; try reflexivity;
    try (destruct dn; cbn); try (destruct nn; cbn); reflexivity.
Qed.

Lemma filter_used_nil (l : list NamedImportDefinition) :
  (forall imp, In imp l -> used imp = false) -> filter used l = [].
Proof.
  induction l as [|imp l IH]; cbn; intros H; [reflexivity|].
  rewrite (H imp (or_introl eq_refl)). apply IH. intros i Hi. apply H. now right.
Qed.

(** A registry with no binding marked used and [includeUnused] false
    renders to the empty string. *)
Lemma generate_noneUsed (b : ImportsBuilderImpl) :
  includeUnused (options b) = false -> noneUsed b -> generate b = "".
Proof.
  intros Hi (Hn & Hd & Hs).
  unfold generate, generateDecl, filteredNamedImports, includeDefault,
    includeNamespace, includeSingle.
  rewrite Hi, (filter_used_nil _ Hn). cbn.
  destruct (defaultImport b) as [d|] eqn:Ed;
    [rewrite (Hd d eq_refl)|]; cbn;
    (destruct (namespaceImport b) as [n|] eqn:En;
     [rewrite (Hs n eq_refl)|]); reflexivity.
Qed.

(** What is printed starts with the keyword, so it is not blank. *)
Lemma generate_some_not_blank (b : ImportsBuilderImpl) (d : ImportDeclaration) :
  generateDecl b = Some d ->
  exists rest, generate b = "import " +++ rest.
Proof.
  intros H. unfold generate. rewrite H. unfold printImport.
  destruct (importClause d); eexists; reflexivity.
Qed.

(** The named group follows the order of the registry's array, to which
    [named] appends. *)
Lemma named_appends (name0 : string) (alias0 : option string)
      (b : ImportsBuilderImpl) :
  namedImports (named name0 alias0 b) = namedImports b \/
  namedImports (named name0 alias0 b) =
    namedImports b ++ [mkNamed name0 alias0 false].
Proof.
  unfold named. destruct (find _ _); [left|right]; reflexivity.
Qed.


(** C2, at the registry of [named("Type", "Alias")], whose local name is
    [Alias]: reconciliation looks the binding up under its source name.  A
    tracker that reports the local name [Alias] leaves the binding unused
    and the import is not rendered; a tracker that reports only the source
    name [Type] marks it used. *)
Theorem reconcile_looks_up_source_name :
  map localName (namedImports Inputs.aliased) = ["Alias"] /\
  isUsed (scanString "let v: Alias;" empty) "Alias" = true /\
  map used (namedImports
              (markUsedFromTracker (scanString "let v: Alias;" empty)
                                   Inputs.aliased)) = [false] /\
  generate (markUsedFromTracker (scanString "let v: Alias;" empty)
                                Inputs.aliased) = "" /\
  isUsed (scanString "let v: Type;" empty) "Alias" = false /\
  map used (namedImports
              (markUsedFromTracker (scanString "let v: Type;" empty)
                                   Inputs.aliased)) = [true].
Proof. repeat split; vm_compute; reflexivity. Qed.


(** *** Explicit marks and [includeUnused] *)



Lemma specifierOf_reconcile (t : TypeUsageTracker) (imp : NamedImportDefinition) :
  specifierOf (reconcileNamed t imp) = specifierOf imp.
Proof. unfold reconcileNamed. now destruct (isUsed _ _). Qed.

Lemma in_filtered (b : ImportsBuilderImpl) (imp : NamedImportDefinition) :
  In imp (namedImports b) -> used imp = true ->
  In imp (filteredNamedImports b).
Proof.
  intros Hin Hu. unfold filteredNamedImports.
  destruct (includeUnused (options b)); [assumption|].
  apply filter_In. now split.
Qed.





End ImportsFacts.

(* ================================================================== *)
(** ** Properties of the usage tracker *)
(* ================================================================== *)

Module TrackerFacts.
Import Regex Tracker Vocabulary.

(** *** Matches are never empty *)

Ltac inner_match H E :=
  match type of H with
  | match ?X with _ => _ end = _ => destruct X eqn:E
  end.

Lemma matchHere_le (r : regex) :
  forall prev rest pos go gc len a b,
    matchHere r prev rest pos go gc = Some (len, a, b) -> pos <= len.
Proof.
  induction r as [|x r IH]; intros prev rest pos go gc len a b H.
  - cbn in H. injection H as <- _ _. lia.
  - destruct x; cbn [matchHere] in H.
    + destruct rest as [|c rest]; [discriminate|].
      destruct (p c); [|discriminate]. apply IH in H. lia.
    + revert prev pos H. induction rest as [|c rest IHr]; intros prev pos H.
      * now apply IH in H.
      * destruct (p c); [|now apply IH in H].
        inner_match H E; [|now apply IH in H].
        injection H as ->. apply IHr in E. lia.
    + revert prev pos H. induction rest as [|c rest IHr]; intros prev pos H.
      * inner_match H E; [|discriminate]. injection H as ->. now apply IH in E.
      * inner_match H E; [injection H as ->; now apply IH in E|].
        destruct (p c); [|discriminate]. apply IHr in H. lia.
    + destruct (wordBoundary prev rest); [|discriminate]. now apply IH in H.
    + now apply IH in H.
    + now apply IH in H.
Qed.

Lemma matchHere_lt (r : regex) :
  consuming r = true ->
  forall prev rest pos go gc len a b,
    matchHere r prev rest pos go gc = Some (len, a, b) -> pos < len.
Proof.
  induction r as [|x r IH]; intros Hc prev rest pos go gc len a b H;
    [discriminate|].
  destruct x; cbn [matchHere] in H; cbn in Hc.
  - destruct rest as [|c rest]; [discriminate|].
    destruct (p c); [|discriminate]. apply matchHere_le in H. lia.
  - revert prev pos H. induction rest as [|c rest IHr]; intros prev pos H.
    + now apply (IH Hc) in H.
    + destruct (p c); [|now apply (IH Hc) in H].
      inner_match H E; [|now apply (IH Hc) in H].
      injection H as ->. apply IHr in E. lia.
  - revert prev pos H. induction rest as [|c rest IHr]; intros prev pos H.
    + inner_match H E; [|discriminate]. injection H as ->.
      now apply (IH Hc) in E.
    + inner_match H E; [injection H as ->; now apply (IH Hc) in E|].
      destruct (p c); [|discriminate]. apply IHr in H. lia.
  - destruct (wordBoundary prev rest); [|discriminate]. now apply (IH Hc) in H.
  - now apply (IH Hc) in H.
  - now apply (IH Hc) in H.
Qed.

(** Every pattern of the tracker consumes at least one code unit, so the
    loops over their matches always move on. *)
Lemma tracker_patterns_consume :
  forallb consuming
          (stringLiteralRegex :: typeReferenceRegex :: functionCallRegex ::
           identifierRegex :: patterns) = true.
Proof. reflexivity. Qed.

(** *** The patterns on sample inputs *)

Example typeReference_sample :
  execAll typeReferenceRegex "user: User; ids: Array<UserId>; doThing(x_A)"
    = ["User"; "Array"; "UserId"].
Proof. reflexivity. Qed.

Example patterns_sample :
  map (fun r => execAll r "class a3 extends  base implements I { k: keyof typeof v }")
      patterns
    = [["keyof"]; ["base"]; ["I"]; ["v"]; ["typeof"]].
Proof. reflexivity. Qed.

Example stringLiteral_sample :
  execAll stringLiteralRegex ("a = " +++ dq +++ "f(1)" +++ dq +++ " + 'g' + ``")
    = ["f(1)"; "g"; ""].
Proof. reflexivity. Qed.

Example functionCall_sample :
  execAll functionCallRegex "useState(0); useEffect (() => {}); x.y(); 3z()"
    = ["useState"; "useEffect"; "y"].
Proof. reflexivity. Qed.

Lemma has_app (x : string) (l1 l2 : list string) :
  has x (l1 ++ l2) = has x l1 || has x l2.
Proof. apply existsb_app. Qed.

Lemma Adds_id : Adds (fun t => t) [].
Proof. intros t x. cbn. now rewrite orb_false_r. Qed.

Lemma Adds_add (m : string) : Adds (add m) [m].
Proof.
  intros t x. unfold add. cbn. rewrite orb_false_r.
  destruct (has m t) eqn:Hm.
  - destruct (String.eqb_spec x m) as [->|_].
    + now rewrite Hm.
    + now rewrite orb_false_r.
  - rewrite has_app. cbn. now rewrite orb_false_r.
Qed.

Lemma Adds_comp f g l1 l2 :
  Adds f l1 -> Adds g l2 -> Adds (fun t => g (f t)) (l1 ++ l2).
Proof.
  intros Hf Hg t x. rewrite Hg, Hf, has_app. now rewrite orb_assoc.
Qed.

Lemma Adds_fold {A : Type} (f : A -> TypeUsageTracker -> TypeUsageTracker)
      (g : A -> list string) (ms : list A) :
  (forall m, Adds (f m) (g m)) ->
  Adds (fun t => fold_left (fun t m => f m t) ms t) (flat_map g ms).
Proof.
  intros H. induction ms as [|m ms IH]; cbn.
  - apply Adds_id.
  - intros t x. rewrite (IH (f m t) x), (H m), has_app.
    now rewrite orb_assoc.
Qed.

Lemma Adds_addMatches (ms : list string) : Adds (addMatches ms) (nonEmpty ms).
Proof.
  unfold addMatches, nonEmpty.
  apply (Adds_fold (fun m t => if isEmpty m then t else add m t)).
  intros m. destruct (isEmpty m); [apply Adds_id | apply Adds_add].
Qed.

Lemma Adds_addIdentifiers (ms : list string) :
  Adds (addIdentifiers ms) (identifiersAdded ms).
Proof.
  induction ms as [|m ms IH]; cbn [addIdentifiers identifiersAdded].
  - apply Adds_id.
  - destruct (isEmpty m); [apply Adds_id|].
    destruct (isKeyword m); cbn [negb].
    + exact IH.
    + intros t x. rewrite (IH (add m t) x), (Adds_add m t x).
      cbn [has existsb]. rewrite orb_false_r. now rewrite orb_assoc.
Qed.

Lemma Adds_scanStringContent (content : string) :
  Adds (scanStringContent content) (contentIdentifiers content).
Proof.
  unfold scanStringContent, contentIdentifiers.
  apply (Adds_comp (addMatches _) (addIdentifiers _));
    [apply Adds_addMatches | apply Adds_addIdentifiers].
Qed.

Lemma Adds_scanString (code : string) :
  Adds (scanString code) (codeIdentifiers code).
Proof.
  unfold scanString, codeIdentifiers.
  apply (Adds_comp (fun t => addMatches _ (fold_left _ _ t))
                   (fun t => fold_left _ patterns t)).
  - apply (Adds_comp (fun t => fold_left _ _ t) (addMatches _)).
    + apply (Adds_fold
               (fun c t => if isEmpty c then t else scanStringContent c t)).
      intros c. destruct (isEmpty c);
        [apply Adds_id | apply Adds_scanStringContent].
    + apply Adds_addMatches.
  - apply (Adds_fold (fun pattern t => addMatches (execAll pattern code) t)).
    intros pattern. apply Adds_addMatches.
Qed.

(** The set only grows, and what a scan adds does not depend on what was
    there before. *)
Lemma scanString_has (code : string) (t : TypeUsageTracker) (x : string) :
  has x (scanString code t) = has x t || has x (scanString code empty).
Proof.
  rewrite (Adds_scanString code t x), (Adds_scanString code empty x).
  reflexivity.
Qed.

(** In string-literal content a keyword is never added by the identifier
    loop, every other identifier token is, and every callee is. *)
Lemma identifiersAdded_no_keyword (ms : list string) (x : string) :
  isKeyword x = true -> has x (identifiersAdded ms) = false.
Proof.
  intros Hk. induction ms as [|m ms IH]; cbn [identifiersAdded];
    [reflexivity|].
  destruct (isEmpty m); [reflexivity|].
  destruct (isKeyword m) eqn:Hm; [exact IH|]. cbn [has existsb].
  destruct (String.eqb_spec x m) as [->|_]; [congruence | exact IH].
Qed.

Lemma identifiersAdded_token (ms : list string) (x : string) :
  Forall (fun m => isEmpty m = false) ms ->
  In x ms -> isKeyword x = false -> has x (identifiersAdded ms) = true.
Proof.
  intros Hne Hin Hk. induction Hne as [|m ms Hm Hne IH]; [destruct Hin|].
  cbn [identifiersAdded]. rewrite Hm. destruct Hin as [->|Hin].
  - rewrite Hk. cbn [has existsb]. now rewrite String.eqb_refl.
  - destruct (isKeyword m); cbn [has existsb]; [auto|].
    fold (has x (identifiersAdded ms)).
    rewrite (IH Hin). apply orb_true_r.
Qed.

Lemma nonEmpty_callee (ms : list string) (x : string) :
  In x ms -> isEmpty x = false -> has x (nonEmpty ms) = true.
Proof.
  intros Hin Hx. induction ms as [|m ms IH]; [destruct Hin|].
  change (nonEmpty (m :: ms))
    with ((if isEmpty m then [] else [m]) ++ nonEmpty ms).
  rewrite has_app. destruct Hin as [->|Hin].
  - rewrite Hx. cbn. now rewrite String.eqb_refl.
  - rewrite (IH Hin). apply orb_true_r.
Qed.

(** C6, at the string-literal content [if (x) { doThing(); }]: [doThing]
    is added, and so is [if].  The identifier loop skips the keyword, but
    the function-call loop, which has no keyword list, captures [if] in
    front of the parenthesis and adds it. *)
Theorem keyword_added_as_callee :
  execAll stringLiteralRegex (dq +++ "if (x) { doThing(); }" +++ dq)
    = ["if (x) { doThing(); }"] /\
  execAll functionCallRegex "if (x) { doThing(); }" = ["if"; "doThing"] /\
  execAll identifierRegex "if (x) { doThing(); }" = ["if"; "x"; "doThing"] /\
  isKeyword "if" = true /\
  scanString (dq +++ "if (x) { doThing(); }" +++ dq) empty
    = ["if"; "doThing"; "x"] /\
  isUsed (scanString (dq +++ "if (x) { doThing(); }" +++ dq) empty) "doThing"
    = true /\
  isUsed (scanString (dq +++ "if (x) { doThing(); }" +++ dq) empty) "if"
    = true.
Proof. repeat split; vm_compute; reflexivity. Qed.

End TrackerFacts.

(* ================================================================== *)
(** ** Properties of the section assembler *)
(* ================================================================== *)

Module SectionFacts.
Import Tracker SectionM Vocabulary.

Section Host.
Variable localeCompare : string -> string -> comparison.
Variable printComment : SynthesizedComment -> string.

Local Abbreviation sortByName := (sortByName localeCompare).
Local Abbreviation insertByName := (insertByName localeCompare).
Local Abbreviation sortedNonImportItems := (sortedNonImportItems localeCompare).
Local Abbreviation usageTracker := (usageTracker localeCompare).
Local Abbreviation importStrings := (importStrings localeCompare).
Local Abbreviation processedImportItems := (processedImportItems localeCompare).
Local Abbreviation stringNodes := (stringNodes localeCompare).
Local Abbreviation astNodes := (astNodes localeCompare).
Local Abbreviation visited := (visited localeCompare).
Local Abbreviation generateText := (generateText localeCompare printComment).

(** *** The sort moves items around and nothing else *)

Lemma insertByName_snd (x1 x2 : nat * CodeItem) (a b : list (nat * CodeItem)) :
  snd x1 = snd x2 -> map snd a = map snd b ->
  map snd (insertByName x1 a) = map snd (insertByName x2 b).
Proof.
  intros Hx. revert b. induction a as [|y a IH]; intros [|z b] Hab;
    try discriminate; cbn; [now rewrite Hx|].
  injection Hab as Hyz Hab. rewrite Hx, Hyz.
  destruct (localeCompare _ _); cbn; rewrite ?Hx, ?Hyz, ?Hab; auto.
  f_equal. now apply IH.
Qed.

Lemma sortByName_snd (a b : list (nat * CodeItem)) :
  map snd a = map snd b -> map snd (sortByName a) = map snd (sortByName b).
Proof.
  revert b. induction a as [|x a IH]; intros [|y b] Hab;
    try discriminate; [reflexivity|].
  injection Hab as Hxy Hab. cbn. apply insertByName_snd; auto.
  now apply IH.
Qed.

Lemma insertByName_perm (x : nat * CodeItem) (l : list (nat * CodeItem)) :
  Permutation (x :: l) (insertByName x l).
Proof.
  induction l as [|y l IH]; cbn; [reflexivity|].
  destruct (localeCompare _ _); try reflexivity.
  rewrite perm_swap. now constructor.
Qed.

Lemma sortByName_perm (l : list (nat * CodeItem)) :
  Permutation l (sortByName l).
Proof.
  induction l as [|x l IH]; cbn; [reflexivity|].
  rewrite <- insertByName_perm. now constructor.
Qed.

Lemma indexed_snd_from (k : nat) (l : list CodeItem) :
  map snd (combine (seq k (List.length l)) l) = l.
Proof.
  revert k. induction l as [|x l IH]; intros k; cbn;
    [reflexivity | now rewrite IH].
Qed.

Lemma filter_snd {A B : Type} (p : B -> bool) (l : list (A * B)) :
  map snd (filter (fun q => p (snd q)) l) = filter p (map snd l).
Proof.
  induction l as [|x l IH]; cbn; [reflexivity|].
  destruct (p (snd x)); cbn; now rewrite IH.
Qed.

Lemma nonImport_snd (l : list CodeItem) :
  map snd (filter (fun q => negb (isImport (snd q))) (indexed l)) =
  filter (fun it => negb (isImport it)) l.
Proof.
  rewrite (filter_snd (fun it => negb (isImport it))).
  unfold indexed. now rewrite indexed_snd_from.
Qed.

(** The items visited depend on the non-import items and on the sort
    option only. *)
Lemma visited_ext (s1 s2 : SectionImpl) :
  sortItems (options s1) = sortItems (options s2) ->
  filter (fun it => negb (isImport it)) (items s1) =
  filter (fun it => negb (isImport it)) (items s2) ->
  visited s1 = visited s2.
Proof.
  intros Ho Hf. unfold visited, SectionM.sortedNonImportItems.
  rewrite <- Ho.
  assert (H : map snd (filter (fun q => negb (isImport (snd q)))
                              (indexed (items s1))) =
              map snd (filter (fun q => negb (isImport (snd q)))
                              (indexed (items s2))))
    by (now rewrite !nonImport_snd).
  destruct (sortItems (options s1)); [now apply sortByName_snd | exact H].
Qed.

Lemma visited_In (s : SectionImpl) (it : CodeItem) :
  In it (items s) -> isImport it = false -> In it (visited s).
Proof.
  intros Hin Hi.
  assert (H : In it (map snd (filter (fun q => negb (isImport (snd q)))
                                     (indexed (items s))))).
  { rewrite nonImport_snd. apply filter_In. split; [assumption|].
    now rewrite Hi. }
  unfold visited, SectionM.sortedNonImportItems.
  destruct (sortItems (options s)); [|exact H].
  apply in_map_iff in H. destruct H as (q & <- & Hq).
  apply in_map. apply (Permutation_in _ (sortByName_perm _) Hq).
Qed.

(** *** The parts of [generate] in terms of the items visited *)

Lemma usageTracker_visited (s : SectionImpl) :
  usageTracker s =
  fold_left (fun t it => scanString (generatedCodeOf it) t)
            (visited s) empty.
Proof.
  unfold SectionM.usageTracker, scanAll, visited.
  generalize empty. induction (sortedNonImportItems s) as [|p l IH];
    intros t; cbn; [reflexivity | apply IH].
Qed.

Lemma stringNodes_visited (s : SectionImpl) :
  stringNodes s =
  flat_map (fun it => match node it with
                      | NString _ => [generatedCodeOf it]
                      | NNode _ => []
                      end) (visited s).
Proof.
  unfold SectionM.stringNodes, visited.
  induction (sortedNonImportItems s) as [|p l IH]; cbn;
    [reflexivity | now rewrite IH].
Qed.

Lemma astNodes_visited (s : SectionImpl) :
  map snd (astNodes s) =
  flat_map (fun it => match node it with
                      | NString _ => []
                      | NNode n => [n]
                      end) (visited s).
Proof.
  unfold SectionM.astNodes, visited.
  induction (sortedNonImportItems s) as [|p l IH]; cbn; [reflexivity|].
  rewrite map_app, IH. now destruct (node (snd p)).
Qed.

Lemma generateText_ext (s1 s2 : SectionImpl) :
  sectionName s1 = sectionName s2 ->
  options s1 = options s2 ->
  importStrings s1 = importStrings s2 ->
  visited s1 = visited s2 ->
  generateText s1 = generateText s2.
Proof.
  intros Hn Ho Hi Hv. unfold SectionM.generateText.
  unfold sectionComment, endComment.
  rewrite !stringNodes_visited, !astNodes_visited, Hn, Ho, Hi, Hv.
  reflexivity.
Qed.

(** The tracker handed to every registry holds what the scan of each
    non-import item finds. *)
Lemma usageTracker_has (s : SectionImpl) (x : string) :
  has x (usageTracker s) =
  existsb (fun it => has x (scanString (generatedCodeOf it) empty))
          (visited s).
Proof.
  rewrite usageTracker_visited.
  assert (H : forall l t,
             has x (fold_left (fun t it => scanString (generatedCodeOf it) t)
                              l t) =
             has x t ||
             existsb (fun it => has x (scanString (generatedCodeOf it) empty))
                     l).
  { induction l as [|it l IH]; intros t; cbn [fold_left existsb];
      [now rewrite orb_false_r|].
    rewrite IH, TrackerFacts.scanString_has. now rewrite orb_assoc. }
  now rewrite H.
Qed.

Lemma usageTracker_ext (s1 s2 : SectionImpl) :
  visited s1 = visited s2 -> usageTracker s1 = usageTracker s2.
Proof. intros H. now rewrite !usageTracker_visited, H. Qed.

(** *** Import items *)

Lemma trimStart_last (a : list ascii) (c : ascii) :
  Regex.isSpace c = false -> trimStart (a ++ [c]) <> [].
Proof.
  intros Hc. induction a as [|x a IH]; cbn.
  - rewrite Hc. discriminate.
  - destruct (Regex.isSpace x); [exact IH | discriminate].
Qed.

Lemma trim_nonblank (c : ascii) (rest : string) :
  Regex.isSpace c = false -> truthy (trim (String c rest)) = true.
Proof.
  intros Hc. unfold trim. cbn [list_ascii_of_string trimStart]. rewrite Hc.
  cbn [rev].
  pose proof (trimStart_last (rev (list_ascii_of_string rest)) c Hc) as H.
  destruct (trimStart _) as [|y k]; [contradiction|].
  cbn [rev]. destruct (rev k); reflexivity.
Qed.

Lemma trim_import (rest : string) : truthy (trim ("import " +++ rest)) = true.
Proof. now apply trim_nonblank. Qed.

Lemma processImport_blank (t : TypeUsageTracker) (it : CodeItem)
      (b : Imports.ImportsBuilderImpl) :
  importsBuilder it = Some b ->
  Imports.generate (Imports.markUsedFromTracker t b) = "" ->
  hasText (processImport t it) = false.
Proof.
  intros Hb Hg. unfold processImport. rewrite Hb, Hg. reflexivity.
Qed.

Lemma processImport_text (t : TypeUsageTracker) (it : CodeItem)
      (b : Imports.ImportsBuilderImpl) (rest : string) :
  importsBuilder it = Some b ->
  Imports.generate (Imports.markUsedFromTracker t b) = "import " +++ rest ->
  hasText (processImport t it) = true /\
  stringOf (processImport t it) = ["import " +++ rest].
Proof.
  intros Hb Hg. unfold processImport, hasText, stringOf. rewrite Hb, Hg.
  cbn [node]. rewrite !trim_import. split; reflexivity.
Qed.

(** A registry with a binding whose name the tracker reports is rendered. *)
Lemma declared_and_reported (t : TypeUsageTracker)
      (b : Imports.ImportsBuilderImpl) (n : string) :
  declares b n -> isUsed t n = true ->
  exists rest,
    Imports.generate (Imports.markUsedFromTracker t b) = "import " +++ rest.
Proof.
  intros Hd Hu.
  assert (Hs : exists d, Imports.generateDecl (Imports.markUsedFromTracker t b)
                         = Some d).
  { rewrite ImportsFacts.generateDecl_spec.
    match goal with |- exists d, (if ?c then _ else _) = _ =>
      assert (Hc : c = false); [|rewrite Hc; eexists; reflexivity] end.
    destruct Hd as [(imp & Hin & _ & Hn)|[(d & Hd & Hn)|(d & Hd & Hn)]].
    - assert (Hf : In (Imports.reconcileNamed t imp)
                      (Imports.filteredNamedImports
                         (Imports.markUsedFromTracker t b))).
      { apply ImportsFacts.in_filtered.
        - cbn. now apply in_map.
        - rewrite ImportsFacts.reconcileNamed_used, Hn, Hu. apply orb_true_r. }
      destruct (Imports.filteredNamedImports _); [destruct Hf | reflexivity].
    - assert (Hinc : Imports.includeDefault (Imports.markUsedFromTracker t b)
                     = true).
      { unfold Imports.includeDefault, Imports.includeSingle. cbn.
        rewrite Hd. cbn. rewrite Hn, Hu. cbn. apply orb_true_r. }
      rewrite Hinc. cbn. now rewrite andb_false_r.
    - assert (Hinc : Imports.includeNamespace (Imports.markUsedFromTracker t b)
                     = true).
      { unfold Imports.includeNamespace, Imports.includeSingle. cbn.
        rewrite Hd. cbn. rewrite Hn, Hu. cbn. apply orb_true_r. }
      rewrite Hinc. cbn. now rewrite andb_false_r. }
  destruct Hs as [d Hs]. now apply ImportsFacts.generate_some_not_blank with d.
Qed.

Lemma importStrings_In (s : SectionImpl) (it : CodeItem)
      (b : Imports.ImportsBuilderImpl) (rest : string) :
  In it (items s) -> isImport it = true -> importsBuilder it = Some b ->
  Imports.generate (Imports.markUsedFromTracker (usageTracker s) b)
    = "import " +++ rest ->
  In ("import " +++ rest) (importStrings s).
Proof.
  intros Hin Hi Hb Hg.
  destruct (processImport_text _ it b rest Hb Hg) as [Ht Hs].
  unfold SectionM.importStrings. apply in_flat_map.
  exists (processImport (usageTracker s) it). split.
  - apply filter_In. split; [|exact Ht].
    unfold SectionM.processedImportItems. apply in_map.
    apply filter_In. now split.
  - rewrite Hs. now left.
Qed.

Lemma importStrings_ext (s1 s2 : SectionImpl) :
  visited s1 = visited s2 ->
  filter isImport (items s1) = filter isImport (items s2) ->
  importStrings s1 = importStrings s2.
Proof.
  intros Hv Hf. unfold SectionM.importStrings, SectionM.processedImportItems.
  now rewrite (usageTracker_ext _ _ Hv), Hf.
Qed.

(** C8.  A registry in which no binding is marked used and whose
    [includeUnused] option is false renders to the empty string, an
    ordinary return value.  In a section, an import item whose registry is
    in that state once it has been reconciled adds nothing: the import
    lines and the whole text of the section are those of the section
    without the item. *)
Theorem unused_registry_contributes_nothing
        (b : Imports.ImportsBuilderImpl) (s : SectionImpl)
        (pre post : list CodeItem) (nm : string) (nd : NodeOrString) :
  Imports.includeUnused (Imports.options b) = false ->
  (noneUsed b -> Imports.generate b = "") /\
  (items s = pre ++ mkItem TImport nm nd (Some b) :: post ->
   noneUsed (Imports.markUsedFromTracker (usageTracker s) b) ->
   importStrings s =
     importStrings (mkSection (sectionName s) (options s) (pre ++ post)) /\
   generateText s =
     generateText (mkSection (sectionName s) (options s) (pre ++ post))).
Proof.
  intros Hi. split; [now apply ImportsFacts.generate_noneUsed|].
  intros Hitems Hnone.
  set (s' := mkSection (sectionName s) (options s) (pre ++ post)).
  assert (Hv : visited s = visited s').
  { apply visited_ext; [reflexivity|]. rewrite Hitems. cbn.
    rewrite !filter_app. reflexivity. }
  assert (Hs : importStrings s = importStrings s').
  { unfold SectionM.importStrings, SectionM.processedImportItems.
    rewrite <- (usageTracker_ext _ _ Hv). cbn [items s']. rewrite Hitems.
    rewrite !filter_app. cbn [filter isImport type].
    rewrite !map_app. cbn [map]. rewrite !filter_app. cbn [filter].
    rewrite (processImport_blank (usageTracker s)
               (mkItem TImport nm nd (Some b)) b eq_refl); [reflexivity|].
    now apply ImportsFacts.generate_noneUsed. }
  split; [exact Hs|]. now apply generateText_ext.
Qed.

(** *** A second call of [generate] *)

Local Abbreviation itemAfter := (itemAfter localeCompare).
Local Abbreviation stateAfter := (stateAfter localeCompare).

Lemma processImport_type (t : TypeUsageTracker) (it : CodeItem) :
  type (processImport t it) = type it /\ name (processImport t it) = name it.
Proof. unfold processImport. destruct (importsBuilder it); auto. Qed.

Lemma itemAfter_type (s : SectionImpl) (p : nat * CodeItem) :
  isImport (itemAfter s p) = isImport (snd p) /\
  name (itemAfter s p) = name (snd p).
Proof.
  destruct p as [i [ty nm nd ib]].
  unfold SectionM.itemAfter. cbn [snd fst].
  destruct (isImport (mkItem ty nm nd ib)) eqn:Ei.
  - unfold isImport.
    destruct (processImport_type (usageTracker s) (mkItem ty nm nd ib))
      as [-> ->].
    auto.
  - cbn [node]. destruct nd as [x|n]; [auto|].
    destruct (commentedIndex localeCompare s) as [j|];
      [destruct (Nat.eqb j i)|]; auto.
Qed.

Lemma itemAfter_code (s : SectionImpl) (p : nat * CodeItem) :
  isImport (snd p) = false ->
  generatedCodeOf (itemAfter s p) = generatedCodeOf (snd p) /\
  stringOf (itemAfter s p) = stringOf (snd p).
Proof.
  intros Hi. destruct p as [i [ty nm nd ib]].
  unfold SectionM.itemAfter. cbn [snd fst] in *. rewrite Hi. cbn [node].
  destruct nd as [x|n]; [auto|].
  destruct (commentedIndex localeCompare s) as [j|];
    [destruct (Nat.eqb j i)|]; auto.
Qed.

Lemma indexed_map_from (f : nat * CodeItem -> CodeItem) (l : list CodeItem)
      (k : nat) :
  combine (seq k (List.length (map f (combine (seq k (List.length l)) l))))
          (map f (combine (seq k (List.length l)) l)) =
  map (fun p => (fst p, f p)) (combine (seq k (List.length l)) l).
Proof.
  revert k. induction l as [|x l IH]; intros k; cbn; [reflexivity|].
  f_equal. apply IH.
Qed.

Lemma indexed_stateAfter (s : SectionImpl) :
  indexed (items (stateAfter s)) =
  map (fun p => (fst p, itemAfter s p)) (indexed (items s)).
Proof. unfold indexed. cbn [items SectionM.stateAfter]. apply indexed_map_from. Qed.

Lemma filter_map_commute {A : Type} (p : A -> bool) (g : A -> A) (l : list A) :
  (forall x, p (g x) = p x) -> filter p (map g l) = map g (filter p l).
Proof.
  intros H. induction l as [|x l IH]; cbn; [reflexivity|].
  rewrite H. destruct (p x); cbn; now rewrite IH.
Qed.

Lemma insertByName_map (g : nat * CodeItem -> nat * CodeItem)
      (x : nat * CodeItem) (l : list (nat * CodeItem)) :
  (forall q, name (snd (g q)) = name (snd q)) ->
  insertByName (g x) (map g l) = map g (insertByName x l).
Proof.
  intros H. induction l as [|y l IH]; cbn; [reflexivity|].
  rewrite !H. destruct (localeCompare _ _); cbn; try reflexivity.
  now rewrite IH.
Qed.

Lemma sortByName_map (g : nat * CodeItem -> nat * CodeItem)
      (l : list (nat * CodeItem)) :
  (forall q, name (snd (g q)) = name (snd q)) ->
  sortByName (map g l) = map g (sortByName l).
Proof.
  intros H. unfold SectionM.sortByName.
  induction l as [|x l IH]; cbn [map fold_right]; [reflexivity|].
  rewrite IH. now apply insertByName_map.
Qed.

(** The non-import items of the section after a call are those before it,
    item by item. *)
Lemma sorted_stateAfter (s : SectionImpl) :
  sortedNonImportItems (stateAfter s) =
  map (fun p => (fst p, itemAfter s p)) (sortedNonImportItems s).
Proof.
  unfold SectionM.sortedNonImportItems. rewrite indexed_stateAfter.
  cbn [options SectionM.stateAfter].
  rewrite (filter_map_commute (fun q => negb (isImport (snd q)))
             (fun p => (fst p, itemAfter s p))).
  - destruct (sortItems (options s)); [|reflexivity].
    apply sortByName_map. intros q. apply itemAfter_type.
  - intros q. cbn. now rewrite (proj1 (itemAfter_type s q)).
Qed.

Lemma sorted_nonImport (s : SectionImpl) (p : nat * CodeItem) :
  In p (sortedNonImportItems s) -> isImport (snd p) = false.
Proof.
  unfold SectionM.sortedNonImportItems. intros H.
  assert (H' : In p (filter (fun q => negb (isImport (snd q)))
                            (indexed (items s)))).
  { destruct (sortItems (options s)); [|exact H].
    apply (Permutation_in _ (Permutation_sym (sortByName_perm _)) H). }
  apply filter_In in H'. destruct H' as [_ H']. now destruct (isImport (snd p)).
Qed.

Lemma usageTracker_stateAfter (s : SectionImpl) :
  usageTracker (stateAfter s) = usageTracker s.
Proof.
  unfold SectionM.usageTracker, scanAll. rewrite sorted_stateAfter.
  pose proof (sorted_nonImport s) as Hn.
  generalize empty. induction (sortedNonImportItems s) as [|p l IH];
    intros t; cbn [map fold_left]; [reflexivity|].
  cbn [snd]. rewrite (proj1 (itemAfter_code s p (Hn p (or_introl eq_refl)))).
  apply IH. intros q Hq. apply Hn. now right.
Qed.

Lemma stringNodes_stateAfter (s : SectionImpl) :
  stringNodes (stateAfter s) = stringNodes s.
Proof.
  unfold SectionM.stringNodes. rewrite sorted_stateAfter.
  pose proof (sorted_nonImport s) as Hn.
  induction (sortedNonImportItems s) as [|p l IH]; cbn [map flat_map];
    [reflexivity|].
  rewrite IH by (intros q Hq; apply Hn; now right). f_equal.
  cbn [snd]. pose proof (Hn p (or_introl eq_refl)) as Hp.
  destruct p as [i [ty nm nd ib]].
  unfold SectionM.itemAfter. cbn [snd fst] in *. rewrite Hp. cbn [node].
  destruct nd as [x|n]; [reflexivity|].
  destruct (commentedIndex localeCompare s) as [j|];
    [destruct (Nat.eqb j i)|]; reflexivity.
Qed.

(** Reconciling twice against the same tracker is reconciling once. *)
Lemma markUsedFromTracker_idem (t : TypeUsageTracker)
      (b : Imports.ImportsBuilderImpl) :
  Imports.markUsedFromTracker t (Imports.markUsedFromTracker t b) =
  Imports.markUsedFromTracker t b.
Proof.
  unfold Imports.markUsedFromTracker. cbn. f_equal.
  - rewrite map_map. apply map_ext. intros imp. unfold Imports.reconcileNamed.
    destruct (isUsed t (Imports.name imp)) eqn:E; cbn; now rewrite E.
  - destruct (Imports.defaultImport b) as [d|]; cbn; [|reflexivity].
    destruct (isUsed t (Imports.sname d)) eqn:E; cbn; now rewrite E.
  - destruct (Imports.namespaceImport b) as [d|]; cbn; [|reflexivity].
    destruct (isUsed t (Imports.sname d)) eqn:E; cbn; now rewrite E.
Qed.

Lemma processImport_idem (t : TypeUsageTracker) (it : CodeItem) :
  processImport t (processImport t it) = processImport t it.
Proof.
  unfold processImport at 2 3. destruct (importsBuilder it) as [b|] eqn:Eb.
  - unfold processImport. cbn. now rewrite markUsedFromTracker_idem.
  - unfold processImport. now rewrite Eb.
Qed.

Lemma importItems_stateAfter (s : SectionImpl) :
  filter isImport (items (stateAfter s)) =
  map (processImport (usageTracker s)) (filter isImport (items s)).
Proof.
  cbn [items SectionM.stateAfter]. unfold indexed.
  generalize 0. induction (items s) as [|x l IH]; intros k; cbn;
    [reflexivity|].
  rewrite (proj1 (itemAfter_type s (k, x))). cbn [snd].
  destruct (isImport x) eqn:Ex; cbn; [|apply IH].
  rewrite IH. f_equal. unfold SectionM.itemAfter. cbn [snd]. now rewrite Ex.
Qed.

(** The import lines of a second call are those of the first. *)
Lemma importStrings_stateAfter (s : SectionImpl) :
  importStrings (stateAfter s) = importStrings s.
Proof.
  unfold SectionM.importStrings, SectionM.processedImportItems.
  rewrite usageTracker_stateAfter, importItems_stateAfter, map_map.
  f_equal. f_equal. apply map_ext. intros it. apply processImport_idem.
Qed.

(** The syntax nodes of the section after a call: the node that received
    the section comment holds it, the others are as they were. *)
Lemma astNodes_stateAfter (s : SectionImpl) :
  astNodes (stateAfter s) =
  map (fun q => (fst q,
                 match commentedIndex localeCompare s with
                 | Some i => if Nat.eqb i (fst q)
                             then addSyntheticLeadingComment (snd q)
                                                             (sectionComment s)
                             else snd q
                 | None => snd q
                 end))
      (astNodes s).
Proof.
  unfold SectionM.astNodes. rewrite sorted_stateAfter.
  pose proof (sorted_nonImport s) as Hn.
  induction (sortedNonImportItems s) as [|p l IH]; cbn [map flat_map];
    [reflexivity|].
  rewrite map_app, IH by (intros q Hq; apply Hn; now right). f_equal.
  pose proof (Hn p (or_introl eq_refl)) as Hp.
  destruct p as [i [ty nm nd ib]].
  unfold SectionM.itemAfter. cbn [snd fst] in *. rewrite Hp. cbn [node].
  destruct nd as [x|n]; [reflexivity|]. cbn [map fst snd].
  destruct (commentedIndex localeCompare s) as [j|];
    [destruct (Nat.eqb j i)|]; reflexivity.
Qed.

(** A section that holds no syntax node reads the same at a second call. *)
Lemma generateText_stateAfter_strings (s : SectionImpl) :
  astNodes s = [] ->
  generateText (stateAfter s) = generateText s.
Proof.
  intros Ha. apply generateText_ext; try reflexivity.
  - apply importStrings_stateAfter.
  - unfold Vocabulary.visited. rewrite sorted_stateAfter, map_map.
    apply map_ext_in. intros [i [ty nm nd ib]] Hin. cbn [snd fst].
    apply sorted_nonImport in Hin. cbn [snd] in Hin.
    unfold SectionM.itemAfter, SectionM.commentedIndex. rewrite Ha.
    cbn [snd fst node]. rewrite Hin. now destruct nd.
Qed.

Lemma printNode_comment (n : Node) (c : SynthesizedComment) :
  String.length (printNode printComment (addSyntheticLeadingComment n c)) =
  String.length (printNode printComment n) + String.length (printComment c).
Proof.
  unfold printNode, addSyntheticLeadingComment. cbn [leadingComments ownText].
  rewrite fold_right_app. cbn [fold_right].
  induction (leadingComments n) as [|x l IH]; cbn [fold_right].
  - rewrite StringFacts.length_append. lia.
  - rewrite !StringFacts.length_append, IH. lia.
Qed.

(** A section that holds a syntax node reads differently at a second call:
    the node that carries the section comment carries it once more. *)
Lemma generateText_stateAfter_nodes (s : SectionImpl) :
  astNodes s <> [] ->
  printComment (sectionComment s) <> "" ->
  String.length (generateText s) < String.length (generateText (stateAfter s)).
Proof.
  intros Ha Hc.
  assert (Hpc : 0 < String.length (printComment (sectionComment s)))
    by (destruct (printComment (sectionComment s)); [contradiction | cbn; lia]).
  unfold SectionM.generateText.
  rewrite importStrings_stateAfter, stringNodes_stateAfter, astNodes_stateAfter.
  unfold SectionM.commentedIndex.
  destruct (astNodes s) as [|[i n] rest]; [contradiction|]. clear Ha.
  cbn [map fst snd List.length Nat.eqb andb app]. rewrite Nat.eqb_refl.
  change (sectionComment (stateAfter s)) with (sectionComment s).
  change (endComment (stateAfter s)) with (endComment s).
  change (sectionName (stateAfter s)) with (sectionName s).
  set (c := sectionComment s) in *.
  set (rest2 := map (fun q : nat * Node =>
                       (fst q,
                        if Nat.eqb i (fst q)
                        then addSyntheticLeadingComment (snd q) c
                        else snd q)) rest).
  set (X := if Nat.ltb 0 (List.length (stringNodes s)) then _ else _).
  assert (Hlt : String.length
                  (printNodes printComment
                     (addSyntheticLeadingComment n c ::
                      map snd rest ++ [endComment s])) <
                String.length
                  (printNodes printComment
                     (addSyntheticLeadingComment
                        (addSyntheticLeadingComment n c) c ::
                      map snd rest2 ++ [endComment s]))).
  { unfold printNodes. cbn [map]. apply StringFacts.join_length_lt.
    - rewrite !printNode_comment. lia.
    - rewrite !map_app. apply Forall2_app; [|repeat constructor].
      subst rest2. rewrite !map_map.
      clear. induction rest as [|q rest IH]; cbn [map]; constructor; [|exact IH].
      cbn [snd fst]. destruct (Nat.eqb i (fst q)); [|reflexivity].
      rewrite printNode_comment. lia. }
  assert (Hpos : 0 < String.length
                        (printNodes printComment
                           (addSyntheticLeadingComment n c ::
                            map snd rest ++ [endComment s]))).
  { unfold printNodes. cbn [map].
    pose proof (StringFacts.join_length_head (nl +++ nl)
                  (printNode printComment (addSyntheticLeadingComment n c))
                  (map (printNode printComment)
                       (map snd rest ++ [endComment s]))) as Hh.
    rewrite printNode_comment in Hh. lia. }
  set (C1 := printNodes printComment
               (addSyntheticLeadingComment n c ::
                map snd rest ++ [endComment s])) in *.
  set (C2 := printNodes printComment
               (addSyntheticLeadingComment (addSyntheticLeadingComment n c) c ::
                map snd rest2 ++ [endComment s])) in *.
  assert (H1 : truthy C1 = true) by (apply StringFacts.truthy_length; lia).
  assert (H2 : truthy C2 = true) by (apply StringFacts.truthy_length; lia).
  rewrite H1, H2. rewrite !StringFacts.length_append. lia.
Qed.

End Host.

(** C8 at the section that declares the import of [unused-module]: the
    registry renders to nothing and the section reads as if the import had
    never been declared. *)
Lemma unused_registry_contributes_nothing_witness :
  Imports.generate Inputs.unusedModule = "" /\
  importStrings Inputs.ordinalCompare Inputs.withUnusedImport = [] /\
  generateText Inputs.ordinalCompare Inputs.writeComment Inputs.withUnusedImport =
    "/**" +++ nl +++ " * Config" +++ nl +++ " */" +++ nl +++
    "const config = {" +++ nl +++ "  retries: 3" +++ nl +++ "};" +++ nl +++
    "// End Config".
Proof.
  assert (Hnone : noneUsed
            (Imports.markUsedFromTracker
               (SectionM.usageTracker Inputs.ordinalCompare
                                      Inputs.withUnusedImport)
               Inputs.unusedModule)).
  { repeat split.
    - intros imp Hin. vm_compute in Hin.
      destruct Hin as [<-|[<-|[]]]; reflexivity.
    - intros d Hd. vm_compute in Hd. discriminate.
    - intros d Hd. vm_compute in Hd. discriminate. }
  destruct (unused_registry_contributes_nothing
              Inputs.ordinalCompare Inputs.writeComment
              Inputs.unusedModule Inputs.withUnusedImport
              []
              [mkItem TObject "config"
                      (NString ("const config = {" +++ nl +++ "  retries: 3" +++
                                nl +++ "};")) None]
              "unused-module" (NString "") eq_refl) as [H1 H2].
  destruct (H2 eq_refl Hnone) as [H3 H4].
  split; [|split].
  - apply H1. repeat split.
    + intros imp Hin. vm_compute in Hin.
      destruct Hin as [<-|[<-|[]]]; reflexivity.
    + intros d Hd. vm_compute in Hd. discriminate.
    + intros d Hd. vm_compute in Hd. discriminate.
  - rewrite H3. reflexivity.
  - rewrite H4. reflexivity.
Defined.

(** The scenario of the hooks: only the two imports that the snippet calls
    are rendered. *)
Example react_scenario :
  importStrings Inputs.ordinalCompare Inputs.reactSection =
    ["import { useState, useEffect } from " +++ dq +++ "react" +++ dq +++ ";"].
Proof. reflexivity. Qed.

(** C1, as stated, fails: the local name [isReady] of the import occurs in
    the if statement added after it, yet the scan of that text finds no
    identifier (it holds no capitalised word, no type annotation and no
    string literal), so the import is left out of the output. *)
Lemma name_occurs_but_import_is_dropped :
  map Vocabulary.localName
      (Imports.namedImports (Imports.named "isReady" None
         (Imports.new "./utils" Imports.defaultOptions))) = ["isReady"] /\
  occursIn "isReady" (scanText Inputs.ifIsReady) = true /\
  scanString (scanText Inputs.ifIsReady) empty = [] /\
  importStrings Inputs.ordinalCompare Inputs.usesIsReady = [] /\
  generateText Inputs.ordinalCompare Inputs.writeComment Inputs.usesIsReady =
    "/** Startup */" +++ nl +++ "if (isReady) {" +++ nl +++ "}" +++ nl +++ nl +++
    "// End Startup" +++ nl.
Proof. repeat split; vm_compute; reflexivity. Qed.

End SectionFacts.

(* ================================================================== *)
(** ** Properties of the generator *)
(* ================================================================== *)

Module GeneratorFacts.
Import SectionM GeneratorM Vocabulary.

(** The sort by order moves two lists with the same order keys alike. *)
Lemma insertByOrder_related (R : SectionImpl -> SectionImpl -> Prop)
      (x y : SectionImpl) (a b : list SectionImpl) :
  (forall s1 s2, R s1 s2 -> orderOf s1 = orderOf s2) ->
  R x y -> Forall2 R a b ->
  Forall2 R (insertByOrder x a) (insertByOrder y b).
Proof.
  intros Hk Hxy Hab. induction Hab as [|u v a b Huv Hab IH]; cbn.
  - constructor; [assumption | constructor].
  - unfold compareOrder. rewrite (Hk _ _ Hxy), (Hk _ _ Huv).
    destruct (Js.isPositive _); repeat constructor; assumption.
Qed.

Lemma sort_related (R : SectionImpl -> SectionImpl -> Prop)
      (a b : list SectionImpl) :
  (forall s1 s2, R s1 s2 -> orderOf s1 = orderOf s2) ->
  Forall2 R a b ->
  Forall2 R (fold_right insertByOrder [] a) (fold_right insertByOrder [] b).
Proof.
  intros Hk Hab. induction Hab as [|u v a b Huv Hab IH]; cbn.
  - constructor.
  - now apply insertByOrder_related.
Qed.

Section Host.
Variable localeCompare : string -> string -> comparison.
Variable printComment : SynthesizedComment -> string.

(** *** A second call of the top-level [generate] *)

Variable printFile : string -> option SynthesizedComment -> string.

Local Abbreviation stateAfter := (stateAfter localeCompare).
Local Abbreviation generateText := (generateText localeCompare printComment).
Local Abbreviation generate := (generate localeCompare printComment printFile).
Local Abbreviation combinedCode := (combinedCode localeCompare printComment).

Lemma insertByOrder_map (x : SectionImpl) (l : list SectionImpl) :
  insertByOrder (stateAfter x) (map stateAfter l) =
  map stateAfter (insertByOrder x l).
Proof.
  induction l as [|y l IH]; cbn [map insertByOrder]; [reflexivity|].
  change (orderOf (stateAfter x)) with (orderOf x).
  change (orderOf (stateAfter y)) with (orderOf y).
  destruct (Js.isPositive _); cbn [map]; [now rewrite IH | reflexivity].
Qed.

Lemma sortedSections_after (g : GeneratorImpl) :
  sortedSections (snd (generate g)) = map stateAfter (sortedSections g).
Proof.
  unfold sortedSections. cbn [snd GeneratorM.generate sections].
  induction (sections g) as [|x l IH]; cbn [map fold_right]; [reflexivity|].
  rewrite IH. apply insertByOrder_map.
Qed.

(** When some section holds a syntax node, the combined code of the second
    call is longer than that of the first, whatever non-empty text the
    printer writes for a comment. *)
Lemma second_generate_is_longer (g : GeneratorImpl) :
  (forall c, printComment c <> "") ->
  (exists s, In s (sections g) /\ astNodes localeCompare s <> []) ->
  String.length (combinedCode g) <
  String.length (combinedCode (snd (generate g))).
Proof.
  intros Hc (s & Hin & Hs).
  unfold GeneratorM.combinedCode, sectionCodes. rewrite sortedSections_after.
  rewrite map_map.
  assert (Hin' : In s (sortedSections g)).
  { unfold sortedSections. clear -Hin.
    induction (sections g) as [|x l IH]; [destruct Hin|].
    cbn [fold_right].
    assert (Hp : forall y k, In s (y :: k) -> In s (insertByOrder y k)).
    { clear. intros y k. induction k as [|z k IH]; cbn [insertByOrder];
        [auto|].
      destruct (Js.isPositive _); [|auto].
      intros [->|[->|H]]; [right; apply IH; now left | now left
                           | right; apply IH; now right]. }
    apply Hp. destruct Hin as [->|H]; [now left | right; now apply IH]. }
  assert (Hle : forall x,
             String.length (generateText x) <=
             String.length (generateText (stateAfter x))).
  { intros x. destruct (astNodes localeCompare x) as [|q r] eqn:Ex.
    - now rewrite (SectionFacts.generateText_stateAfter_strings _ _ _ Ex).
    - apply Nat.lt_le_incl.
      apply SectionFacts.generateText_stateAfter_nodes; [|apply Hc].
      rewrite Ex. discriminate. }
  assert (Hlt : String.length (generateText s) <
                String.length (generateText (stateAfter s)))
    by (apply SectionFacts.generateText_stateAfter_nodes; [exact Hs | apply Hc]).
  apply StringFacts.join_length_strict.
  - clear -Hle. induction (sortedSections g) as [|x l IH]; cbn [map];
      constructor; [apply Hle | exact IH].
  - clear -Hin' Hlt. induction (sortedSections g) as [|x l IH];
      [destruct Hin'|].
    cbn [map combine]. destruct Hin' as [->|H].
    + now apply Exists_cons_hd.
    + apply Exists_cons_tl. now apply IH.
Qed.

End Host.

(** C3, at a generator whose one section holds an interface: the second
    call of [generate()] hands the printer a combined code in which the
    section comment stands twice, because the first call left that comment
    on the interface node held by the section. *)
Theorem second_generate_repeats_section_comment
        (printFile : string -> option SynthesizedComment -> string) :
  let generate :=
    GeneratorM.generate Inputs.ordinalCompare Inputs.writeComment printFile in
  let importLine := "import { User } from " +++ dq +++ "./types" +++ dq +++ ";" in
  let declaration :=
    "interface UserProfile {" +++ nl +++ "    user: User;" +++ nl +++ "}" in
  let first :=
    importLine +++ nl +++ nl +++
    "/** Profile */" +++ nl +++
    declaration +++ nl +++ nl +++ "// End Profile" +++ nl in
  let second :=
    importLine +++ nl +++ nl +++
    "/** Profile */" +++ nl +++ "/** Profile */" +++ nl +++
    declaration +++ nl +++ nl +++ "// End Profile" +++ nl in
  fst (generate Inputs.profileGenerator) =
    printFile first (headerComment Inputs.profileGenerator) /\
  fst (generate (snd (generate Inputs.profileGenerator))) =
    printFile second (headerComment Inputs.profileGenerator) /\
  first <> second.
Proof.
  cbv zeta. split; [|split].
  - reflexivity.
  - reflexivity.
  - vm_compute. discriminate.
Qed.

End GeneratorFacts.

(* ================================================================== *)
(** ** Properties of the statement builders *)
(* ================================================================== *)

Module StatementFacts.
Import Statements.

(** The message of an if statement without condition, to the letter. *)
Example if_message_text :
  ifGenerateNode Inputs.ifWithoutCondition
    = Throw "Condition is required for if statement".
Proof. reflexivity. Qed.

(** C9.  Generating an if statement without condition, or without then
    block, or a for, while or do-while loop without body, throws an error
    and returns no node.  The message names the missing piece and the kind
    of construct: [Condition is required for if statement], [Then block is
    required for if statement], [Body is required for loop statement]; a
    while or do-while loop that also lacks its condition reports that
    condition, the first piece found missing. *)
Theorem missing_piece_throws :
  (forall b, truthyOpt (conditionExpr b) = false ->
     ifGenerateNode b = Throw "Condition is required for if statement") /\
  (forall b, truthyOpt (conditionExpr b) = true -> thenBlock b = None ->
     ifGenerateNode b = Throw "Then block is required for if statement") /\
  (forall b, forBody b = None ->
     forGenerateNode b = Throw "Body is required for loop statement") /\
  (forall b, whileBody b = None ->
     whileGenerateNode b =
       Throw (if truthyOpt (whileConditionExpr b)
              then "Body is required for loop statement"
              else "Condition is required for while statement")) /\
  (forall b, doBody b = None ->
     doWhileGenerateNode b =
       Throw (if truthyOpt (doConditionExpr b)
              then "Body is required for loop statement"
              else "Condition is required for do-while statement")).
Proof.
  repeat split.
  - intros b H. unfold ifGenerateNode. now rewrite H.
  - intros b H Ht. unfold ifGenerateNode. rewrite H, Ht. cbn.
    now destruct (conditionExpr b).
  - intros b H. unfold forGenerateNode. now rewrite H.
  - intros b H. unfold whileGenerateNode. rewrite H.
    destruct (whileConditionExpr b) as [c|]; cbn; [|reflexivity].
    now destruct (truthy c).
  - intros b H. unfold doWhileGenerateNode. rewrite H.
    destruct (doConditionExpr b) as [c|]; cbn; [|reflexivity].
    now destruct (truthy c).
Qed.

(** The five builders of the examples, each with a piece missing. *)
Lemma missing_piece_throws_witness :
  ifGenerateNode Inputs.ifWithoutCondition
    = Throw "Condition is required for if statement" /\
  ifGenerateNode Inputs.ifWithoutThen
    = Throw "Then block is required for if statement" /\
  forGenerateNode Inputs.forWithoutBody
    = Throw "Body is required for loop statement" /\
  whileGenerateNode Inputs.whileWithoutBody
    = Throw "Body is required for loop statement" /\
  doWhileGenerateNode Inputs.doWhileWithoutBody
    = Throw "Body is required for loop statement".
Proof.
  destruct missing_piece_throws as (H1 & H2 & H3 & H4 & H5).
  split; [|split; [|split; [|split]]].
  - exact (H1 Inputs.ifWithoutCondition eq_refl).
  - exact (H2 Inputs.ifWithoutThen eq_refl eq_refl).
  - exact (H3 Inputs.forWithoutBody eq_refl).
  - exact (H4 Inputs.whileWithoutBody eq_refl).
  - exact (H5 Inputs.doWhileWithoutBody eq_refl).
Defined.

End StatementFacts.

(* ================================================================== *)
(** ** More properties of the import registry *)
(* ================================================================== *)

Module ImportsMore.
Import Tracker Imports Vocabulary ImportsOps.

Lemma optEqb_refl (a : option string) : optEqb a a = true.
Proof. destruct a; cbn; [apply String.eqb_refl | reflexivity]. Qed.

Lemma find_key_none (n : string) (a : option string)
      (l : list NamedImportDefinition) :
  find (fun imp => String.eqb (name imp) n && optEqb (alias imp) a) l = None ->
  ~ In (n, a) (map keyOf l).
Proof.
  induction l as [|i l IH]; cbn [find map In]; [tauto|].
  destruct (String.eqb (name i) n && optEqb (alias i) a) eqn:E;
    [discriminate|].
  intros H [K|K]; [|now apply IH].
  unfold keyOf in K. injection K as Kn Ka.
  now rewrite Kn, Ka, String.eqb_refl, optEqb_refl in E.
Qed.

Lemma find_key_some (n : string) (a : option string)
      (l : list NamedImportDefinition) (imp : NamedImportDefinition) :
  In imp l -> name imp = n -> alias imp = a ->
  find (fun i => String.eqb (name i) n && optEqb (alias i) a) l <> None.
Proof.
  intros Hin Hn Ha. induction l as [|i l IH]; [destruct Hin|].
  cbn. destruct (String.eqb (name i) n && optEqb (alias i) a) eqn:E;
    [discriminate|].
  destruct Hin as [->|Hin]; [|now apply IH].
  now rewrite Hn, Ha, String.eqb_refl, optEqb_refl in E.
Qed.

Lemma markFirst_keys (n : string) (l : list NamedImportDefinition) :
  Forall2 keptNamed l (markFirst n l).
Proof.
  induction l as [|i l IH]; cbn; [constructor|].
  destruct (String.eqb (name i) n).
  - constructor; [now split|].
    clear. induction l; constructor; [now split | assumption].
  - constructor; [now split | exact IH].
Qed.

Lemma Forall2_keys (l l' : list NamedImportDefinition) :
  Forall2 keptNamed l l' -> map keyOf l = map keyOf l'.
Proof.
  induction 1 as [|i i' l l' [H _] _ IH]; cbn; [reflexivity | now rewrite H, IH].
Qed.

Lemma reconcile_keys (t : TypeUsageTracker) (l : list NamedImportDefinition) :
  Forall2 keptNamed l (map (reconcileNamed t) l).
Proof.
  induction l as [|i l IH]; cbn; constructor; [|exact IH].
  unfold reconcileNamed. destruct (isUsed t (name i)); now split.
Qed.

Lemma keptNamed_refl (l : list NamedImportDefinition) : Forall2 keptNamed l l.
Proof. induction l; constructor; [now split | assumption]. Qed.

Lemma keptSingle_refl (o : option SingleImport) : keptSingle o o.
Proof. destruct o; cbn; auto. Qed.

(** X1.  Whatever calls were chained on a new registry, no two of its named
    bindings have both the same source name and the same alias. *)
Theorem named_bindings_stay_distinct
        (moduleSpecifier0 : string) (opts : ImportOptions) (cs : list Call) :
  NoDup (map keyOf (namedImports (chain cs (new moduleSpecifier0 opts)))).
Proof.
  unfold chain.
  assert (H0 : NoDup (map keyOf (namedImports (new moduleSpecifier0 opts))))
    by constructor.
  revert H0. generalize (new moduleSpecifier0 opts).
  assert (Hnamed : forall n a b, NoDup (map keyOf (namedImports b)) ->
                                 NoDup (map keyOf (namedImports (named n a b)))).
  { intros n a b H. unfold named.
    destruct (find _ (namedImports b)) eqn:E; [exact H|]. cbn.
    rewrite map_app. cbn. apply NoDup_app_remove_l with (l := []).
    cbn. apply Permutation_NoDup with (l := (n, a) :: map keyOf (namedImports b)).
    - apply Permutation_cons_append.
    - constructor; [now apply find_key_none | exact H]. }
  induction cs as [|c cs IH]; intros b H; cbn [fold_left]; [exact H|].
  apply IH. destruct c; cbn [call]; auto.
  - unfold namedMultiple. revert b H.
    induction names as [|x names IHn]; intros b H; cbn [fold_left]; auto.
  - cbn. now rewrite <- (Forall2_keys _ _ (markFirst_keys name0 (namedImports b))).
  - cbn. now rewrite <- (Forall2_keys _ _ (reconcile_keys t (namedImports b))).
Qed.

(** X2.  Asking again for a named binding that the registry holds, with the
    same source name and the same alias, changes nothing: the binding is not
    duplicated and a mark it carries is kept. *)
Theorem named_again_is_noop (b : ImportsBuilderImpl)
        (imp : NamedImportDefinition) :
  In imp (namedImports b) -> named (name imp) (alias imp) b = b.
Proof.
  intros Hin. unfold named.
  destruct (find _ (namedImports b)) eqn:E; [reflexivity|].
  exfalso. now apply (find_key_some _ _ _ imp Hin eq_refl eq_refl).
Qed.

Lemma named_again_is_noop_witness :
  named "css" None Inputs.styled = Inputs.styled /\
  map used (namedImports (named "css" None Inputs.styled)) = [true; false].
Proof.
  split; [|reflexivity].
  apply (named_again_is_noop Inputs.styled (mkNamed "css" None true)).
  now left.
Defined.

(** X3.  Declaring the default binding again, also under the same name,
    drops an explicit mark: afterwards the default name reaches the import
    clause only if [includeUnused] is set or the tracker reports the name.
    The namespace binding behaves alike. *)
Theorem redeclared_single_loses_mark (b : ImportsBuilderImpl) (n : string)
        (t : TypeUsageTracker) :
  shownDefault (markUsedFromTracker t (default n (markDefaultUsed b))) =
    (if (includeUnused (options b) || isUsed t n) && truthy n
     then Some n else None) /\
  shownNamespace (markUsedFromTracker t (namespace n (markNamespaceUsed b))) =
    (if (includeUnused (options b) || isUsed t n) && truthy n
     then Some n else None).
Proof.
  unfold shownDefault, shownNamespace. cbn.
  destruct (isUsed t n); cbn; rewrite ?orb_true_r, ?orb_false_r; auto.
Qed.



(** A registry whose one binding is a default binding of empty name: the
    statement imports the module alone. *)
Example generate_side_effect_import :
  generate MoreVocabulary.emptyDefault = "import " +++ dq +++ "m" +++ dq +++ ";".
Proof. reflexivity. Qed.

(** X5.  A call that marks or reconciles never adds, removes, renames or
    reorders a binding and never clears a used flag; in a chain of such
    calls the named bindings keep their keys in order and the flags only
    grow, and so do those of the default and namespace bindings. *)
Theorem marks_only_set_flags (cs : list Call) (b : ImportsBuilderImpl) :
  forallb marks cs = true ->
  Forall2 keptNamed (namedImports b) (namedImports (chain cs b)) /\
  keptSingle (defaultImport b) (defaultImport (chain cs b)) /\
  keptSingle (namespaceImport b) (namespaceImport (chain cs b)) /\
  moduleSpecifier (chain cs b) = moduleSpecifier b /\
  options (chain cs b) = options b.
Proof.
  unfold chain. revert b. induction cs as [|c cs IH]; intros b H.
  - cbn. repeat split; auto using keptNamed_refl, keptSingle_refl.
  - cbn [forallb] in H. apply andb_prop in H. destruct H as [Hc H].
    cbn [fold_left]. destruct (IH (call c b) H) as (I1 & I2 & I3 & I4 & I5).
    assert (Hstep :
      Forall2 keptNamed (namedImports b) (namedImports (call c b)) /\
      keptSingle (defaultImport b) (defaultImport (call c b)) /\
      keptSingle (namespaceImport b) (namespaceImport (call c b)) /\
      moduleSpecifier (call c b) = moduleSpecifier b /\
      options (call c b) = options b).
    { destruct c; try discriminate; cbn [call].
      - cbn. repeat split; auto using markFirst_keys, keptSingle_refl.
      - cbn. repeat split; auto using keptNamed_refl, keptSingle_refl.
        destruct (defaultImport b); cbn; auto.
      - cbn. repeat split; auto using keptNamed_refl, keptSingle_refl.
        destruct (namespaceImport b); cbn; auto.
      - cbn. repeat split; auto using reconcile_keys.
        + destruct (defaultImport b) as [d|]; cbn; auto.
          destruct (isUsed t (sname d)); cbn; auto.
        + destruct (namespaceImport b) as [d|]; cbn; auto.
          destruct (isUsed t (sname d)); cbn; auto. }
    destruct Hstep as (S1 & S2 & S3 & S4 & S5).
    repeat split.
    + clear -I1 S1. revert I1. generalize (namedImports
        (fold_left (fun b0 c0 => call c0 b0) cs (call c b))).
      induction S1 as [|x y l l' [K U] _ IHs]; intros l2 I1;
        inversion I1 as [|y' z l'' l2' [K' U'] T]; subst; constructor.
      * split; [congruence | auto].
      * now apply IHs.
    + clear -I2 S2. destruct (defaultImport b), (defaultImport (call c b));
        cbn in *; try contradiction;
        destruct (defaultImport (fold_left _ cs (call c b)));
        cbn in *; try contradiction; auto.
      destruct S2 as [A B], I2 as [C D]. split; [congruence | auto].
    + clear -I3 S3. destruct (namespaceImport b), (namespaceImport (call c b));
        cbn in *; try contradiction;
        destruct (namespaceImport (fold_left _ cs (call c b)));
        cbn in *; try contradiction; auto.
      destruct S3 as [A B], I3 as [C D]. split; [congruence | auto].
    + congruence.
    + congruence.
Qed.

Lemma marks_only_set_flags_witness :
  Forall2 keptNamed (namedImports Inputs.aliased)
          (namedImports (chain [CMarkUsed "Type"; CMarkUsedFromTracker ["x"]]
                               Inputs.aliased)) /\
  map used (namedImports (chain [CMarkUsed "Type"; CMarkUsedFromTracker ["x"]]
                                Inputs.aliased)) = [true].
Proof.
  split; [|reflexivity].
  exact (proj1 (marks_only_set_flags
                  [CMarkUsed "Type"; CMarkUsedFromTracker ["x"]]
                  Inputs.aliased eq_refl)).
Defined.

(** X6.  [markUsed(name)] marks the first binding with that source name and
    no other: a second binding of the same name under another alias stays
    as it is. *)
Theorem markUsed_marks_first_only
        (pre post : list NamedImportDefinition) (imp : NamedImportDefinition) :
  (forall i, In i pre -> name i <> name imp) ->
  markFirst (name imp) (pre ++ imp :: post) = pre ++ setUsed imp :: post.
Proof.
  intros H. induction pre as [|i pre IH]; cbn.
  - now rewrite String.eqb_refl.
  - destruct (String.eqb_spec (name i) (name imp)) as [E|_].
    + exfalso. apply (H i); auto. now left.
    + f_equal. apply IH. intros j Hj. apply H. now right.
Qed.

Lemma markUsed_marks_first_only_witness :
  namedImports
    (markUsed "a" (named "a" (Some "b") (named "a" None (new "m" defaultOptions))))
  = [mkNamed "a" None true; mkNamed "a" (Some "b") false].
Proof.
  exact (markUsed_marks_first_only [] [mkNamed "a" (Some "b") false]
           (mkNamed "a" None false) (fun i (H : In i []) => match H with end)).
Defined.

Lemma markUsedFromTracker_ext (t t' : TypeUsageTracker)
      (b : ImportsBuilderImpl) :
  (forall x, isUsed t x = isUsed t' x) ->
  markUsedFromTracker t b = markUsedFromTracker t' b.
Proof.
  intros H. unfold markUsedFromTracker, reconcileSingle.
  f_equal.
  - apply map_ext. intros i. unfold reconcileNamed. now rewrite H.
  - destruct (defaultImport b); [now rewrite H | reflexivity].
  - destruct (namespaceImport b); [now rewrite H | reflexivity].
Qed.

(** X7.  Reconciliation reads the tracker through [isUsed] only: two
    trackers that report the same names leave the same registry, and a
    tracker that reports more names marks at least the same bindings. *)
Theorem reconcile_by_membership (t t' : TypeUsageTracker)
        (b : ImportsBuilderImpl) :
  ((forall x, isUsed t x = isUsed t' x) ->
   markUsedFromTracker t b = markUsedFromTracker t' b) /\
  ((forall x, isUsed t x = true -> isUsed t' x = true) ->
   Forall2 keptNamed (namedImports (markUsedFromTracker t b))
                     (namedImports (markUsedFromTracker t' b))).
Proof.
  split; [apply markUsedFromTracker_ext|].
  intros H.
  { cbn. induction (namedImports b) as [|i l IH]; cbn;
      constructor; [|exact IH].
    unfold reconcileNamed. destruct (isUsed t (name i)) eqn:E.
    + rewrite (H _ E). now split.
    + destruct (isUsed t' (name i)); now split. }
Qed.

Lemma reconcile_by_membership_witness :
  markUsedFromTracker ["User"; "Role"] Inputs.styled =
  markUsedFromTracker ["Role"; "User"; "Role"] Inputs.styled.
Proof.
  apply (proj1 (reconcile_by_membership ["User"; "Role"]
                  ["Role"; "User"; "Role"] Inputs.styled)).
  intros x. unfold isUsed, has. cbn.
  destruct (String.eqb x "User"), (String.eqb x "Role"); reflexivity.
Defined.

End ImportsMore.

(* ================================================================== *)
(** ** The layout of the import statement *)
(* ================================================================== *)

Module ImportsOrder.
Import Tracker Imports Vocabulary ImportsOps MoreVocabulary.











(** A double quote and a backslash in the module specifier are escaped. *)
Example module_specifier_is_escaped :
  generate quotedModule =
    "import { x } from " +++ dq +++ "a" +++ bs +++ dq +++ "b" +++ bs +++ bs
    +++ "c" +++ dq +++ ";".
Proof. reflexivity. Qed.

End ImportsOrder.

(* ================================================================== *)
(** ** More properties of the usage tracker *)
(* ================================================================== *)

Module TrackerMore.
Import Regex Tracker Vocabulary MoreVocabulary TrackerFacts.

(** *** What a pattern cannot match *)

Lemma needs_tail (p : ascii -> bool) (a : atom) (r : regex) :
  needs p (a :: r) ->
  match a with AChar _ => True | _ => needs p r end.
Proof.
  intros Hn. inversion Hn as [x l Ha|x l Ha]; subst; destruct a; auto;
    destruct Ha.
Qed.

Lemma matchHere_needs (p : ascii -> bool) (r : regex) :
  needs p r ->
  forall prev rest pos go gc m,
    matchHere r prev rest pos go gc = Some m -> existsb p rest = true.
Proof.
  induction r as [|x r IH]; intros Hn prev rest pos go gc m H;
    [inversion Hn|].
  pose proof (needs_tail p x r Hn) as Hr.
  destruct x; cbn [matchHere] in H.
  - destruct rest as [|c rest]; [discriminate|].
    destruct (p0 c) eqn:Ec; [|discriminate]. cbn [existsb].
    inversion Hn as [a l Ha|a l Ha]; subst.
    + now rewrite (Ha c Ec).
    + rewrite (IH Ha _ _ _ _ _ _ H). apply orb_true_r.
  - revert prev pos H. induction rest as [|c rest IHr]; intros prev pos H.
    + now apply (IH Hr) in H.
    + destruct (p0 c); [|now apply (IH Hr) in H].
      inner_match H E; [|now apply (IH Hr) in H].
      injection H as ->. cbn [existsb]. rewrite (IHr _ _ E). apply orb_true_r.
  - revert prev pos H. induction rest as [|c rest IHr]; intros prev pos H.
    + inner_match H E; [|discriminate]. injection H as ->.
      now apply (IH Hr) in E.
    + inner_match H E; [injection H as ->; now apply (IH Hr) in E|].
      destruct (p0 c); [|discriminate].
      cbn [existsb]. rewrite (IHr _ _ H). apply orb_true_r.
  - destruct (wordBoundary prev rest); [|discriminate]. now apply (IH Hr) in H.
  - now apply (IH Hr) in H.
  - now apply (IH Hr) in H.
Qed.

(** A pattern finds nothing in a text without any code unit of a class that
    the pattern needs. *)
Lemma execLoop_needs (p : ascii -> bool) (r : regex) :
  needs p r ->
  forall rest prev skip, existsb p rest = false -> execLoop r prev rest skip = [].
Proof.
  intros Hn. induction rest as [|c rest IH]; intros prev skip He.
  - destruct skip; cbn [execLoop]; [|reflexivity].
    destruct (matchHere r prev [] 0 0 0) as [[[len go] gc]|] eqn:E;
      [|reflexivity].
    apply (matchHere_needs p r Hn) in E. discriminate.
  - assert (He' : existsb p rest = false)
      by (cbn [existsb] in He; now apply orb_false_elim in He).
    destruct skip; cbn [execLoop]; [|now apply IH].
    destruct (matchHere r prev (c :: rest) 0 0 0) as [[[len go] gc]|] eqn:E;
      [|now apply IH].
    apply (matchHere_needs p r Hn) in E. congruence.
Qed.

(** A pattern that begins with a literal word matches only where the word
    stands. *)
Lemma matchHere_lit (w : list ascii) (r : regex) :
  forall prev rest pos go gc m,
    matchHere (map (fun d => AChar (isChar d)) w ++ r) prev rest pos go gc
      = Some m ->
    exists tail, rest = w ++ tail.
Proof.
  induction w as [|d w IH]; intros prev rest pos go gc m H.
  - now exists rest.
  - cbn [map app matchHere] in H.
    destruct rest as [|c rest]; [discriminate|].
    unfold isChar in H. destruct (Ascii.eqb_spec d c) as [->|_]; [|discriminate].
    apply IH in H. destruct H as [tail ->]. now exists tail.
Qed.

Lemma prefix_app (w tail : list ascii) :
  String.prefix (string_of_list_ascii w) (string_of_list_ascii (w ++ tail))
    = true.
Proof.
  induction w as [|d w IH]; cbn.
  - now destruct (string_of_list_ascii tail).
  - destruct (ascii_dec d d); [exact IH | contradiction].
Qed.

Lemma execLoop_lit (w : string) (r : regex) :
  forall rest prev skip,
    occursIn w (string_of_list_ascii rest) = false ->
    execLoop (lit w ++ r) prev rest skip = [].
Proof.
  assert (Hm : forall prev rest,
             String.prefix w (string_of_list_ascii rest) = false ->
             matchHere (lit w ++ r) prev rest 0 0 0 = None).
  { intros prev rest Hp.
    destruct (matchHere (lit w ++ r) prev rest 0 0 0) as [m|] eqn:E;
      [|reflexivity].
    unfold lit in E. apply matchHere_lit in E. destruct E as [tail ->].
    rewrite <- (string_of_list_ascii_of_string w) in Hp at 1.
    now rewrite prefix_app in Hp. }
  induction rest as [|c rest IH]; intros prev skip Ho.
  - destruct skip; cbn [execLoop]; [|reflexivity].
    rewrite Hm; [reflexivity|].
    cbn in Ho. now apply orb_false_elim in Ho.
  - cbn [string_of_list_ascii occursIn] in Ho.
    apply orb_false_elim in Ho. destruct Ho as [Hp Ho].
    destruct skip; cbn [execLoop]; [|now apply IH].
    rewrite (Hm prev (c :: rest) Hp). now apply IH.
Qed.

Lemma execAll_lit (w : string) (r : regex) (code : string) :
  occursIn w code = false -> execAll (lit w ++ r) code = [].
Proof.
  intros H. unfold execAll. apply execLoop_lit.
  now rewrite string_of_list_ascii_of_string.
Qed.

Lemma execAll_needs (p : ascii -> bool) (r : regex) (code : string) :
  needs p r -> without p code -> execAll r code = [].
Proof. intros Hn Hw. unfold execAll. now apply execLoop_needs with p. Qed.

Lemma execLoop_typeReference (rest : list ascii) :
  forall prev skip,
    capitalisedWord prev rest = false ->
    execLoop typeReferenceRegex prev rest skip = [].
Proof.
  induction rest as [|c rest IH]; intros prev skip H.
  - destruct skip; cbn [execLoop]; [|reflexivity].
    unfold typeReferenceRegex. cbn [matchHere].
    now destruct (wordBoundary prev []).
  - cbn [capitalisedWord] in H. apply orb_false_elim in H.
    destruct H as [Hc H].
    destruct skip; cbn [execLoop]; [|now apply IH].
    assert (Hm : matchHere typeReferenceRegex prev (c :: rest) 0 0 0 = None).
    { unfold typeReferenceRegex. cbn [matchHere].
      destruct (isUpper c) eqn:Eu.
      - rewrite andb_true_r in Hc. apply negb_false_iff in Hc.
        unfold wordBoundary. cbn [hd_error isWordAt]. rewrite Hc.
        unfold isIdentPart. rewrite Eu. cbn. now rewrite orb_true_r.
      - now destruct (wordBoundary prev (c :: rest)). }
    rewrite Hm. now apply IH.
Qed.

(** X8.  What the string scan cannot see: in a fragment with no quote
    character, no colon, no word that starts with a capital letter and none
    of the words [extends], [implements], [typeof] and [keyof],
    [scanString] finds nothing and leaves the tracker as it was. *)
Theorem scanString_blind_spot (code : string) (t : TypeUsageTracker) :
  without isQuote code -> without (isChar ":") code ->
  capitalisedWord None (list_ascii_of_string code) = false ->
  occursIn "extends" code = false -> occursIn "implements" code = false ->
  occursIn "typeof" code = false -> occursIn "keyof" code = false ->
  scanString code t = t.
Proof.
  intros Hq Hc Hu He Hi Ht Hk. unfold scanString.
  rewrite (execAll_needs isQuote stringLiteralRegex code);
    [|apply Exists_cons_hd; now intros c H|exact Hq].
  replace (execAll typeReferenceRegex code) with (@nil string)
    by (symmetry; apply (execLoop_typeReference _ None 0 Hu)).
  unfold patterns. cbn [fold_left addMatches].
  rewrite (execAll_needs (isChar ":")
             ([AChar (isChar ":"); AStar isSpace] ++ identGroup) code);
    [|apply Exists_cons_hd; now intros c H|exact Hc].
  rewrite (execAll_lit "extends" _ code He).
  rewrite (execAll_lit "implements" _ code Hi).
  rewrite (execAll_lit "typeof" _ code Ht).
  rewrite (execAll_lit "keyof" _ code Hk).
  reflexivity.
Qed.

Lemma scanString_blind_spot_witness :
  scanString "if (isReady) { run(); }" ["Seen"] = ["Seen"].
Proof.
  apply scanString_blind_spot; reflexivity.
Defined.

(** *** Guards of the loops *)

Lemma has_nonEmpty (x : string) (ms : list string) :
  isEmpty x = false -> has x (nonEmpty ms) = has x ms.
Proof.
  intros Hx. induction ms as [|m ms IH]; [reflexivity|].
  change (nonEmpty (m :: ms))
    with ((if isEmpty m then [] else [m]) ++ nonEmpty ms).
  rewrite has_app, IH. cbn [has existsb].
  destruct (isEmpty m) eqn:Em; cbn [has existsb]; [|now rewrite orb_false_r].
  destruct m; [|discriminate]. destruct x; [discriminate | reflexivity].
Qed.

Lemma empty_not_in_nonEmpty (ms : list string) : has "" (nonEmpty ms) = false.
Proof.
  induction ms as [|m ms IH]; [reflexivity|].
  change (nonEmpty (m :: ms))
    with ((if isEmpty m then [] else [m]) ++ nonEmpty ms).
  rewrite has_app, IH. now destruct m.
Qed.

Lemma empty_not_in_identifiersAdded (ms : list string) :
  has "" (identifiersAdded ms) = false.
Proof.
  induction ms as [|m ms IH]; cbn [identifiersAdded]; [reflexivity|].
  destruct (isEmpty m) eqn:Em; [reflexivity|].
  destruct (isKeyword m); [exact IH|]. cbn [has existsb].
  fold (has "" (identifiersAdded ms)). rewrite IH. now destruct m.
Qed.

Lemma has_flat_map_false {A : Type} (x : string) (g : A -> list string)
      (l : list A) :
  (forall a, has x (g a) = false) -> has x (flat_map g l) = false.
Proof.
  intros H. induction l as [|a l IH]; cbn [flat_map]; [reflexivity|].
  now rewrite has_app, H, IH.
Qed.

(** X9.  No scan ever puts the empty string into the set. *)
Theorem scan_never_adds_empty (code : string) (t : TypeUsageTracker) :
  has "" (scanString code t) = has "" t.
Proof.
  rewrite (Adds_scanString code t ""). unfold codeIdentifiers.
  rewrite !has_app, empty_not_in_nonEmpty.
  rewrite (has_flat_map_false "" _ (execAll stringLiteralRegex code)).
  - rewrite (has_flat_map_false "" _ patterns).
    + now rewrite !orb_false_r.
    + intros r. apply empty_not_in_nonEmpty.
  - intros c. destruct (isEmpty c); [reflexivity|].
    unfold contentIdentifiers.
    now rewrite has_app, empty_not_in_nonEmpty, empty_not_in_identifiersAdded.
Qed.

(** X10.  Inside string-literal content a keyword of the list enters the
    set in one way only: as the word in front of a parenthesis, through the
    function-call pattern. *)
Theorem keyword_only_as_callee (content kw : string) (t : TypeUsageTracker) :
  isKeyword kw = true ->
  has kw (scanStringContent content t) =
  has kw t || has kw (execAll functionCallRegex content).
Proof.
  intros Hk. rewrite (Adds_scanStringContent content t kw).
  unfold contentIdentifiers.
  rewrite has_app, (identifiersAdded_no_keyword _ kw Hk), orb_false_r.
  rewrite has_nonEmpty; [reflexivity|]. now destruct kw.
Qed.

Lemma keyword_only_as_callee_witness :
  has "return" (scanStringContent "return compute(x); while (busy) wait();" [])
    = false /\
  has "while" (scanStringContent "return compute(x); while (busy) wait();" [])
    = true.
Proof.
  split.
  - now rewrite (keyword_only_as_callee _ "return" [] eq_refl).
  - now rewrite (keyword_only_as_callee _ "while" [] eq_refl).
Defined.

(** X25.  The tracker accumulates as a set: a scan never removes an
    identifier, scanning the same text again adds nothing, and two scans
    report the same identifiers in either order. *)
Theorem scans_accumulate (code1 code2 : string) (t : TypeUsageTracker)
        (x : string) :
  implb (isUsed t x) (isUsed (scanString code1 t) x) = true /\
  isUsed (scanString code1 (scanString code1 t)) x =
    isUsed (scanString code1 t) x /\
  isUsed (scanString code2 (scanString code1 t)) x =
    isUsed (scanString code1 (scanString code2 t)) x.
Proof.
  unfold isUsed.
  rewrite (TrackerFacts.scanString_has code1 (scanString code1 t)),
    (TrackerFacts.scanString_has code2 (scanString code1 t)),
    (TrackerFacts.scanString_has code1 (scanString code2 t)),
    (TrackerFacts.scanString_has code1 t),
    (TrackerFacts.scanString_has code2 t).
  destruct (has x t), (has x (scanString code1 empty)),
    (has x (scanString code2 empty)); cbn; repeat split; auto.
Qed.

End TrackerMore.

(* ================================================================== *)
(** ** Properties of the scan of a syntax tree *)
(* ================================================================== *)

Module TsAstFacts.
Import Tracker Vocabulary TrackerFacts TsAst.

(** Induction over a tree and the lists of children in it. *)
Lemma TsNode_induction (P : TsNode -> Prop) :
  (forall text, P (Identifier text)) ->
  (forall l r, P l -> P (QualifiedName l r)) ->
  (forall tn args, P tn -> Forall P args -> P (TypeReference tn args)) ->
  (forall e n, P e -> P n -> P (PropertyAccessExpression e n)) ->
  (forall e ta args, P e -> Forall P ta -> Forall P args ->
                     P (CallExpression e ta args)) ->
  (forall cs, Forall P cs -> P (Other cs)) ->
  forall n, P n.
Proof.
  intros H1 H2 H3 H4 H5 H6.
  exact (fix IH (n : TsNode) : P n :=
           let all :=
             fix all (l : list TsNode) : Forall P l :=
               match l with
               | [] => Forall_nil P
               | c :: l' => Forall_cons c (IH c) (all l')
               end in
           match n with
           | Identifier text => H1 text
           | QualifiedName l r => H2 l r (IH l)
           | TypeReference tn args => H3 tn args (IH tn) (all args)
           | PropertyAccessExpression e m => H4 e m (IH e) (IH m)
           | CallExpression e ta args => H5 e ta args (IH e) (all ta) (all args)
           | Other cs => H6 cs (all cs)
           end).
Qed.

Lemma Adds_scanQualifiedName (l : TsNode) (r : string) :
  Adds (scanQualifiedName l r) (qualifiedAdds l r).
Proof.
  revert r. induction l as [text|l IHl r'| | | |] ; intros r;
    cbn [scanQualifiedName qualifiedAdds].
  - apply (Adds_comp (add text) (add r)); apply Adds_add.
  - apply (Adds_comp (scanQualifiedName l r') (add r)); [apply IHl | apply Adds_add].
  - apply (Adds_comp (fun t => t) (add r)); [apply Adds_id | apply Adds_add].
  - apply (Adds_comp (fun t => t) (add r)); [apply Adds_id | apply Adds_add].
  - apply (Adds_comp (fun t => t) (add r)); [apply Adds_id | apply Adds_add].
  - apply (Adds_comp (fun t => t) (add r)); [apply Adds_id | apply Adds_add].
Qed.

Lemma Adds_visitSwitch (n : TsNode) : Adds (visitSwitch n) (switchAdds n).
Proof.
  destruct n as [text|l r|tn args|e m|e ta args|cs];
    cbn [visitSwitch switchAdds].
  - apply Adds_add.
  - apply Adds_scanQualifiedName.
  - destruct tn; try apply Adds_id;
      [apply Adds_add | apply Adds_scanQualifiedName].
  - destruct e; cbn [addIfIdentifier]; try apply Adds_id. apply Adds_add.
  - destruct e; cbn [addIfIdentifier]; try apply Adds_id. apply Adds_add.
  - apply Adds_id.
Qed.

Lemma qualifiedAdds_sub (l : TsNode) (r x : string) :
  has x (qualifiedAdds l r) = true -> has x (identifiers l ++ [r]) = true.
Proof.
  assert (Hr : forall i, has x ([] ++ [r]) = true -> has x (i ++ [r]) = true).
  { intros i H. rewrite has_app. cbn [app] in H. rewrite H. apply orb_true_r. }
  revert r Hr. induction l as [text|l IHl r'| | | |]; intros r Hr;
    cbn [qualifiedAdds]; try apply Hr.
  - auto.
  - cbn [identifiers]. rewrite !has_app. intros H.
    apply orb_true_iff in H. destruct H as [H|H].
    + apply IHl in H.
      * rewrite has_app in H. now rewrite H.
      * intros i K. rewrite has_app. cbn [app] in K. rewrite K.
        apply orb_true_r.
    + rewrite H. apply orb_true_r.
Qed.

Lemma switchAdds_sub (n : TsNode) (x : string) :
  has x (switchAdds n) = true -> has x (identifiers n) = true.
Proof.
  destruct n as [text|l r|tn args|e m|e ta args|cs];
    cbn [switchAdds identifiers]; auto.
  - apply qualifiedAdds_sub.
  - destruct tn as [text|l r| | | |]; try discriminate.
    + cbn [identifiers]. rewrite has_app. intros H. now rewrite H.
    + intros H. apply qualifiedAdds_sub in H.
      change (has x ((identifiers l ++ [r]) ++ identifiersAll args) = true).
      rewrite has_app, H. reflexivity.
  - destruct e; try discriminate. cbn [identifiers]. rewrite has_app.
    intros H. now rewrite H.
  - destruct e; try discriminate. cbn [identifiers]. rewrite has_app.
    intros H. now rewrite H.
  - discriminate.
Qed.

Lemma visitAll_has (l : list TsNode) :
  Forall (fun c => forall t x, has x (visit c t) =
                               has x t || has x (identifiers c)) l ->
  forall t x, has x (visitAll l t) = has x t || has x (identifiersAll l).
Proof.
  induction 1 as [|c l Hc _ IH]; intros t x; cbn [visitAll identifiersAll].
  - now rewrite orb_false_r.
  - change (has x (visitAll l (visit c t)) =
            has x t || has x (identifiers c ++ identifiersAll l)).
    rewrite IH, Hc, has_app. now rewrite orb_assoc.
Qed.

(** X11.  [scanNode] adds the text of every identifier of the tree, and
    nothing else: the names it reports afterwards are those it reported
    before and the identifiers that occur anywhere in the tree, each part of
    a qualified name included. *)
Theorem scanNode_collects_identifiers (n : TsNode) :
  forall t x, isUsed (scanNode n t) x = isUsed t x || has x (identifiers n).
Proof.
  unfold scanNode, isUsed.
  induction n as [text|l r IHl|tn args IHtn IHargs|e m IHe IHm
                  |e ta args IHe IHta IHargs|cs IHcs] using TsNode_induction;
    intros t x.
  - cbn [visit visitSwitch identifiers]. apply Adds_add.
  - change (visit (QualifiedName l r) t)
      with (add r (visit l (visitSwitch (QualifiedName l r) t))).
    rewrite (Adds_add r), IHl, (Adds_visitSwitch (QualifiedName l r)).
    cbn [identifiers]. rewrite has_app.
    pose proof (switchAdds_sub (QualifiedName l r) x) as Hs.
    cbn [identifiers] in Hs. rewrite has_app in Hs.
    destruct (has x t), (has x (switchAdds (QualifiedName l r))),
      (has x (identifiers l)), (has x [r]); cbn in *; auto;
      now specialize (Hs eq_refl).
  - change (visit (TypeReference tn args) t)
      with (visitAll args (visit tn (visitSwitch (TypeReference tn args) t))).
    rewrite (visitAll_has args IHargs), IHtn,
      (Adds_visitSwitch (TypeReference tn args)).
    change (identifiers (TypeReference tn args))
      with (identifiers tn ++ identifiersAll args).
    rewrite has_app.
    pose proof (switchAdds_sub (TypeReference tn args) x) as Hs.
    change (identifiers (TypeReference tn args))
      with (identifiers tn ++ identifiersAll args) in Hs.
    rewrite has_app in Hs.
    destruct (has x t), (has x (switchAdds (TypeReference tn args))),
      (has x (identifiers tn)), (has x (identifiersAll args)); cbn in *; auto;
      now specialize (Hs eq_refl).
  - change (visit (PropertyAccessExpression e m) t)
      with (visit m (visit e (visitSwitch (PropertyAccessExpression e m) t))).
    rewrite IHm, IHe, (Adds_visitSwitch (PropertyAccessExpression e m)).
    cbn [identifiers]. rewrite has_app.
    pose proof (switchAdds_sub (PropertyAccessExpression e m) x) as Hs.
    cbn [identifiers] in Hs. rewrite has_app in Hs.
    destruct (has x t), (has x (switchAdds (PropertyAccessExpression e m))),
      (has x (identifiers e)), (has x (identifiers m)); cbn in *; auto;
      now specialize (Hs eq_refl).
  - change (visit (CallExpression e ta args) t)
      with (visitAll args
              (visitAll ta (visit e (visitSwitch (CallExpression e ta args) t)))).
    rewrite (visitAll_has args IHargs), (visitAll_has ta IHta), IHe,
      (Adds_visitSwitch (CallExpression e ta args)).
    change (identifiers (CallExpression e ta args))
      with (identifiers e ++ identifiersAll ta ++ identifiersAll args).
    rewrite !has_app.
    pose proof (switchAdds_sub (CallExpression e ta args) x) as Hs.
    change (identifiers (CallExpression e ta args))
      with (identifiers e ++ identifiersAll ta ++ identifiersAll args) in Hs.
    rewrite !has_app in Hs.
    destruct (has x t), (has x (switchAdds (CallExpression e ta args))),
      (has x (identifiers e)), (has x (identifiersAll ta)),
      (has x (identifiersAll args)); cbn in *; auto;
      now specialize (Hs eq_refl).
  - change (visit (Other cs) t) with (visitAll cs (visitSwitch (Other cs) t)).
    rewrite (visitAll_has cs IHcs). reflexivity.
Qed.

(** The reference [Foo.Bar<Baz>]: the three names are reported. *)
Example scanNode_qualified_name :
  scanNode fooBar empty = ["Foo"; "Bar"; "Baz"].
Proof. reflexivity. Qed.

End TsAstFacts.

(* ================================================================== *)
(** ** More properties of the section assembler *)
(* ================================================================== *)

Module SectionMore.
Import Tracker SectionM Vocabulary MoreVocabulary.

Lemma existsb_perm {A : Type} (f : A -> bool) (l l' : list A) :
  Permutation l l' -> existsb f l = existsb f l'.
Proof.
  induction 1 as [|x l l' _ IH|x y l|l l' l'' _ IH1 _ IH2]; cbn.
  - reflexivity.
  - now rewrite IH.
  - now rewrite !orb_assoc, (orb_comm (f y) (f x)).
  - congruence.
Qed.

Lemma visited_perm (cmp : string -> string -> comparison) (s : SectionImpl) :
  Permutation (visited cmp s)
              (filter (fun it => negb (isImport it)) (items s)).
Proof.
  unfold visited, sortedNonImportItems.
  rewrite <- (SectionFacts.nonImport_snd (items s)).
  destruct (sortItems (options s)); [|reflexivity].
  apply Permutation_map. apply Permutation_sym, SectionFacts.sortByName_perm.
Qed.

Lemma processImport_by_membership (t t' : TypeUsageTracker) (it : CodeItem) :
  (forall x, isUsed t x = isUsed t' x) ->
  processImport t it = processImport t' it.
Proof.
  intros H. unfold processImport. destruct (importsBuilder it) as [b|]; auto.
  now rewrite (ImportsMore.markUsedFromTracker_ext t t' b H).
Qed.

(** X12.  The import lines of a section depend on its import items and on
    which non-import items it holds, not on the order of the latter: two
    sections with the same import items whose other items are a permutation
    of each other, sorted by name or not and under any collation, render
    the same import lines. *)
Theorem import_lines_ignore_item_order
        (cmp1 cmp2 : string -> string -> comparison) (s1 s2 : SectionImpl) :
  filter isImport (items s1) = filter isImport (items s2) ->
  Permutation (filter (fun it => negb (isImport it)) (items s1))
              (filter (fun it => negb (isImport it)) (items s2)) ->
  importStrings cmp1 s1 = importStrings cmp2 s2.
Proof.
  intros Hi Hp. unfold importStrings, processedImportItems. rewrite Hi.
  f_equal. f_equal. apply map_ext. intros it.
  apply processImport_by_membership. intros x. unfold isUsed.
  rewrite !SectionFacts.usageTracker_has.
  apply existsb_perm.
  rewrite (visited_perm cmp1 s1), (visited_perm cmp2 s2). exact Hp.
Qed.

Lemma import_lines_ignore_item_order_witness :
  importStrings Inputs.ordinalCompare Inputs.importThenUse =
  importStrings (fun _ _ => Eq) Inputs.useThenImport.
Proof.
  apply import_lines_ignore_item_order; reflexivity.
Defined.

(** X13.  Every import line of a section whose import items carry their
    registry (as [addImports] makes them) is a printed import statement: no
    empty or blank line ever stands among them, and there are at most as
    many lines as import items. *)
Theorem import_lines_are_statements
        (cmp : string -> string -> comparison) (s : SectionImpl) :
  (forall it, In it (items s) -> isImport it = true ->
              importsBuilder it <> None) ->
  Forall isImportLine (importStrings cmp s) /\
  List.length (importStrings cmp s) <=
  List.length (filter isImport (items s)).
Proof.
  intros Hb. unfold importStrings, processedImportItems.
  assert (Hall : forall it, In it (filter isImport (items s)) ->
                            importsBuilder it <> None).
  { intros it Hin. apply filter_In in Hin. now apply Hb. }
  clear Hb. set (t := usageTracker cmp s). clearbody t.
  induction (filter isImport (items s)) as [|it l IH]; cbn [map filter flat_map].
  - split; [constructor | reflexivity].
  - destruct IH as [IH1 IH2]; [intros j Hj; apply Hall; now right|].
    destruct (importsBuilder it) as [b|] eqn:Eb;
      [|exfalso; apply (Hall it); [now left | exact Eb]].
    destruct (Imports.generateDecl (Imports.markUsedFromTracker t b))
      as [d|] eqn:Ed.
    + destruct (ImportsFacts.generate_some_not_blank _ d Ed) as [rest Hr].
      destruct (SectionFacts.processImport_text t it b rest Eb Hr) as [H1 H2].
      rewrite H1. cbn [flat_map]. rewrite H2. cbn [app List.length]. split.
      * constructor; [now exists rest | exact IH1].
      * lia.
    + assert (Hg : Imports.generate (Imports.markUsedFromTracker t b) = "")
        by (unfold Imports.generate; now rewrite Ed).
      rewrite (SectionFacts.processImport_blank t it b Eb Hg).
      split; [exact IH1 | cbn [List.length]; lia].
Qed.

Lemma import_lines_are_statements_witness :
  Forall isImportLine (importStrings Inputs.ordinalCompare Inputs.reactSection).
Proof.
  apply (import_lines_are_statements Inputs.ordinalCompare Inputs.reactSection).
  intros it [<-|[<-|[]]]; intros H; [discriminate | discriminate].
Defined.

(** X14.  A second call of [generate()] on a section finds the registries
    as the first call left them and leaves them so: the import lines are
    those of the first call and the import items do not change any more. *)
Theorem import_lines_stable (cmp : string -> string -> comparison)
        (s : SectionImpl) :
  importStrings cmp (stateAfter cmp s) = importStrings cmp s /\
  filter isImport (items (stateAfter cmp (stateAfter cmp s))) =
  filter isImport (items (stateAfter cmp s)).
Proof.
  split; [apply SectionFacts.importStrings_stateAfter|].
  rewrite (SectionFacts.importItems_stateAfter cmp (stateAfter cmp s)).
  rewrite SectionFacts.usageTracker_stateAfter.
  rewrite (SectionFacts.importItems_stateAfter cmp s), map_map.
  apply map_ext. intros it. apply SectionFacts.processImport_idem.
Qed.

(** X15.  A section that holds imports and pre-rendered text only (no
    syntax node) returns the same text at every call of [generate()]. *)
Theorem text_sections_are_idempotent
        (cmp : string -> string -> comparison)
        (printComment : SynthesizedComment -> string) (s : SectionImpl) :
  (forall it, In it (items s) -> isImport it = false ->
              exists text, node it = NString text) ->
  generateText cmp printComment (stateAfter cmp s) =
  generateText cmp printComment s.
Proof.
  intros H. apply SectionFacts.generateText_stateAfter_strings.
  unfold astNodes.
  assert (Hv : forall p, In p (sortedNonImportItems cmp s) ->
                         exists text, node (snd p) = NString text).
  { intros p Hp. pose proof (SectionFacts.sorted_nonImport cmp s p Hp) as Hi.
    apply H; [|exact Hi].
    assert (Hin : In (snd p) (visited cmp s)) by (now apply in_map).
    apply (Permutation_in _ (visited_perm cmp s)) in Hin.
    now apply filter_In in Hin. }
  induction (sortedNonImportItems cmp s) as [|p l IH]; [reflexivity|].
  cbn [flat_map]. destruct (Hv p (or_introl eq_refl)) as [text ->].
  apply IH. intros q Hq. apply Hv. now right.
Qed.

Lemma text_sections_are_idempotent_witness :
  generateText Inputs.ordinalCompare Inputs.writeComment
               (stateAfter Inputs.ordinalCompare Inputs.reactSection) =
  generateText Inputs.ordinalCompare Inputs.writeComment Inputs.reactSection.
Proof.
  apply text_sections_are_idempotent.
  intros it [<-|[<-|[]]] Hi; [discriminate | now eexists].
Defined.

Lemma itemAfter_label (cmp : string -> string -> comparison)
      (s : SectionImpl) (p : nat * CodeItem) :
  label (itemAfter cmp s p) = label (snd p).
Proof.
  destruct p as [i [ty nm nd ib]]. unfold itemAfter, label. cbn [snd fst].
  destruct (isImport (mkItem ty nm nd ib)).
  - now destruct (SectionFacts.processImport_type (usageTracker cmp s)
                   (mkItem ty nm nd ib)) as [-> ->].
  - cbn [node]. destruct nd as [x|n]; [reflexivity|].
    destruct (commentedIndex cmp s) as [j|]; [|reflexivity].
    destruct (Nat.eqb j i); reflexivity.
Qed.

(** X16.  [generate()] never adds, removes, reorders or renames an item of
    the section, and it leaves the text of every non-import item as it
    was. *)
Theorem generate_keeps_items (cmp : string -> string -> comparison)
        (s : SectionImpl) :
  map label (items (stateAfter cmp s)) = map label (items s) /\
  map generatedCodeOf
      (filter (fun it => negb (isImport it)) (items (stateAfter cmp s))) =
  map generatedCodeOf (filter (fun it => negb (isImport it)) (items s)).
Proof.
  cbn [items stateAfter]. unfold indexed. generalize 0.
  induction (items s) as [|x l IH]; intros k; cbn [List.length seq combine map];
    [split; reflexivity|].
  destruct (IH (S k)) as [IH1 IH2].
  pose proof (SectionFacts.itemAfter_type cmp s (k, x)) as [Ht Hn].
  cbn [snd] in Ht, Hn. split.
  - rewrite IH1. f_equal. apply (itemAfter_label cmp s (k, x)).
  - cbn [filter]. rewrite Ht. destruct (isImport x) eqn:Ex; cbn [negb map].
    + exact IH2.
    + rewrite IH2. f_equal.
      apply (SectionFacts.itemAfter_code cmp s (k, x) Ex).
Qed.

(** X17.  With [sortItems] the non-import items are visited in ascending
    order of their names, for any comparison that never puts two names each
    after the other; without it they are visited in the order in which they
    were added.  In both cases every non-import item is visited once. *)
Theorem items_visited_in_order (cmp : string -> string -> comparison)
        (s : SectionImpl) :
  (forall a b, cmp a b = Gt -> cmp b a <> Gt) ->
  Permutation (visited cmp s)
              (filter (fun it => negb (isImport it)) (items s)) /\
  (sortItems (options s) = true ->
   Sorted (fun a b => cmp (name a) (name b) <> Gt) (visited cmp s)) /\
  (sortItems (options s) = false ->
   visited cmp s = filter (fun it => negb (isImport it)) (items s)).
Proof.
  intros Hasym. split; [apply visited_perm|]. split.
  - intros Hs. unfold visited, sortedNonImportItems. rewrite Hs.
    set (R := fun a b : nat * CodeItem =>
                cmp (name (snd a)) (name (snd b)) <> Gt).
    assert (Hins : forall x l, Sorted R l -> Sorted R (insertByName cmp x l)).
    { intros x l Hl. induction Hl as [|y l Hl IHl Hy]; cbn [insertByName].
      - repeat constructor.
      - destruct (cmp (name (snd x)) (name (snd y))) eqn:E.
        + constructor; [now constructor|]. constructor. unfold R.
          now rewrite E.
        + constructor; [now constructor|]. constructor. unfold R.
          now rewrite E.
        + constructor; [exact IHl|].
          destruct l as [|z l]; cbn [insertByName].
          * constructor. unfold R. now apply Hasym.
          * destruct (cmp (name (snd x)) (name (snd z))); constructor;
              try (unfold R; now apply Hasym).
            now inversion Hy. }
    assert (Hsorted : forall l, Sorted R (sortByName cmp l)).
    { induction l as [|x l IHl]; cbn; [constructor | now apply Hins]. }
    generalize (Hsorted (filter (fun p => negb (isImport (snd p)))
                                (indexed (items s)))).
    generalize (sortByName cmp (filter (fun p => negb (isImport (snd p)))
                                       (indexed (items s)))).
    intros l Hl. induction Hl as [|y l Hl IHl Hy]; cbn [map]; constructor;
      [exact IHl|].
    destruct Hy; cbn [map]; constructor. assumption.
  - intros Hs. unfold visited, sortedNonImportItems. rewrite Hs.
    apply SectionFacts.nonImport_snd.
Qed.

Lemma items_visited_in_order_witness :
  map name (visited Inputs.ordinalCompare twoObjects) = ["alpha"; "zeta"] /\
  Sorted (fun a b => Inputs.ordinalCompare (name a) (name b) <> Gt)
         (visited Inputs.ordinalCompare twoObjects).
Proof.
  split; [reflexivity|].
  refine (proj1 (proj2 (items_visited_in_order Inputs.ordinalCompare
                          twoObjects _)) eq_refl).
  intros a b H. unfold Inputs.ordinalCompare in *.
  rewrite String.compare_antisym, H. discriminate.
Defined.

(** X18.  A section that renders no import line and holds no other item
    returns the end comment followed by the section comment: with nothing
    else to carry it, the section comment is put on the end marker, after
    the comment that the marker has already. *)
Theorem empty_section_text (cmp : string -> string -> comparison)
        (printComment : SynthesizedComment -> string) (s : SectionImpl) :
  (forall it, In it (items s) -> isImport it = true) ->
  importStrings cmp s = [] ->
  generateText cmp printComment s =
    printComment (mkComment SingleLineCommentTrivia
                            (" End " +++ sectionName s) true) +++
    printComment (sectionComment s).
Proof.
  intros Hall Hi.
  assert (Hv : visited cmp s = []).
  { pose proof (visited_perm cmp s) as Hp.
    assert (Hf : filter (fun it => negb (isImport it)) (items s) = []).
    { clear -Hall. induction (items s) as [|x l IH]; [reflexivity|].
      cbn [filter]. rewrite (Hall x (or_introl eq_refl)). cbn [negb].
      apply IH. intros it Hin. apply Hall. now right. }
    rewrite Hf in Hp. now apply Permutation_nil, Permutation_sym. }
  unfold generateText.
  rewrite SectionFacts.stringNodes_visited, SectionFacts.astNodes_visited,
    Hv, Hi.
  cbn [flat_map List.length Nat.eqb Nat.ltb Nat.leb andb orb app].
  unfold printNodes, printNode, addSyntheticLeadingComment, endComment.
  cbn [map join leadingComments ownText app fold_right truthy].
  rewrite StringFacts.append_nil_r.
  destruct (printComment _ +++ printComment _) eqn:E; reflexivity.
Qed.

Lemma empty_section_text_witness :
  generateText Inputs.ordinalCompare Inputs.writeComment onlyUnusedImport =
    "// End Empty" +++ nl +++ "/** Empty */" +++ nl.
Proof.
  rewrite (empty_section_text Inputs.ordinalCompare Inputs.writeComment
             onlyUnusedImport).
  - reflexivity.
  - intros it [<-|[]]. reflexivity.
  - reflexivity.
Defined.

(** X23.  The metadata of a section reach its text only when the section
    holds no syntax node: as soon as one non-import item holds a node, the
    text is the same whatever the metadata (and the order) of the section
    are. *)
Theorem metadata_dropped_with_nodes
        (cmp : string -> string -> comparison)
        (printComment : SynthesizedComment -> string) (s : SectionImpl)
        (m : option (list (string * option string)))
        (o : option Js.Number) :
  (exists it n, In it (items s) /\ isImport it = false /\
                node it = NNode n) ->
  generateText cmp printComment (withMetadata m o s) =
  generateText cmp printComment s.
Proof.
  intros (it & n & Hin & Hi & Hn).
  assert (Hs : sortedNonImportItems cmp (withMetadata m o s) =
               sortedNonImportItems cmp s) by reflexivity.
  assert (Hne : map snd (astNodes cmp s) <> []).
  { rewrite SectionFacts.astNodes_visited.
    assert (Hin' : In it (visited cmp s)).
    { apply (Permutation_in _ (Permutation_sym (visited_perm cmp s))).
      apply filter_In. split; [exact Hin | now rewrite Hi]. }
    induction (visited cmp s) as [|x l IH]; [destruct Hin'|].
    cbn [flat_map]. destruct Hin' as [->|Hl].
    - rewrite Hn. discriminate.
    - destruct (node x); cbn [app]; [now apply IH | discriminate]. }
  assert (Hv : visited cmp (withMetadata m o s) = visited cmp s)
    by (unfold visited; now rewrite Hs).
  assert (Himp : importStrings cmp (withMetadata m o s) = importStrings cmp s)
    by reflexivity.
  unfold generateText. unfold sectionComment, endComment.
  rewrite Himp.
  rewrite (SectionFacts.stringNodes_visited cmp (withMetadata m o s)),
    (SectionFacts.astNodes_visited cmp (withMetadata m o s)), Hv.
  rewrite <- (SectionFacts.stringNodes_visited cmp s),
    <- (SectionFacts.astNodes_visited cmp s).
  destruct (map snd (astNodes cmp s)) as [|first others];
    [now contradiction Hne|].
  reflexivity.
Qed.

Lemma metadata_dropped_with_nodes_witness :
  generateText Inputs.ordinalCompare Inputs.writeComment
    (withMetadata (Some [("version", Some "1.0.0")])
                  (Some (Js.Finite (inject_Z 3)))
                  Inputs.importThenUse) =
  generateText Inputs.ordinalCompare Inputs.writeComment Inputs.importThenUse.
Proof.
  apply metadata_dropped_with_nodes.
  exists (mkItem TInterface "UserProfile" (NNode Inputs.userProfile) None),
         Inputs.userProfile.
  split; [right; left; reflexivity | split; reflexivity].
Defined.

Lemma insertByName_filter (cmp : string -> string -> comparison)
      (f : nat * CodeItem -> bool) (x : nat * CodeItem)
      (l : list (nat * CodeItem)) :
  (forall y, f x = true -> f y = true ->
             cmp (name (snd x)) (name (snd y)) <> Gt) ->
  filter f (insertByName cmp x l) = filter f (x :: l).
Proof.
  intros H. induction l as [|y l IH]; cbn [insertByName]; [reflexivity|].
  destruct (cmp (name (snd x)) (name (snd y))) eqn:E; try reflexivity.
  cbn [filter] in *. rewrite IH.
  destruct (f x) eqn:Ex, (f y) eqn:Ey; try reflexivity.
  exfalso. exact (H y eq_refl Ey E).
Qed.

(** X24.  The sort of the items is stable: under [sortItems] too, the
    items of one name are visited in the order in which they were added,
    for any comparison that does not put a name after itself.  So the if
    statements of a section (all named [if]) keep their order, and so do
    its loops. *)
Theorem items_of_one_name_keep_order
        (cmp : string -> string -> comparison) (s : SectionImpl)
        (n : string) :
  (forall a, cmp a a <> Gt) ->
  filter (fun it => String.eqb (name it) n) (visited cmp s) =
  filter (fun it => String.eqb (name it) n)
         (filter (fun it => negb (isImport it)) (items s)).
Proof.
  intros Hirr. unfold visited, sortedNonImportItems.
  rewrite <- (SectionFacts.nonImport_snd (items s)).
  destruct (sortItems (options s)); [|reflexivity].
  rewrite <- !(SectionFacts.filter_snd (fun it => String.eqb (name it) n)).
  f_equal.
  induction (filter (fun p => negb (isImport (snd p))) (indexed (items s)))
    as [|x l IH]; [reflexivity|].
  cbn [sortByName fold_right]. fold (sortByName cmp l).
  rewrite insertByName_filter.
  - cbn [filter]. now rewrite IH.
  - intros y Hx Hy. cbn beta in Hx, Hy.
    apply String.eqb_eq in Hx, Hy. rewrite Hx, Hy. apply Hirr.
Qed.

Lemma items_of_one_name_keep_order_witness :
  map generatedCodeOf (visited Inputs.ordinalCompare fourStatements) =
    ["for (;;) { a; }"; "for (;;) { d; }"; "if (b) { b; }"; "if (c) { c; }"] /\
  map generatedCodeOf
      (filter (fun it => String.eqb (name it) "if")
              (visited Inputs.ordinalCompare fourStatements)) =
    ["if (b) { b; }"; "if (c) { c; }"].
Proof.
  split; [reflexivity|].
  rewrite (items_of_one_name_keep_order Inputs.ordinalCompare
             fourStatements "if").
  - reflexivity.
  - intros a H. unfold Inputs.ordinalCompare in H.
    pose proof (String.compare_antisym a a) as C. rewrite H in C.
    discriminate.
Defined.

End SectionMore.

(* ================================================================== *)
(** ** More properties of the generator and of the statement builders *)
(* ================================================================== *)

Module GeneratorMore.
Import SectionM GeneratorM Vocabulary MoreVocabulary.

Lemma Qle_bool_minus (p q : Q) : Qle_bool (p - q) 0 = Qle_bool p q.
Proof.
  destruct (Qle_bool p q) eqn:E.
  - apply Qle_bool_iff in E. apply Qle_bool_iff. lra.
  - destruct (Qle_bool (p - q) 0) eqn:F; [|reflexivity].
    apply Qle_bool_iff in F. assert (H : (p <= q)%Q) by lra.
    apply Qle_bool_iff in H. congruence.
Qed.

Lemma after_finite (p q : Q) :
  after (Js.Finite p) (Js.Finite q) = negb (Qle_bool p q).
Proof. unfold after. cbn. now rewrite Qle_bool_minus. Qed.

Lemma Qle_bool_false (p q : Q) : Qle_bool p q = false -> (q < p)%Q.
Proof.
  intros H. apply Qnot_le_lt. intros K. apply Qle_bool_iff in K. congruence.
Qed.

(** The comparator never puts two orders each after the other. *)
Lemma after_asym (x y : Js.Number) : after x y = true -> after y x = false.
Proof.
  destruct x as [|[]|p], y as [|[]|q]; try reflexivity; try discriminate.
  rewrite !after_finite. intros H.
  apply negb_true_iff, Qle_bool_false in H.
  apply negb_false_iff, Qle_bool_iff. lra.
Qed.

(** Not to come after is transitive through an order that is a number. *)
Lemma not_after_trans (x y z : Js.Number) :
  y <> Js.NaN -> after x y = false -> after y z = false -> after x z = false.
Proof.
  destruct x as [|[]|p], y as [|[]|q], z as [|[]|r]; intros Hy;
    try reflexivity; try discriminate; try contradiction.
  rewrite !after_finite. intros H1 H2.
  apply negb_false_iff, Qle_bool_iff in H1, H2.
  apply negb_false_iff, Qle_bool_iff. lra.
Qed.

Lemma insertByOrder_perm (x : SectionImpl) (l : list SectionImpl) :
  Permutation (x :: l) (insertByOrder x l).
Proof.
  induction l as [|y l IH]; cbn [insertByOrder]; [reflexivity|].
  destruct (Js.isPositive (compareOrder x y)); [|reflexivity].
  rewrite perm_swap. now constructor.
Qed.

Lemma insertByOrder_sorted (x : SectionImpl) (l : list SectionImpl) :
  (forall s, In s l -> orderOf s <> Js.NaN) ->
  StronglySorted (fun a b => after (orderOf a) (orderOf b) = false) l ->
  StronglySorted (fun a b => after (orderOf a) (orderOf b) = false)
                 (insertByOrder x l).
Proof.
  intros Hn Hl. induction Hl as [|y l Hl IH Hy]; cbn [insertByOrder].
  - repeat constructor.
  - destruct (Js.isPositive (compareOrder x y)) eqn:E.
    + constructor; [apply IH; intros s Hs; apply Hn; now right|].
      apply (Permutation_Forall (insertByOrder_perm x l)).
      constructor; [now apply after_asym | exact Hy].
    + constructor; [now constructor|]. constructor; [exact E|].
      apply Forall_forall. intros z Hz.
      apply not_after_trans with (orderOf y);
        [apply Hn; now left | exact E|].
      now apply (proj1 (Forall_forall _ _) Hy).
Qed.

Lemma insertByOrder_filter (k : Js.Number) (x : SectionImpl)
      (l : list SectionImpl) :
  k <> Js.NaN ->
  filter (tied k) (insertByOrder x l) = filter (tied k) (x :: l).
Proof.
  intros Hk. induction l as [|y l IH]; cbn [insertByOrder]; [reflexivity|].
  destruct (Js.isPositive (compareOrder x y)) eqn:E; [|reflexivity].
  cbn [filter] in *. rewrite IH.
  destruct (tied k x) eqn:Ex, (tied k y) eqn:Ey; try reflexivity.
  exfalso. unfold tied in Ex, Ey.
  apply andb_prop in Ex, Ey. destruct Ex as [Ex _], Ey as [_ Ey].
  apply negb_true_iff in Ex, Ey.
  pose proof (not_after_trans _ _ _ Hk Ex Ey) as H.
  unfold after in H. unfold compareOrder in E. congruence.
Qed.

(** X19.  When no section has the order [NaN], the top-level [generate()]
    asks every section for its text once, in ascending order of the
    sections' [order] (a section without one counts as
    [Number.MAX_SAFE_INTEGER]): no section is put before one that the
    comparator puts before it, and the sections that the comparator ties
    with a number keep the order in which they were added. *)
Theorem sections_sorted_stably (g : GeneratorImpl) :
  (forall s, In s (sections g) -> orderOf s <> Js.NaN) ->
  Permutation (sections g) (sortedSections g) /\
  StronglySorted (fun a b => after (orderOf a) (orderOf b) = false)
                 (sortedSections g) /\
  forall k, k <> Js.NaN ->
            filter (tied k) (sortedSections g) = filter (tied k) (sections g).
Proof.
  unfold sortedSections. intros Hn.
  induction (sections g) as [|x l IH]; cbn [fold_right].
  - repeat split; constructor.
  - destruct IH as (IH1 & IH2 & IH3); [intros s Hs; apply Hn; now right|].
    split; [|split].
    + rewrite <- insertByOrder_perm. now constructor.
    + apply insertByOrder_sorted; [|exact IH2].
      intros s Hs. apply Hn. right.
      now apply (Permutation_in _ (Permutation_sym IH1)).
    + intros k Hk. rewrite (insertByOrder_filter k x _ Hk).
      cbn [filter]. now rewrite (IH3 k Hk).
Qed.

(** The sections with a finite order come first, in ascending order and
    those of order 2 as they were added; the sections without order follow,
    as they were added; the infinite order is last. *)
Lemma sections_sorted_stably_witness :
  map sectionName (sortedSections sixSections) =
    ["fourth"; "second"; "sixth"; "first"; "third"; "fifth"] /\
  StronglySorted (fun a b => after (orderOf a) (orderOf b) = false)
                 (sortedSections sixSections).
Proof.
  split; [reflexivity|].
  refine (proj1 (proj2 (sections_sorted_stably sixSections _))).
  intros s [<-|[<-|[<-|[<-|[<-|[<-|[]]]]]]]; discriminate.
Defined.

(** With an order [NaN] the comparator ties every pair that holds it, and
    the sections may stay unsorted. *)
Example sections_with_NaN_stay :
  map sectionName
      (sortedSections
         (mkGenerator [ordered "three" (Some (Js.Finite (inject_Z 3)));
                       ordered "nan" (Some Js.NaN);
                       ordered "one" (Some (Js.Finite (inject_Z 1)))] [])) =
  ["three"; "nan"; "one"].
Proof. reflexivity. Qed.

End GeneratorMore.

Module StatementMore.
Import Statements MoreVocabulary.

Lemma unchain_fold (clauses : list (string * BlockBuilderImpl))
      (last : option BlockBuilderImpl) :
  match fold_right
          (fun clause currentElse =>
             Some (IfStatement (fst clause) (blockNode (snd clause))
                               currentElse None))
          (option_map blockNode last) clauses with
  | Some e => unchain e
  | None => ([], None)
  end = (map branchOf clauses, option_map blockNode last).
Proof.
  induction clauses as [|cl l IH]; cbn [fold_right map].
  - destruct last; reflexivity.
  - cbn [unchain]. rewrite IH. reflexivity.
Qed.

(** X20.  An if builder with a non-empty condition and a then block
    returns a node whose branches, read along the else positions, are the
    condition with the then block, then the else-if clauses in the order in
    which they were declared, and whose last else position holds the else
    block if one was declared.  The conditions of the else-if clauses are
    not checked. *)
Theorem if_chain_in_declared_order (b : IfStatementBuilderImpl)
        (c : string) (thenB : BlockBuilderImpl) :
  conditionExpr b = Some c -> truthy c = true -> thenBlock b = Some thenB ->
  exists n,
    ifGenerateNode b = Return n /\
    unchain n = ((c, blockNode thenB) :: map branchOf (elseIfClauses b),
                 option_map blockNode (elseBlock b)).
Proof.
  intros Hc Ht Hb. unfold ifGenerateNode. rewrite Hc, Hb. cbn [truthyOpt].
  rewrite Ht. cbn [negb]. eexists. split; [reflexivity|].
  cbn [unchain].
  pose proof (unchain_fold (elseIfClauses b) (elseBlock b)) as H.
  destruct (elseIfClauses b) as [|cl l] eqn:E.
  - cbn [map]. destruct (elseBlock b); reflexivity.
  - rewrite H. reflexivity.
Qed.

Lemma if_chain_in_declared_order_witness :
  exists n,
    ifGenerateNode threeWay = Return n /\
    map fst (fst (unchain n)) = ["a"; "b"; "c"] /\
    snd (unchain n) = Some (Block [ReturnStatement None] None).
Proof.
  destruct (if_chain_in_declared_order threeWay "a"
              (addStatement "f()" newBlock) eq_refl eq_refl eq_refl)
    as [n [Hn Hu]].
  exists n. split; [exact Hn|]. rewrite Hu. split; reflexivity.
Defined.

Ltac settle :=
  repeat match goal with
         | H : _ /\ _ |- _ => destruct H
         | H : exists _, _ |- _ => destruct H
         | |- _ /\ _ => split
         end;
  try discriminate; try congruence; try (eexists; reflexivity).

(** X21.  A for loop needs its body only: with a body it returns a node
    whatever its initializer, condition and incrementor are.  A while and a
    do-while loop return a node exactly when the condition is not empty and
    the body is there. *)
Theorem loops_return_iff (f : ForLoopBuilderImpl) (w : WhileLoopBuilderImpl)
        (d : DoWhileLoopBuilderImpl) :
  ((exists n, forGenerateNode f = Return n) <-> forBody f <> None) /\
  ((exists n, whileGenerateNode w = Return n) <->
   truthyOpt (whileConditionExpr w) = true /\ whileBody w <> None) /\
  ((exists n, doWhileGenerateNode d = Return n) <->
   truthyOpt (doConditionExpr d) = true /\ doBody d <> None).
Proof.
  unfold forGenerateNode, whileGenerateNode, doWhileGenerateNode, getBodyNode.
  split; [|split].
  - destruct (forBody f); split; intros H; settle.
  - destruct (whileConditionExpr w) as [c|]; cbn [truthyOpt];
      [destruct (truthy c)|]; destruct (whileBody w); split; intros H; settle.
  - destruct (doConditionExpr d) as [c|]; cbn [truthyOpt];
      [destruct (truthy c)|]; destruct (doBody d); split; intros H; settle.
Qed.

End StatementMore.

(* ================================================================== *)
(** ** The switch statement builder *)
(* ================================================================== *)

Module SwitchFacts.
Import Statements SwitchM MoreVocabulary.

Lemma lastOf_app_cons {A : Type} (l r : list A) (x : A) :
  lastOf (l ++ x :: r) = lastOf (x :: r).
Proof.
  unfold lastOf. rewrite rev_app_distr. cbn [rev].
  destruct (rev r) as [|y r']; reflexivity.
Qed.

Lemma chain_cases (cs : list Call) (b : SwitchStatementBuilderImpl) :
  map clauseOf (caseClauses (chain cs b)) =
  map clauseOf (caseClauses b) ++ casesDeclared cs.
Proof.
  revert b. induction cs as [|c cs IH]; intros b; cbn [chain fold_left].
  - cbn. now rewrite app_nil_r.
  - fold (chain cs (call c b)). rewrite IH.
    destruct c; cbn [call casesDeclared flat_map setExpression case default
                     jsdoc caseClauses app]; try reflexivity.
    rewrite map_app, <- app_assoc. reflexivity.
Qed.

Lemma chain_default (cs : list Call) (b : SwitchStatementBuilderImpl) :
  defaultOf (chain cs b) = lastOf (defaultOf b ++ defaultsDeclared cs).
Proof.
  revert b. induction cs as [|c cs IH]; intros b; cbn [chain fold_left].
  - cbn. rewrite app_nil_r. unfold defaultOf.
    destruct (defaultClauseBlock b); reflexivity.
  - fold (chain cs (call c b)). rewrite IH.
    destruct c; cbn [call defaultsDeclared flat_map]; try reflexivity.
    unfold defaultOf at 1. cbn [default defaultClauseBlock app].
    fold (defaultsDeclared cs). unfold getStatementsFromBlock, blockNode.
    now rewrite lastOf_app_cons.
Qed.

(** X22.  Whatever the order of the calls on a switch builder, the node
    lists the case clauses in the order in which they were declared and the
    default clause after them; of several default clauses the last one
    declared is the one rendered.  A clause holds the statements of its
    block only: a comment set on the block is not rendered. *)
Theorem switch_clauses_in_order (cs : list Call) (n : SwitchStatement) :
  generateNode (chain cs newSwitch) = Return n ->
  caseBlock n = casesDeclared cs ++ lastOf (defaultsDeclared cs).
Proof.
  unfold generateNode. intros H.
  pose proof (chain_cases cs newSwitch) as Hc.
  pose proof (chain_default cs newSwitch) as Hd.
  cbn [newSwitch caseClauses map app] in Hc.
  unfold defaultOf in Hd. cbn [newSwitch defaultClauseBlock app] in Hd.
  destruct (expressionExpr (chain cs newSwitch)) as [e|]; [|discriminate].
  destruct (truthy e); [|discriminate].
  injection H as <-. cbn [caseBlock]. fold clauseOf. rewrite Hc.
  destruct (defaultClauseBlock (chain cs newSwitch));
    rewrite <- Hd; [reflexivity | now rewrite app_nil_r].
Qed.

Lemma switch_clauses_in_order_witness :
  exists n,
    generateNode (chain defaultFirst newSwitch) = Return n /\
    caseBlock n =
      [CaseClause "1" [ExpressionStatement "one()"];
       CaseClause "2" [ExpressionStatement "two()"];
       DefaultClause [ReturnStatement None]].
Proof.
  eexists. split; [reflexivity|].
  rewrite (switch_clauses_in_order defaultFirst _ eq_refl). reflexivity.
Defined.

End SwitchFacts.

(* ================================================================== *)
(** ** The scan of the items comes before the imports *)
(* ================================================================== *)

Module SectionScan.
Import Tracker SectionM Vocabulary MoreVocabulary.

(** *** Occurrences *)

Lemma prefix_append (x r : string) : String.prefix x (x +++ r) = true.
Proof.
  induction x as [|c x IH]; cbn; [now destruct r|].
  destruct (ascii_dec c c); [exact IH | contradiction].
Qed.

Lemma prefix_append_l (x a b : string) :
  String.prefix x a = true -> String.prefix x (a +++ b) = true.
Proof.
  revert a. induction x as [|c x IH]; intros a H; cbn.
  - now destruct (a +++ b).
  - destruct a as [|d a]; cbn in *; [discriminate|].
    destruct (ascii_dec c d); [now apply IH | discriminate].
Qed.

Lemma occursIn_here (x r : string) : occursIn x (x +++ r) = true.
Proof.
  pose proof (prefix_append x r) as H.
  destruct (x +++ r); cbn [occursIn]; now rewrite H.
Qed.

Lemma occursIn_app_r (x a b : string) :
  occursIn x b = true -> occursIn x (a +++ b) = true.
Proof.
  intros H. induction a as [|c a IH]; [exact H|].
  cbn [String.append occursIn]. rewrite IH. apply orb_true_r.
Qed.

Lemma occursIn_app_l (x a b : string) :
  occursIn x a = true -> occursIn x (a +++ b) = true.
Proof.
  induction a as [|c a IH]; intros H.
  - cbn in H. rewrite orb_false_r in H. destruct x; [|discriminate].
    now destruct b.
  - cbn [occursIn] in H. apply orb_prop in H. destruct H as [H|H].
    + change (occursIn x (String c a +++ b))
        with (String.prefix x (String c a +++ b) || occursIn x (a +++ b)).
      now rewrite (prefix_append_l x (String c a) b H).
    + change (occursIn x (String c a +++ b))
        with (String.prefix x (String c a +++ b) || occursIn x (a +++ b)).
      rewrite (IH H). apply orb_true_r.
Qed.

Lemma occursIn_join (x sep : string) (l : list string) :
  In x l -> occursIn x (join sep l) = true.
Proof.
  induction l as [|y l IH]; [intros []|]. intros H.
  destruct l as [|z l].
  - destruct H as [->|[]]. cbn [join].
    rewrite <- (StringFacts.append_nil_r x) at 2. apply occursIn_here.
  - change (join sep (y :: z :: l)) with (y +++ sep +++ join sep (z :: l)).
    destruct H as [->|H]; [apply occursIn_here|].
    apply occursIn_app_r, occursIn_app_r. now apply IH.
Qed.

Section Host.
Variable localeCompare : string -> string -> comparison.
Variable printComment : SynthesizedComment -> string.

Local Abbreviation usageTracker := (usageTracker localeCompare).
Local Abbreviation importStrings := (importStrings localeCompare).
Local Abbreviation generateText := (generateText localeCompare printComment).
Local Abbreviation visited := (visited localeCompare).

(** Every import line is part of the text that [generate()] returns. *)
Lemma importStrings_in_text (s : SectionImpl) (line : string) :
  In line (importStrings s) -> occursIn line (generateText s) = true.
Proof.
  intros H. unfold SectionM.generateText.
  fold (importStrings s).
  assert (Hj : occursIn line (join nl (importStrings s)) = true)
    by now apply occursIn_join.
  assert (Hl : Nat.ltb 0 (List.length (importStrings s)) = true)
    by (destruct (importStrings s); [destruct H | reflexivity]).
  rewrite Hl.
  destruct (Nat.eqb _ 0 && _).
  - do 9 apply occursIn_app_r. apply occursIn_app_l.
    now apply occursIn_app_l.
  - set (result2 :=
           if Nat.ltb 0 (List.length (SectionM.stringNodes localeCompare s))
           then _ else _).
    assert (H2 : occursIn line result2 = true).
    { subst result2.
      destruct (Nat.ltb 0 (List.length (SectionM.stringNodes localeCompare s)));
        [|exact Hj].
      apply occursIn_app_l.
      destruct (truthy _); [now apply occursIn_app_l | exact Hj]. }
    destruct (truthy (printNodes _ _)); [|exact H2].
    apply occursIn_app_l.
    destruct (truthy result2); [now apply occursIn_app_l | exact H2].
Qed.

(** *** What is reported is rendered *)

Lemma reported_not_empty (code n : string) :
  isUsed (scanString code empty) n = true -> truthy n = true.
Proof.
  destruct n; [|reflexivity]. unfold isUsed.
  rewrite (TrackerFacts.Adds_scanString code empty ""). unfold codeIdentifiers.
  rewrite !TrackerFacts.has_app, TrackerMore.empty_not_in_nonEmpty.
  rewrite (TrackerMore.has_flat_map_false
             "" _ (Regex.execAll stringLiteralRegex code)).
  - rewrite (TrackerMore.has_flat_map_false "" _ patterns);
      [discriminate | intros r; apply TrackerMore.empty_not_in_nonEmpty].
  - intros c. destruct (isEmpty c); [reflexivity|].
    unfold contentIdentifiers.
    now rewrite TrackerFacts.has_app, TrackerMore.empty_not_in_nonEmpty,
      TrackerMore.empty_not_in_identifiersAdded.
Qed.

Lemma shownDefault_reported (t : TypeUsageTracker)
      (b : Imports.ImportsBuilderImpl) (x : Imports.SingleImport) :
  Imports.defaultImport b = Some x ->
  isUsed t (Imports.sname x) = true -> truthy (Imports.sname x) = true ->
  shownDefault (Imports.markUsedFromTracker t b) = Some (Imports.sname x).
Proof.
  intros Hx Hu Ht. unfold shownDefault. cbn. rewrite Hx. cbn. rewrite Hu.
  cbn. now rewrite orb_true_r, Ht.
Qed.

Lemma shownNamespace_reported (t : TypeUsageTracker)
      (b : Imports.ImportsBuilderImpl) (x : Imports.SingleImport) :
  Imports.namespaceImport b = Some x ->
  isUsed t (Imports.sname x) = true -> truthy (Imports.sname x) = true ->
  shownNamespace (Imports.markUsedFromTracker t b) = Some (Imports.sname x).
Proof.
  intros Hx Hu Ht. unfold shownNamespace. cbn. rewrite Hx. cbn. rewrite Hu.
  cbn. now rewrite orb_true_r, Ht.
Qed.

Lemma bringsIn_shown (b : Imports.ImportsBuilderImpl)
      (d : Imports.ImportDeclaration) (n : string) :
  Imports.generateDecl b = Some d ->
  shownDefault b = Some n \/
  shownNamespace b = Some n \/
  (shownNamespace b = None /\
   In (Imports.mkSpecifier None n)
      (map Imports.specifierOf (Imports.filteredNamedImports b))) ->
  bringsIn d n.
Proof.
  intros Hd H. rewrite ImportsFacts.generateDecl_spec in Hd.
  destruct (_ && _) in Hd; [discriminate|]. injection Hd as <-.
  unfold bringsIn. cbn [Imports.importClause]. unfold shownBindings.
  destruct H as [H|[H|[H1 H2]]].
  - rewrite H. eexists. split; [reflexivity|]. now left.
  - rewrite H. destruct (shownDefault b); eexists; (split; [reflexivity|]);
      right; now left.
  - rewrite H1.
    destruct (Imports.filteredNamedImports b) as [|i l]; [destruct H2|].
    destruct (shownDefault b); eexists; (split; [reflexivity|]);
      right; right; eexists; (split; [reflexivity | exact H2]).
Qed.

(** C1, amended.  The tracker against which every import is reconciled has
    seen the text of every non-import item, and the text of the section
    does not depend on how import items and other items were interleaved
    when they were added.  So, as soon as the scan of some non-import item
    of the section reports the name of a binding of an import (a named
    binding without alias, the default or the namespace binding), the
    statement of that import is one of the import lines and stands in the
    text that [generate()] returns; and the statement brings that name into
    scope, unless the name is that of a named binding only and the
    statement shows a namespace binding, which takes the place of the named
    group. *)
Theorem scan_precedes_reconciliation (s1 s2 : SectionImpl) :
  sectionName s1 = sectionName s2 ->
  options s1 = options s2 ->
  filter isImport (items s1) = filter isImport (items s2) ->
  filter (fun it => negb (isImport it)) (items s1) =
  filter (fun it => negb (isImport it)) (items s2) ->
  (forall it x, In it (items s1) -> isImport it = false ->
     isUsed (scanString (generatedCodeOf it) empty) x = true ->
     isUsed (usageTracker s1) x = true) /\
  generateText s1 = generateText s2 /\
  (forall it imp b n,
     In it (items s1) -> isImport it = false ->
     In imp (items s1) -> isImport imp = true ->
     importsBuilder imp = Some b -> declares b n ->
     isUsed (scanString (generatedCodeOf it) empty) n = true ->
     exists d,
       Imports.generateDecl
         (Imports.markUsedFromTracker (usageTracker s2) b) = Some d /\
       In (Imports.printImport d) (importStrings s2) /\
       occursIn (Imports.printImport d) (generateText s2) = true /\
       (shownNamespace (Imports.markUsedFromTracker (usageTracker s2) b)
          = None \/ declaresSingle b n ->
        bringsIn d n)).
Proof.
  intros Hn Ho Hfi Hfn.
  assert (Hv : visited s1 = visited s2)
    by (apply SectionFacts.visited_ext; [now rewrite Ho | exact Hfn]).
  assert (Hseen : forall it x, In it (items s1) -> isImport it = false ->
            isUsed (scanString (generatedCodeOf it) empty) x = true ->
            isUsed (usageTracker s1) x = true).
  { intros it x Hin Hi Hx. unfold isUsed. rewrite SectionFacts.usageTracker_has.
    apply existsb_exists. exists it. split; [|exact Hx].
    now apply SectionFacts.visited_In. }
  split; [exact Hseen|]. split.
  { apply SectionFacts.generateText_ext; auto.
    now apply SectionFacts.importStrings_ext. }
  intros it imp b n Hit Hi Himp Hii Hb Hd Hx.
  rewrite <- (SectionFacts.usageTracker_ext _ _ _ Hv).
  set (t := usageTracker s1).
  assert (Hu : isUsed t n = true) by now apply (Hseen it).
  assert (Ht : truthy n = true) by now apply reported_not_empty in Hx.
  destruct (SectionFacts.declared_and_reported t b n Hd Hu) as [rest Hr].
  destruct (Imports.generateDecl (Imports.markUsedFromTracker t b))
    as [d|] eqn:Ed;
    [|unfold Imports.generate in Hr; rewrite Ed in Hr; discriminate].
  assert (Hg : Imports.generate (Imports.markUsedFromTracker t b) =
               Imports.printImport d)
    by (unfold Imports.generate; now rewrite Ed).
  assert (Hin : In (Imports.printImport d) (importStrings s2)).
  { rewrite <- (SectionFacts.importStrings_ext _ _ _ Hv Hfi).
    rewrite <- Hg, Hr.
    now apply SectionFacts.importStrings_In with imp b. }
  exists d. split; [reflexivity|]. split; [exact Hin|].
  split; [now apply importStrings_in_text|].
  intros Hc. apply (bringsIn_shown _ d n Ed).
  assert (Hdef : forall x, Imports.defaultImport b = Some x ->
                           Imports.sname x = n ->
                           shownDefault (Imports.markUsedFromTracker t b)
                           = Some n).
  { intros x Hx1 <-. now apply shownDefault_reported. }
  assert (Hns : forall x, Imports.namespaceImport b = Some x ->
                          Imports.sname x = n ->
                          shownNamespace (Imports.markUsedFromTracker t b)
                          = Some n).
  { intros x Hx1 <-. now apply shownNamespace_reported. }
  destruct Hc as [Hc|[(x & Hx1 & Hx2)|(x & Hx1 & Hx2)]].
  - destruct Hd as [(i & Hi1 & Hi2 & Hi3)|[(x & Hx1 & Hx2)|(x & Hx1 & Hx2)]].
    + right. right. split; [exact Hc|].
      apply in_map_iff. exists (Imports.reconcileNamed t i). split.
      * rewrite ImportsFacts.specifierOf_reconcile.
        unfold Imports.specifierOf. now rewrite Hi2, Hi3.
      * apply ImportsFacts.in_filtered.
        -- cbn. now apply in_map.
        -- rewrite ImportsFacts.reconcileNamed_used, Hi3, Hu.
           apply orb_true_r.
    + left. now apply (Hdef x).
    + rewrite (Hns x Hx1 Hx2) in Hc. discriminate.
  - left. now apply (Hdef x).
  - right. left. now apply (Hns x).
Qed.

End Host.

(** C1, amended, at the import of [User] declared before, and after, the
    interface that refers to it: the two sections read the same, and the
    statement that brings [User] into scope stands in the text. *)
Lemma scan_precedes_reconciliation_witness :
  generateText Inputs.ordinalCompare Inputs.writeComment Inputs.importThenUse =
  generateText Inputs.ordinalCompare Inputs.writeComment Inputs.useThenImport /\
  exists d,
    occursIn (Imports.printImport d)
             (generateText Inputs.ordinalCompare Inputs.writeComment
                           Inputs.useThenImport) = true /\
    bringsIn d "User".
Proof.
  destruct (scan_precedes_reconciliation
              Inputs.ordinalCompare Inputs.writeComment
              Inputs.importThenUse Inputs.useThenImport
              eq_refl eq_refl eq_refl eq_refl) as (_ & H2 & H3).
  split; [exact H2|].
  destruct (H3 (mkItem TInterface "UserProfile" (NNode Inputs.userProfile) None)
               (mkItem TImport "./types" (NString "")
                       (Some (Imports.named "User" None
                                (Imports.new "./types" Imports.defaultOptions))))
               (Imports.named "User" None
                  (Imports.new "./types" Imports.defaultOptions))
               "User") as (d & _ & _ & Ho & Hb).
  - right. now left.
  - reflexivity.
  - now left.
  - reflexivity.
  - reflexivity.
  - left. eexists. split; [now left|]. split; reflexivity.
  - reflexivity.
  - exists d. split; [exact Ho|]. apply Hb. now left.
Defined.

(** The text of the section in which the import of [User] follows the
    interface. *)
Example import_line_in_text :
  generateText Inputs.ordinalCompare Inputs.writeComment Inputs.useThenImport =
    "import { User } from " +++ dq +++ "./types" +++ dq +++ ";" +++ nl +++ nl
    +++ "/** Profile */" +++ nl +++ "interface UserProfile {" +++ nl +++
    "    user: User;" +++ nl +++ "}" +++ nl +++ nl +++ "// End Profile" +++ nl.
Proof. reflexivity. Qed.

(** Next to a namespace binding that is rendered, a named binding is not:
    the scan reports [User] and [NS], and the statement shows [NS] alone. *)
Example named_binding_hidden_by_namespace :
  usageTracker Inputs.ordinalCompare namespaceAndUser = ["User"; "NS"] /\
  importStrings Inputs.ordinalCompare namespaceAndUser =
    ["import * as NS from " +++ dq +++ "m" +++ dq +++ ";"].
Proof. split; reflexivity. Qed.

End SectionScan.

(* ================================================================== *)
(** ** Every section has a tracker of its own *)
(* ================================================================== *)

Module SectionIsolation.
Import Tracker SectionM GeneratorM Heap.

Lemma update_new (h : Heap) (t : TypeUsageTracker)
      (f : TypeUsageTracker -> TypeUsageTracker) :
  update (List.length h) f (h ++ [t]) = h ++ [f t].
Proof. induction h as [|x h IH]; cbn; [reflexivity | now rewrite IH]. Qed.

Lemma setOf_new (h : Heap) (t : TypeUsageTracker) :
  setOf (List.length h) (h ++ [t]) = t.
Proof. unfold setOf. induction h as [|x h IH]; cbn; [reflexivity | exact IH]. Qed.

Lemma scans_on_new {A : Type} (g : A -> TypeUsageTracker -> TypeUsageTracker)
      (l : list A) (h : Heap) (t : TypeUsageTracker) :
  fold_left (fun h' p => update (List.length h) (g p) h') l (h ++ [t]) =
  h ++ [fold_left (fun t' p => g p t') l t].
Proof.
  revert t. induction l as [|p l IH]; intros t; cbn [fold_left]; [reflexivity|].
  now rewrite update_new, IH.
Qed.

Section Host.
Variable localeCompare : string -> string -> comparison.

Local Abbreviation usageTracker := (usageTracker localeCompare).
Local Abbreviation processedImportItems :=
  (processedImportItems localeCompare).

(** On whatever heap a section is generated, its import items are
    reconciled against the scan of its own items, and the heap grows by the
    tracker of the section. *)
Lemma generateImports_own (s : SectionImpl) (h : Heap) :
  generateImports localeCompare s h =
  (processedImportItems s, h ++ [usageTracker s]).
Proof.
  unfold generateImports, newTracker.
  rewrite (scans_on_new (fun p => scanString (generatedCodeOf (snd p)))).
  rewrite setOf_new. reflexivity.
Qed.

Lemma generateAll_own (ss : list SectionImpl) (h : Heap) :
  generateAll localeCompare ss h =
  (map processedImportItems ss, h ++ map usageTracker ss).
Proof.
  revert h. induction ss as [|s ss IH]; intros h; cbn [generateAll map].
  - now rewrite app_nil_r.
  - rewrite generateImports_own, IH. now rewrite <- app_assoc.
Qed.

(** C7.  Take two runs of the top-level [generate()], on any two heaps
    (whatever trackers earlier calls left there), whose generators differ
    in the content of one section only (same position, same order).  Every
    other section leaves its import items the same in both runs, with the
    same used flags and the same rendered statement: each is reconciled
    against the tracker that its own call created and filled from its own
    items. *)
Theorem no_cross_section_leakage
        (pre post : list SectionImpl) (B1 B2 : SectionImpl)
        (meta : list (string * option string)) (h1 h2 : Heap) :
  order (options B1) = order (options B2) ->
  Forall2 (fun r1 r2 =>
             r1 = r2 \/
             (r1 = processedImportItems B1 /\ r2 = processedImportItems B2))
          (fst (Heap.generate localeCompare
                  (mkGenerator (pre ++ B1 :: post) meta) h1))
          (fst (Heap.generate localeCompare
                  (mkGenerator (pre ++ B2 :: post) meta) h2)).
Proof.
  intros Ho. unfold Heap.generate. rewrite !generateAll_own. cbn [fst].
  set (R := fun s1 s2 : SectionImpl =>
              orderOf s1 = orderOf s2 /\ (s1 = s2 \/ (s1 = B1 /\ s2 = B2))).
  assert (HR : Forall2 R (pre ++ B1 :: post) (pre ++ B2 :: post)).
  { apply Forall2_app.
    - induction pre; constructor; [split; auto | assumption].
    - constructor.
      + split; [unfold orderOf; now rewrite Ho | now right].
      + induction post; constructor; [split; auto | assumption]. }
  apply (GeneratorFacts.sort_related R) in HR; [|now intros s1 s2 [H _]].
  unfold sortedSections. cbn [sections].
  induction HR as [|u v a b [_ Huv] _ IH]; cbn [map]; constructor; [|exact IH].
  destruct Huv as [->|[-> ->]]; [now left | now right].
Qed.

End Host.

(** C7 at the two sections that each import [User] from [./types], the
    second run starting on a heap whose one tracker reports [User]: whether
    or not the second section refers to [User], the first section leaves
    its import unused and without text. *)
Lemma no_cross_section_leakage_witness :
  Forall2 (fun r1 r2 =>
             r1 = r2 \/
             (r1 = processedImportItems Inputs.ordinalCompare Inputs.sectionB /\
              r2 = processedImportItems Inputs.ordinalCompare Inputs.sectionB'))
    (fst (Heap.generate Inputs.ordinalCompare
            (mkGenerator [Inputs.sectionA; Inputs.sectionB] []) []))
    (fst (Heap.generate Inputs.ordinalCompare
            (mkGenerator [Inputs.sectionA; Inputs.sectionB'] []) [["User"]])) /\
  map (fun it => (generatedCodeOf it,
                  option_map (fun b => map Imports.used (Imports.namedImports b))
                             (importsBuilder it)))
      (hd [] (fst (Heap.generate Inputs.ordinalCompare
                     (mkGenerator [Inputs.sectionA; Inputs.sectionB] []) []))) =
    [("", Some [false])] /\
  map generatedCodeOf
      (hd [] (tl (fst (Heap.generate Inputs.ordinalCompare
                         (mkGenerator [Inputs.sectionA; Inputs.sectionB] [])
                         [])))) =
    ["import { User } from " +++ dq +++ "./types" +++ dq +++ ";"].
Proof.
  split; [|split; reflexivity].
  exact (no_cross_section_leakage Inputs.ordinalCompare
           [Inputs.sectionA] [] Inputs.sectionB Inputs.sectionB' []
           [] [["User"]] eq_refl).
Defined.

End SectionIsolation.
